(** * open_tool_speex: A-law companding codec and frame pipeline

    A shallow embedding of
    - the two A-law codecs of the repository: the table-driven one of
      [alaw.go] and the direct-computation one that exports
      [Linear2Alaw] / [Alaw2Linear] (the functions that the tests of
      package [audio] exercise);
    - the mode policy of [types.ProcessingMode];
    - the frame loops [Processor.processAudio] and [processAEC], over an
      abstract SpeexDSP engine.

    Go integers are [Z]; a conversion to a fixed width is written out with
    [to_uint8] / [to_int16].  Slices are lists; an index outside the slice
    and a [nil] receiver panic in Go and give [None] here.  A file is the
    list of its bytes.  Printing (mode banner, progress lines) is left
    out.  A run returns its outcome together with the trace of codec
    calls, engine calls and writes it made. *)

From Stdlib Require Import ZArith Bool Lia String.
From stdpp Require Import base tactics option list.

Local Open Scope Z_scope.

(** ** Fixed-width integers *)

(** Conversion to [uint8]: keep the low eight bits. *)
Definition to_uint8 (x : Z) : Z := x mod 256.

(** Conversion to [int16]: keep the low sixteen bits, two's complement. *)
Definition to_int16 (x : Z) : Z := (x + 32768) mod 65536 - 32768.

Definition is_uint8 (x : Z) : Prop := 0 <= x < 256.

(** Every [uint8] value, for exhaustive checks. *)
Definition all_uint8 : list Z := Z.of_nat <$> seq 0 256.

(** ** The table-driven codec of [alaw.go] *)
Module Alaw.

Definition alawDecodeTable : list Z :=
    [ -5504; -5248; -6016; -5760; -4480; -4224; -4992; -4736;
      -7552; -7296; -8064; -7808; -6528; -6272; -7040; -6784;
      -2752; -2624; -3008; -2880; -2240; -2112; -2496; -2368;
      -3776; -3648; -4032; -3904; -3264; -3136; -3520; -3392;
      -22016; -20992; -24064; -23040; -17920; -16896; -19968; -18944;
      -30208; -29184; -32256; -31232; -26112; -25088; -28160; -27136;
      -11008; -10496; -12032; -11520; -8960; -8448; -9984; -9472;
      -15104; -14592; -16128; -15616; -13056; -12544; -14080; -13568;
      -344; -328; -376; -360; -280; -264; -312; -296;
      -472; -456; -504; -488; -408; -392; -440; -424;
      -88; -72; -120; -104; -24; -8; -56; -40;
      -216; -200; -248; -232; -152; -136; -184; -168;
      -1376; -1312; -1504; -1440; -1120; -1056; -1248; -1184;
      -1888; -1824; -2016; -1952; -1632; -1568; -1760; -1696;
      -688; -656; -752; -720; -560; -528; -624; -592;
      -944; -912; -1008; -976; -816; -784; -880; -848;
      5504; 5248; 6016; 5760; 4480; 4224; 4992; 4736;
      7552; 7296; 8064; 7808; 6528; 6272; 7040; 6784;
      2752; 2624; 3008; 2880; 2240; 2112; 2496; 2368;
      3776; 3648; 4032; 3904; 3264; 3136; 3520; 3392;
      22016; 20992; 24064; 23040; 17920; 16896; 19968; 18944;
      30208; 29184; 32256; 31232; 26112; 25088; 28160; 27136;
      11008; 10496; 12032; 11520; 8960; 8448; 9984; 9472;
      15104; 14592; 16128; 15616; 13056; 12544; 14080; 13568;
      344; 328; 376; 360; 280; 264; 312; 296;
      472; 456; 504; 488; 408; 392; 440; 424;
      88; 72; 120; 104; 24; 8; 56; 40;
      216; 200; 248; 232; 152; 136; 184; 168;
      1376; 1312; 1504; 1440; 1120; 1056; 1248; 1184;
      1888; 1824; 2016; 1952; 1632; 1568; 1760; 1696;
      688; 656; 752; 720; 560; 528; 624; 592;
      944; 912; 1008; 976; 816; 784; 880; 848 ].

(** The two bit-scanning loops of [pcm16ToAlawDirect]:
      [for i := start; i != 0; i >>= 1 { seg = seg +/- 1; if pcm&i != 0 { break } }].
      [delta] is [+1] or [-1]; [seg] is a [uint8] and wraps. *)
Fixpoint scan (fuel : nat) (delta pcm i seg : Z) : Z :=
    match fuel with
    | O => seg
    | S fuel' =>
        if i =? 0 then seg
        else
          let seg' := to_uint8 (seg + delta) in
          if negb (Z.land pcm i =? 0) then seg'
          else scan fuel' delta pcm (Z.shiftr i 1) seg'
    end.

(** [pcm16ToAlawDirect]: the encoder used to fill the table. *)
Definition pcm16ToAlawDirect (pcm : Z) : Z :=
    let '(mask, pcm1) :=
      if 0 <=? pcm then (0, Z.shiftr pcm 4)
      else
        let p := Z.shiftr (to_int16 (to_int16 (- pcm) - 1)) 4 in
        (128, if p <? 0 then 2047 else p) in
    let seg :=
      if 256 <=? pcm1 then scan 16 (-1) pcm1 256 8
      else scan 16 1 pcm1 32 1 in
    if 8 <=? seg then Z.lxor 127 mask
    else
      let alaw :=
        to_uint8 (Z.lor (to_uint8 (Z.shiftl seg 4))
                        (to_uint8 (Z.land (Z.shiftr pcm1 (to_uint8 (seg + 3))) 15))) in
      Z.lxor (Z.lxor alaw 85) mask.

(** [init]: [alawEncodeTable[i] = pcm16ToAlawDirect(int16(i))] for [i < 4096]. *)
Definition alawEncodeTable : list Z :=
    Eval vm_compute in
      (fun i => pcm16ToAlawDirect (to_int16 (Z.of_nat i))) <$> seq 0 4096.

(** Indexing a fixed-size array: in range for every value the callers
      compute, so the default is never returned. *)
Definition index (t : list Z) (i : Z) : Z := default 0 (t !! Z.to_nat i).

Definition AlawToPCM16 (alaw : Z) : Z := index alawDecodeTable alaw.

Definition PCM16ToAlaw (pcm : Z) : Z :=
    if 0 <=? pcm then
      let pcm := if 4096 <=? pcm then 4095 else pcm in
      index alawEncodeTable pcm
    else
      let pcm := to_int16 (to_int16 (- pcm) - 1) in
      let pcm := if 4096 <=? pcm then 4095 else pcm in
      Z.lxor (index alawEncodeTable pcm) 128.

End Alaw.

(** ** The direct-computation codec ([Linear2Alaw] / [Alaw2Linear]) *)
Module G711.

Definition SIGN_BIT : Z := 128.
Definition QUANT_MASK : Z := 15.
Definition NSEGS : Z := 8.
Definition SEG_SHIFT : Z := 4.
Definition SEG_MASK : Z := 112.

Definition segAend : list Z := [31; 63; 127; 255; 511; 1023; 2047; 4095].

(** [search]: first index [i < size] with [val <= table[i]], else [size]. *)
Fixpoint search_from (i : Z) (val : Z) (table : list Z) (size : nat) : Z :=
    match size, table with
    | S size', t :: table' =>
        if val <=? t then i else search_from (i + 1) val table' size'
    | _, _ => i
    end.

Definition search (val : Z) (table : list Z) (size : nat) : Z :=
    search_from 0 val table size.

Definition Linear2Alaw (pcmVal : Z) : Z :=
    let pcmVal := Z.shiftr pcmVal 3 in
    let '(mask, pcmVal) :=
      if 0 <=? pcmVal then (213, pcmVal)
      else (85, to_int16 (to_int16 (- pcmVal) - 1)) in
    let seg := search pcmVal segAend 8 in
    if 8 <=? seg then Z.lxor 127 mask
    else
      let aval := Z.shiftl seg SEG_SHIFT in
      let aval :=
        if seg <? 2 then Z.lor aval (Z.land (Z.shiftr pcmVal 1) QUANT_MASK)
        else Z.lor aval (Z.land (Z.shiftr pcmVal seg) QUANT_MASK) in
      to_uint8 (Z.lxor aval mask).

Definition Alaw2Linear (aVal : Z) : Z :=
    let aVal := Z.lxor aVal 85 in
    let t := Z.shiftl (Z.land aVal QUANT_MASK) 4 in
    let seg := Z.shiftr (Z.land aVal SEG_MASK) SEG_SHIFT in
    let t :=
      if seg =? 0 then t + 8
      else if seg =? 1 then t + 264
      else Z.shiftl (t + 264) (seg - 1) in
    if negb (Z.land aVal SIGN_BIT =? 0) then to_int16 t else to_int16 (- t).

Definition AlawToPCM16 (alaw : Z) : Z := Alaw2Linear alaw.
Definition PCM16ToAlaw (pcm : Z) : Z := Linear2Alaw pcm.

End G711.


(** ** The codec interface shared by both implementations *)

Class Codec := {
  AlawToPCM16 : Z -> Z;
  PCM16ToAlaw : Z -> Z }.

(** The codec of [alaw.go]. *)
Definition TableCodec : Codec :=
  {| AlawToPCM16 := Alaw.AlawToPCM16; PCM16ToAlaw := Alaw.PCM16ToAlaw |}.

(** The codec exporting [Linear2Alaw] / [Alaw2Linear]; the [audio] package
    that [Processor] imports is tested against these functions. *)
Definition DirectCodec : Codec :=
  {| AlawToPCM16 := G711.AlawToPCM16; PCM16ToAlaw := G711.PCM16ToAlaw |}.

(** Companding order of the codes (the words of the specification, not of
    the source): after undoing the 0x55 toggle, a code with the sign bit
    set is the [k]-th positive level and a code without it the [k]-th
    negative level; neighbouring levels are one quantization step apart. *)
Definition code_rank (b : Z) : Z :=
  let c := Z.lxor b 85 in
  if negb (Z.land c 128 =? 0) then Z.land c 127 else - (Z.land c 127) - 1.

Definition step_distance (b b' : Z) : Z := Z.abs (code_rank b - code_rank b').

Local Close Scope Z_scope.

(** ** Go slices *)
Module Slice.

(** [make([]T, n)]: panics for a negative length. *)
Definition make {A} (n : Z) (zero : A) : option (list A) :=
  if (n <? 0)%Z then None else Some (replicate (Z.to_nat n) zero).

(** The builtin [copy(dst, src)]: the first [min(len(dst), len(src))]
    elements of [dst] are replaced. *)
Definition copy {A} (dst src : list A) : list A :=
  take (length dst) src ++ drop (length src) dst.

(** [s[i] = v]: panics when [i] is out of range. *)
Definition store {A} (s : list A) (i : nat) (v : A) : option (list A) :=
  if decide (i < length s) then Some (<[i:=v]> s) else None.

(** [&s[0]]: panics on an empty slice. *)
Definition addr0 {A} (s : list A) : option unit :=
  match s with [] => None | _ :: _ => Some () end.

(** [for i := from; i < from + cnt; i++ { buf[i] = v }] *)
Fixpoint fill (cnt i : nat) (v : Z) (buf : list Z) : option (list Z) :=
  match cnt with
  | O => Some buf
  | S cnt' => buf' ← store buf i v; fill cnt' (S i) v buf'
  end.

End Slice.

(** ** Buffer conversion, the same loop in both codec files *)

(** [for i := 0; i < len(src) && i < len(dst); i++ { dst[i] = f(src[i]) }] *)
Fixpoint convert (f : Z -> Z) (fuel i : nat) (src dst : list Z) : option (list Z) :=
  match fuel with
  | O => Some dst
  | S fuel' =>
      if (i <? length src) && (i <? length dst) then
        v ← src !! i;
        dst' ← Slice.store dst i (f v);
        convert f fuel' (S i) src dst'
      else Some dst
  end.

Definition AlawBufferToPCM16 `{Codec} (alawData pcmData : list Z) : option (list Z) :=
  convert AlawToPCM16 (length alawData) 0 alawData pcmData.

Definition PCM16BufferToAlaw `{Codec} (pcmData alawData : list Z) : option (list Z) :=
  convert PCM16ToAlaw (length pcmData) 0 pcmData alawData.

(** ** Streams *)

Inductive IOError := EOF | ErrUnexpectedEOF.

Record ReadResult := {
  rr_n : nat;
  rr_err : option IOError;
  rr_rest : list Z;
  rr_buf : list Z }.

(** [io.ReadFull(f, buf)] on a file whose unread bytes are [r]: fills [buf]
    as far as the file goes; [EOF] only when nothing was read, and
    [ErrUnexpectedEOF] after a short read. *)
Definition ReadFull (r buf : list Z) : ReadResult :=
  let n := min (length r) (length buf) in
  {| rr_n := n;
     rr_err := if (n =? length buf)%nat then None
               else if (n =? 0)%nat then Some EOF else Some ErrUnexpectedEOF;
     rr_rest := drop n r;
     rr_buf := Slice.copy buf (take n r) |}.

(** A read that does not take place: [var speakerBytesRead int]. *)
Definition NoRead (r buf : list Z) : ReadResult :=
  {| rr_n := 0; rr_err := None; rr_rest := r; rr_buf := buf |}.

Definition is_EOF (e : option IOError) : bool :=
  match e with Some EOF => true | _ => false end.

(** ** Mode policy ([types.ProcessingMode], [types.Config]) *)

Inductive ProcessingMode :=
  | ModeBypass | ModeTestAlaw | ModeNSOnly | ModeAECOnly | ModeNSFirst | ModeAECFirst.

#[global] Instance ProcessingMode_eq_dec : EqDecision ProcessingMode.
Proof. solve_decision. Defined.

Record Config := {
  MicFile : string;
  SpeakerFile : string;
  Mode : ProcessingMode;
  SampleRate : Z;
  FrameSize : Z;
  FilterLen : Z;
  UsePrevSpeaker : bool }.

(** [Processor.needsSpeakerFile] *)
Definition needsSpeakerFile (config : Config) : bool :=
  bool_decide (Mode config ≠ ModeNSOnly) &&
  bool_decide (Mode config ≠ ModeBypass) &&
  bool_decide (Mode config ≠ ModeTestAlaw).

(** The local [speakerRequired] of [validateConfig]. *)
Definition speakerRequired (config : Config) : bool :=
  bool_decide (Mode config ≠ ModeNSOnly) &&
  bool_decide (Mode config ≠ ModeBypass) &&
  bool_decide (Mode config ≠ ModeTestAlaw).

(** [validateConfig]: [true] when it returns the "missing required
    parameters" error. *)
Definition validateConfig (config : Config) (help : bool) : bool :=
  help || String.eqb (MicFile config) EmptyString
       || (speakerRequired config && String.eqb (SpeakerFile config) EmptyString).

(** ** The SpeexDSP engine behind cgo

    The C library is opaque: its memory is an abstract [CState], an echo
    or preprocessor state is a [Handle], and a routine returns the samples
    it stores through its output pointer. *)

Class SpeexDSP := {
  CState : Type;
  Handle : Type;
  speex_echo_cancellation : CState -> Handle -> list Z -> list Z -> list Z * CState;
  speex_preprocess_run : CState -> Handle -> list Z -> list Z * CState }.

(** [speex.AEC] (and [SpeexAEC] of package main, the same wrapper). *)
Record AEC `{SpeexDSP} := {
  echoState : Handle;
  aec_preprocState : Handle;
  aec_frameSize : Z;
  filterLen : Z }.

(** [speex.Preprocessor] (and [SpeexPreprocessor]). *)
Record Preprocessor `{SpeexDSP} := {
  preprocState : Handle;
  frameSize : Z }.

(** What the pipeline does that an observer can tell apart: calls of the
    buffer codec, calls of the engine wrappers and writes to the output. *)
Inductive Event :=
  | EvDecode (alawData : list Z)
  | EvEncode (pcmData : list Z)
  | EvNS (inputFrame : list Z)
  | EvEchoOnly (micFrame speakerFrame : list Z)
  | EvEchoNS (micFrame speakerFrame : list Z)
  | EvWrite (frame : list Z).

Inductive FrameError := NSFailed | AECFailed.

Inductive Outcome :=
  | Finished
  | Failed (frame : nat) (e : FrameError)
  | Panicked
  | OutOfFuel.

Section Engine.
Context `{SpeexDSP}.

Definition len_ne (frame : list Z) (size : Z) : bool :=
  negb (Z.of_nat (length frame) =? size)%Z.

(** [AEC.ProcessFrame]: [None] is a panic, [Some (None, _)] the [nil]
    result of a length mismatch. *)
Definition AEC_ProcessFrame (aec : AEC) (w : CState) (micFrame speakerFrame : list Z)
  : option (option (list Z) * CState) :=
  if len_ne micFrame (aec_frameSize aec) || len_ne speakerFrame (aec_frameSize aec)
  then Some (None, w)
  else
    output ← Slice.make (aec_frameSize aec) 0%Z;
    _ ← Slice.addr0 micFrame;
    _ ← Slice.addr0 speakerFrame;
    _ ← Slice.addr0 output;
    let '(samples, w) := speex_echo_cancellation w (echoState aec) micFrame speakerFrame in
    let output := Slice.copy output samples in
    let '(samples, w) := speex_preprocess_run w (aec_preprocState aec) output in
    Some (Some (Slice.copy output samples), w).

(** [AEC.ProcessFrameEchoOnly] *)
Definition AEC_ProcessFrameEchoOnly (aec : AEC) (w : CState) (micFrame speakerFrame : list Z)
  : option (option (list Z) * CState) :=
  if len_ne micFrame (aec_frameSize aec) || len_ne speakerFrame (aec_frameSize aec)
  then Some (None, w)
  else
    output ← Slice.make (aec_frameSize aec) 0%Z;
    _ ← Slice.addr0 micFrame;
    _ ← Slice.addr0 speakerFrame;
    _ ← Slice.addr0 output;
    let '(samples, w) := speex_echo_cancellation w (echoState aec) micFrame speakerFrame in
    Some (Some (Slice.copy output samples), w).

(** [Preprocessor.ProcessFrame] *)
Definition Preprocessor_ProcessFrame (ns : Preprocessor) (w : CState) (inputFrame : list Z)
  : option (option (list Z) * CState) :=
  if len_ne inputFrame (frameSize ns) then Some (None, w)
  else
    output ← Slice.make (frameSize ns) 0%Z;
    let output := Slice.copy output inputFrame in
    _ ← Slice.addr0 output;
    let '(samples, w) := speex_preprocess_run w (preprocState ns) output in
    Some (Some (Slice.copy output samples), w).

End Engine.

(** ** The frame loop

    [Processor.processAudio] and [processAEC] declare the same local
    variables and run the same kind of loop; the state and the loop are
    written once, each function supplies its own loop body. *)

Record LoopState `{SpeexDSP} := {
  micFile : list Z;
  speakerFile : list Z;
  micAlawFrame : list Z;
  speakerAlawFrame : list Z;
  micPcmFrame : list Z;
  speakerPcmFrame : list Z;
  prevSpeakerPcmFrame : list Z;
  frameCount : nat;
  cstate : CState }.

(** How one pass through a loop body ends: at the bottom, at a [break],
    or at a [return] of the error of the frame with the given index. *)
Inductive StepResult `{SpeexDSP} :=
  | Continue (s : LoopState) (evs : list Event)
  | Break
  | Return (frame : nat) (e : FrameError) (evs : list Event).

(** [for { body }]: the outcome and everything that happened, in order.
    A body that panics is [None]; what a pass did before it panicked is
    not recorded, so the trace of a run that panics lists the passes
    completed before. *)
Fixpoint forLoop `{SpeexDSP} (body : LoopState -> option StepResult)
    (fuel : nat) (s : LoopState) : Outcome * list Event :=
  match fuel with
  | O => (OutOfFuel, [])
  | S fuel' =>
      match body s with
      | None => (Panicked, [])
      | Some Break => (Finished, [])
      | Some (Return frame e evs) => (Failed frame e, evs)
      | Some (Continue s' evs) =>
          let '(o, tr) := forLoop body fuel' s' in (o, evs ++ tr)
      end
  end.

(** [if bytesRead < size { for i := bytesRead; i < size; i++ { frame[i] = 0xD5 } }],
    the padding of a short frame with A-law silence. *)
Definition padFrame (frame : list Z) (bytesRead : nat) (size : Z) : option (list Z) :=
  if (Z.of_nat bytesRead <? size)%Z
  then Slice.fill (Z.to_nat size - bytesRead) bytesRead 213%Z frame
  else Some frame.

(** The buffers both functions allocate before the loop; the previous
    speaker frame exists only with delay compensation and starts silent. *)
Definition initState `{SpeexDSP} (size : Z) (usePrev : bool)
    (micFile speakerFile : list Z) (w : CState) : option LoopState :=
  micAlawFrame ← Slice.make size 0%Z;
  speakerAlawFrame ← Slice.make size 0%Z;
  micPcmFrame ← Slice.make size 0%Z;
  speakerPcmFrame ← Slice.make size 0%Z;
  prevSpeakerPcmFrame ← (if usePrev then Slice.make size 0%Z else Some []);
  Some {| micFile := micFile;
          speakerFile := speakerFile;
          micAlawFrame := micAlawFrame;
          speakerAlawFrame := speakerAlawFrame;
          micPcmFrame := micPcmFrame;
          speakerPcmFrame := speakerPcmFrame;
          prevSpeakerPcmFrame := prevSpeakerPcmFrame;
          frameCount := 0;
          cstate := w |}.

(** ** [Processor]: the frame loop of package processor *)
Module Processor.
Section Processor.
Context `{Codec} `{SpeexDSP}.

(** [getAECSpeakerFrame] *)
Definition getAECSpeakerFrame (config : Config) (speakerPcmFrame prevSpeakerPcmFrame : list Z)
  : list Z :=
  if UsePrevSpeaker config then prevSpeakerPcmFrame else speakerPcmFrame.

(** [zeroPadFrames] *)
Definition zeroPadFrames (config : Config) (micAlawFrame : list Z) (micBytesRead : nat)
    (speakerAlawFrame : list Z) (speakerBytesRead : nat) : option (list Z * list Z) :=
  micAlawFrame ← padFrame micAlawFrame micBytesRead (FrameSize config);
  speakerAlawFrame ←
    (if needsSpeakerFile config
     then padFrame speakerAlawFrame speakerBytesRead (FrameSize config)
     else Some speakerAlawFrame);
  Some (micAlawFrame, speakerAlawFrame).

(** The tail shared by every branch of [processFrame]: allocate the output
    frame and encode into it. *)
Definition encodeFrame (config : Config) (outputPcmFrame : list Z) : option (list Z) :=
  outputAlawFrame ← Slice.make (FrameSize config) 0%Z;
  PCM16BufferToAlaw outputPcmFrame outputAlawFrame.

(** [processFrame]: [None] is a panic (a [nil] engine, a bad allocation);
    otherwise the error or the output frame, the C state and the calls
    made.  The [default] branch of the Go switch has no mode to match. *)
Definition processFrame (config : Config) (w : CState)
    (micPcmFrame speakerPcmFrame prevSpeakerPcmFrame : list Z)
    (aec : option AEC) (separateNS : option Preprocessor)
  : option ((FrameError + list Z) * CState * list Event) :=
  match Mode config with
  | ModeBypass =>
      outputAlawFrame ← encodeFrame config micPcmFrame;
      Some (inr outputAlawFrame, w, [EvEncode micPcmFrame])
  | ModeTestAlaw =>
      outputAlawFrame ← encodeFrame config micPcmFrame;
      Some (inr outputAlawFrame, w, [EvEncode micPcmFrame])
  | ModeNSOnly =>
      ns ← separateNS;
      '(outputPcmFrame, w) ← Preprocessor_ProcessFrame ns w micPcmFrame;
      match outputPcmFrame with
      | None => Some (inl NSFailed, w, [EvNS micPcmFrame])
      | Some outputPcmFrame =>
          outputAlawFrame ← encodeFrame config outputPcmFrame;
          Some (inr outputAlawFrame, w, [EvNS micPcmFrame; EvEncode outputPcmFrame])
      end
  | ModeAECOnly =>
      let aecSpeakerFrame := getAECSpeakerFrame config speakerPcmFrame prevSpeakerPcmFrame in
      a ← aec;
      '(outputPcmFrame, w) ← AEC_ProcessFrameEchoOnly a w micPcmFrame aecSpeakerFrame;
      match outputPcmFrame with
      | None => Some (inl AECFailed, w, [EvEchoOnly micPcmFrame aecSpeakerFrame])
      | Some outputPcmFrame =>
          outputAlawFrame ← encodeFrame config outputPcmFrame;
          Some (inr outputAlawFrame, w,
                [EvEchoOnly micPcmFrame aecSpeakerFrame; EvEncode outputPcmFrame])
      end
  | ModeNSFirst =>
      ns ← separateNS;
      '(nsOutput, w) ← Preprocessor_ProcessFrame ns w micPcmFrame;
      match nsOutput with
      | None => Some (inl NSFailed, w, [EvNS micPcmFrame])
      | Some nsOutput =>
          let aecSpeakerFrame :=
            getAECSpeakerFrame config speakerPcmFrame prevSpeakerPcmFrame in
          a ← aec;
          '(outputPcmFrame, w) ← AEC_ProcessFrameEchoOnly a w nsOutput aecSpeakerFrame;
          match outputPcmFrame with
          | None =>
              Some (inl AECFailed, w, [EvNS micPcmFrame; EvEchoOnly nsOutput aecSpeakerFrame])
          | Some outputPcmFrame =>
              outputAlawFrame ← encodeFrame config outputPcmFrame;
              Some (inr outputAlawFrame, w,
                    [EvNS micPcmFrame; EvEchoOnly nsOutput aecSpeakerFrame;
                     EvEncode outputPcmFrame])
          end
      end
  | ModeAECFirst =>
      let aecSpeakerFrame := getAECSpeakerFrame config speakerPcmFrame prevSpeakerPcmFrame in
      a ← aec;
      '(outputPcmFrame, w) ← AEC_ProcessFrame a w micPcmFrame aecSpeakerFrame;
      match outputPcmFrame with
      | None => Some (inl AECFailed, w, [EvEchoNS micPcmFrame aecSpeakerFrame])
      | Some outputPcmFrame =>
          outputAlawFrame ← encodeFrame config outputPcmFrame;
          Some (inr outputAlawFrame, w,
                [EvEchoNS micPcmFrame aecSpeakerFrame; EvEncode outputPcmFrame])
      end
  end.

(** One pass through the body of the [for] loop of [processAudio]
    ([logProgress] only prints and is left out). *)
Definition step (config : Config) (aec : option AEC) (separateNS : option Preprocessor)
    (s : LoopState) : option StepResult :=
  let rm := ReadFull (micFile s) (micAlawFrame s) in
  if is_EOF (rr_err rm) then Some Break else
  let rs := if needsSpeakerFile config
            then ReadFull (speakerFile s) (speakerAlawFrame s)
            else NoRead (speakerFile s) (speakerAlawFrame s) in
  if needsSpeakerFile config && is_EOF (rr_err rs) then Some Break else
  '(micAlaw, speakerAlaw) ←
    zeroPadFrames config (rr_buf rm) (rr_n rm) (rr_buf rs) (rr_n rs);
  micPcm ← AlawBufferToPCM16 micAlaw (micPcmFrame s);
  speakerPcm ←
    (if needsSpeakerFile config
     then AlawBufferToPCM16 speakerAlaw (speakerPcmFrame s)
     else Some (speakerPcmFrame s));
  let decoded :=
    EvDecode micAlaw :: (if needsSpeakerFile config then [EvDecode speakerAlaw] else []) in
  '(r, w, evs) ←
    processFrame config (cstate s) micPcm speakerPcm (prevSpeakerPcmFrame s) aec separateNS;
  match r with
  | inl e => Some (Return (frameCount s) e (decoded ++ evs))
  | inr outputAlawFrame =>
      let prev :=
        if UsePrevSpeaker config && needsSpeakerFile config
        then Slice.copy (prevSpeakerPcmFrame s) speakerPcm
        else prevSpeakerPcmFrame s in
      Some (Continue
              {| micFile := rr_rest rm;
                 speakerFile := rr_rest rs;
                 micAlawFrame := micAlaw;
                 speakerAlawFrame := speakerAlaw;
                 micPcmFrame := micPcm;
                 speakerPcmFrame := speakerPcm;
                 prevSpeakerPcmFrame := prev;
                 frameCount := S (frameCount s);
                 cstate := w |}
              (decoded ++ evs ++ [EvWrite outputAlawFrame]))
  end.

(** [processAudio] on a microphone file and a speaker file given by their
    bytes.  Every pass over a positive frame size consumes microphone
    bytes, so [S (length micFile)] passes are enough. *)
Definition processAudio (config : Config) (micFile speakerFile : list Z)
    (aec : option AEC) (separateNS : option Preprocessor) (w : CState)
  : Outcome * list Event :=
  match initState (FrameSize config) (UsePrevSpeaker config) micFile speakerFile w with
  | None => (Panicked, [])
  | Some s => forLoop (step config aec separateNS) (S (length micFile)) s
  end.

End Processor.
End Processor.

(** ** [processAEC]: the frame loop of package main *)
Module Main.
Section Main.
Context `{Codec} `{SpeexDSP}.

(** The parameters of [processAEC] that the loop reads. *)
Record Flags := {
  usePrevSpeaker : bool;
  nsFirst : bool;
  nsOnly : bool;
  aecOnly : bool;
  bypass : bool;
  sampleRate : Z;
  frameSize : Z;
  filterLen : Z }.


(** [!nsOnly && !bypass], the guard of every speaker-file action. *)
Definition speakerNeeded (f : Flags) : bool := negb (nsOnly f) && negb (bypass f).

(** The mode dispatch for the non-bypass modes: the error or the PCM
    output, the C state and the engine calls made. *)
Definition processPcm (f : Flags) (w : CState) (micPcmFrame aecSpeakerFrame : list Z)
    (aec : option AEC) (separateNS : option Preprocessor)
  : option ((FrameError + list Z) * CState * list Event) :=
  if nsOnly f then
    ns ← separateNS;
    '(outputPcmFrame, w) ← Preprocessor_ProcessFrame ns w micPcmFrame;
    match outputPcmFrame with
    | None => Some (inl NSFailed, w, [EvNS micPcmFrame])
    | Some outputPcmFrame => Some (inr outputPcmFrame, w, [EvNS micPcmFrame])
    end
  else if aecOnly f then
    a ← aec;
    '(outputPcmFrame, w) ← AEC_ProcessFrameEchoOnly a w micPcmFrame aecSpeakerFrame;
    match outputPcmFrame with
    | None => Some (inl AECFailed, w, [EvEchoOnly micPcmFrame aecSpeakerFrame])
    | Some outputPcmFrame =>
        Some (inr outputPcmFrame, w, [EvEchoOnly micPcmFrame aecSpeakerFrame])
    end
  else if nsFirst f then
    ns ← separateNS;
    '(nsOutput, w) ← Preprocessor_ProcessFrame ns w micPcmFrame;
    match nsOutput with
    | None => Some (inl NSFailed, w, [EvNS micPcmFrame])
    | Some nsOutput =>
        a ← aec;
        '(outputPcmFrame, w) ← AEC_ProcessFrameEchoOnly a w nsOutput aecSpeakerFrame;
        match outputPcmFrame with
        | None =>
            Some (inl AECFailed, w, [EvNS micPcmFrame; EvEchoOnly nsOutput aecSpeakerFrame])
        | Some outputPcmFrame =>
            Some (inr outputPcmFrame, w,
                  [EvNS micPcmFrame; EvEchoOnly nsOutput aecSpeakerFrame])
        end
    end
  else
    a ← aec;
    '(outputPcmFrame, w) ← AEC_ProcessFrame a w micPcmFrame aecSpeakerFrame;
    match outputPcmFrame with
    | None => Some (inl AECFailed, w, [EvEchoNS micPcmFrame aecSpeakerFrame])
    | Some outputPcmFrame =>
        Some (inr outputPcmFrame, w, [EvEchoNS micPcmFrame aecSpeakerFrame])
    end.

(** One pass through the body of the main processing loop (the progress
    report only prints and is left out). *)
Definition step (f : Flags) (aec : option AEC) (separateNS : option Preprocessor)
    (s : LoopState) : option StepResult :=
  let rm := ReadFull (micFile s) (micAlawFrame s) in
  if is_EOF (rr_err rm) then Some Break else
  let rs := if speakerNeeded f
            then ReadFull (speakerFile s) (speakerAlawFrame s)
            else NoRead (speakerFile s) (speakerAlawFrame s) in
  if speakerNeeded f && is_EOF (rr_err rs) then Some Break else
  micAlaw ← padFrame (rr_buf rm) (rr_n rm) (frameSize f);
  speakerAlaw ←
    (if speakerNeeded f then padFrame (rr_buf rs) (rr_n rs) (frameSize f)
     else Some (rr_buf rs));
  micPcm ← AlawBufferToPCM16 micAlaw (micPcmFrame s);
  speakerPcm ←
    (if speakerNeeded f then AlawBufferToPCM16 speakerAlaw (speakerPcmFrame s)
     else Some (speakerPcmFrame s));
  let decoded :=
    EvDecode micAlaw :: (if speakerNeeded f then [EvDecode speakerAlaw] else []) in
  let aecSpeakerFrame :=
    if usePrevSpeaker f then prevSpeakerPcmFrame s else speakerPcm in
  '(r, w, evs) ←
    (if bypass f then
       outputAlawFrame ← Slice.make (frameSize f) 0%Z;
       Some (inr (Slice.copy outputAlawFrame micAlaw), cstate s, [])
     else
       '(r, w, evs) ← processPcm f (cstate s) micPcm aecSpeakerFrame aec separateNS;
       match r with
       | inl e => Some (inl e, w, evs)
       | inr outputPcmFrame =>
           outputAlawFrame ← Slice.make (frameSize f) 0%Z;
           outputAlawFrame ← PCM16BufferToAlaw outputPcmFrame outputAlawFrame;
           Some (inr outputAlawFrame, w, evs ++ [EvEncode outputPcmFrame])
       end);
  match r with
  | inl e => Some (Return (frameCount s) e (decoded ++ evs))
  | inr outputAlawFrame =>
      let prev :=
        if usePrevSpeaker f && negb (bypass f)
        then Slice.copy (prevSpeakerPcmFrame s) speakerPcm
        else prevSpeakerPcmFrame s in
      Some (Continue
              {| micFile := rr_rest rm;
                 speakerFile := rr_rest rs;
                 micAlawFrame := micAlaw;
                 speakerAlawFrame := speakerAlaw;
                 micPcmFrame := micPcm;
                 speakerPcmFrame := speakerPcm;
                 prevSpeakerPcmFrame := prev;
                 frameCount := S (frameCount s);
                 cstate := w |}
              (decoded ++ evs ++ [EvWrite outputAlawFrame]))
  end.

(** The frame loop of [processAEC], from the buffers on, with the engine
    instances it created handed in. *)
Definition processAEC (f : Flags) (micFile speakerFile : list Z)
    (aec : option AEC) (separateNS : option Preprocessor) (w : CState)
  : Outcome * list Event :=
  match initState (frameSize f) (usePrevSpeaker f) micFile speakerFile w with
  | None => (Panicked, [])
  | Some s => forLoop (step f aec separateNS) (S (length micFile)) s
  end.

End Main.
End Main.

(** ** Reading a trace *)

(** The frames written to the output file, in order. *)
Definition writes (tr : list Event) : list (list Z) :=
  omap (fun e => match e with EvWrite fr => Some fr | _ => None end) tr.

(** The bytes of the output file. *)
Definition output (tr : list Event) : list Z := concat (writes tr).

(** The far-end frame of every engine call that takes one, in order. *)
Definition farEndFrames (tr : list Event) : list (list Z) :=
  omap (fun e => match e with
                 | EvEchoOnly _ spk | EvEchoNS _ spk => Some spk
                 | _ => None
                 end) tr.

(** The compressed frames handed to [AlawBufferToPCM16], in order. *)
Definition decodes (tr : list Event) : list (list Z) :=
  omap (fun e => match e with EvDecode fr => Some fr | _ => None end) tr.

(** The linear frames handed to [PCM16BufferToAlaw], in order. *)
Definition encodes (tr : list Event) : list (list Z) :=
  omap (fun e => match e with EvEncode fr => Some fr | _ => None end) tr.

(** The [k]-th frame of a stream cut into frames of [n] bytes, the last
    one filled up with the silence byte. *)
Definition frameAt (n : nat) (stream : list Z) (k : nat) : list Z :=
  let chunk := take n (drop (k * n) stream) in
  chunk ++ replicate (n - length chunk) 213%Z.

(** The number of frames of a stream: [ceil(length / n)]. *)
Definition frameTotal (n : nat) (stream : list Z) : nat :=
  (length stream + n - 1) / n.

(** All frames of a stream. *)
Definition frames (n : nat) (stream : list Z) : list (list Z) :=
  frameAt n stream <$> seq 0 (frameTotal n stream).

(** What [initializeComponents] leaves behind when it succeeds: the
    instances the mode uses exist, and each stores the frame size it was
    created with ([NewAEC] and [NewPreprocessorWithConfig] are called with
    [p.config.FrameSize] and keep it in their [frameSize] field). *)
Definition aecReady `{SpeexDSP} (size : Z) (aec : option AEC) : bool :=
  match aec with Some a => (aec_frameSize a =? size)%Z | None => false end.

Definition nsReady `{SpeexDSP} (size : Z) (ns : option Preprocessor) : bool :=
  match ns with Some p => (frameSize p =? size)%Z | None => false end.

Definition componentsReady `{SpeexDSP} (config : Config)
    (aec : option AEC) (separateNS : option Preprocessor) : bool :=
  match Mode config with
  | ModeBypass | ModeTestAlaw => true
  | ModeNSOnly => nsReady (FrameSize config) separateNS
  | ModeAECOnly | ModeAECFirst => aecReady (FrameSize config) aec
  | ModeNSFirst => aecReady (FrameSize config) aec && nsReady (FrameSize config) separateNS
  end.

(** The same for the set-up at the head of [processAEC]. *)
Definition mainReady `{SpeexDSP} (f : Main.Flags)
    (aec : option AEC) (separateNS : option Preprocessor) : bool :=
  if Main.bypass f then true
  else if Main.nsOnly f then nsReady (Main.frameSize f) separateNS
  else if Main.aecOnly f then aecReady (Main.frameSize f) aec
  else if Main.nsFirst f
       then aecReady (Main.frameSize f) aec && nsReady (Main.frameSize f) separateNS
  else aecReady (Main.frameSize f) aec.

(** ** Loop invariant and the effect of one pass *)

(** The frame buffers keep the configured size. *)
Definition Sized `{SpeexDSP} (n : nat) (usePrev : bool) (s : LoopState) : Prop :=
  length (micAlawFrame s) = n ∧
  length (speakerAlawFrame s) = n ∧
  length (micPcmFrame s) = n ∧
  length (speakerPcmFrame s) = n ∧
  (usePrev = true → length (prevSpeakerPcmFrame s) = n).

(** The loop leaves through a [break] at this state: the microphone file
    is exhausted, or the speaker file is needed and exhausted. *)
Definition stops `{SpeexDSP} (needs : bool) (s : LoopState) : bool :=
  match micFile s with
  | [] => true
  | _ :: _ => needs && match speakerFile s with [] => true | _ :: _ => false end
  end.

(** The number of passes before the loop leaves. *)
Definition passes `{SpeexDSP} (n : nat) (needs : bool) (s : LoopState) : nat :=
  if needs then Nat.min (frameTotal n (micFile s)) (frameTotal n (speakerFile s))
  else frameTotal n (micFile s).

(** What a pass that reaches the bottom of the loop body does, with
    [needs] the speaker file being in use, [retain] the previous speaker
    frame being updated and [usePrev] delay compensation being on. *)
Definition PassFacts `{Codec} `{SpeexDSP} (n : nat) (needs retain usePrev : bool)
    (s s' : LoopState) (evs : list Event) : Prop :=
  micFile s' = drop n (micFile s) ∧
  speakerFile s' = (if needs then drop n (speakerFile s) else speakerFile s) ∧
  speakerPcmFrame s' =
    (if needs then AlawToPCM16 <$> frameAt n (speakerFile s) 0 else speakerPcmFrame s) ∧
  prevSpeakerPcmFrame s' =
    (if retain then speakerPcmFrame s' else prevSpeakerPcmFrame s) ∧
  frameCount s' = S (frameCount s) ∧
  decodes evs =
    frameAt n (micFile s) 0 :: (if needs then [frameAt n (speakerFile s) 0] else []) ∧
  (∃ fr, writes evs = [fr] ∧ length fr = n) ∧
  farEndFrames evs =
    (if needs
     then [if usePrev then prevSpeakerPcmFrame s else speakerPcmFrame s']
     else []).

(** The events of a pass of [Processor] in a mode without engine (bypass,
    test-alaw): decode, encode, write. *)
Definition plainPass `{Codec} (n : nat) (mic : list Z) : list Event :=
  [EvDecode (frameAt n mic 0);
   EvEncode (AlawToPCM16 <$> frameAt n mic 0);
   EvWrite (PCM16ToAlaw <$> (AlawToPCM16 <$> frameAt n mic 0))].

(** The events of a pass of [processAEC] with [bypass]: the decode that
    precedes the mode dispatch, and the write of the copied frame. *)
Definition copyPass (n : nat) (mic : list Z) : list Event :=
  [EvDecode (frameAt n mic 0); EvWrite (frameAt n mic 0)].

(** ** Concrete runs *)

(** A toy engine to run the loops on: the echo canceller subtracts the
    far end, the preprocessor halves the samples, and the C state counts
    the calls. *)
Definition ToyDSP : SpeexDSP :=
  {| CState := nat;
     Handle := unit;
     speex_echo_cancellation w _ mic spk := (zip_with Z.sub mic spk, S w);
     speex_preprocess_run w _ buf := ((fun x => Z.div x 2) <$> buf, S w) |}.

Definition toyAEC (size : Z) : option (@AEC ToyDSP) :=
  Some (@Build_AEC ToyDSP tt tt size 3200%Z).

Definition toyNS (size : Z) : option (@Preprocessor ToyDSP) :=
  Some (@Build_Preprocessor ToyDSP tt size).

Definition exampleConfig (mode : ProcessingMode) (size : Z) (usePrev : bool) : Config :=
  {| MicFile := "mic.alaw"; SpeakerFile := "speaker.alaw"; Mode := mode;
     SampleRate := 16000%Z; FrameSize := size; FilterLen := 3200%Z;
     UsePrevSpeaker := usePrev |}.

Definition exampleFlags (bypass nsOnly aecOnly usePrev : bool) (size : Z) : Main.Flags :=
  {| Main.usePrevSpeaker := usePrev; Main.nsFirst := false; Main.nsOnly := nsOnly;
     Main.aecOnly := aecOnly; Main.bypass := bypass;
     Main.sampleRate := 16000%Z; Main.frameSize := size; Main.filterLen := 3200%Z |}.

(** * More of the code *)

(** ** Exhaustive checks over [int16] *)

Definition is_int16 (x : Z) : Prop := (-32768 <= x < 32768)%Z.

(** The [p] consecutive integers from [start] on. *)
Fixpoint range_from (p : positive) (start : Z) : list Z :=
  match p with
  | xH => [start]
  | xO q => range_from q start ++ range_from q (start + Z.pos q)
  | xI q => start :: range_from q (start + 1) ++ range_from q (start + 1 + Z.pos q)
  end.

(** Every [int16] value. *)
Definition all_int16 : list Z := range_from 65536 (-32768).

(** ** Package types and package config *)

(** [ProcessingMode.String]; the [default] branch has no mode to match. *)
Definition ProcessingMode_String (m : ProcessingMode) : string :=
  match m with
  | ModeBypass => "BYPASS"
  | ModeTestAlaw => "A-LAW-TEST"
  | ModeNSOnly => "NS-only"
  | ModeAECOnly => "AEC-only"
  | ModeNSFirst => "NS-first"
  | ModeAECFirst => "AEC-first"
  end.

(** Conversion to a 64-bit [int]. *)
Definition to_int64 (x : Z) : Z :=
  ((x + 9223372036854775808) mod 18446744073709551616 - 9223372036854775808)%Z.

(** [DefaultConfig], for the fields of [Config] kept here. *)
Definition DefaultConfig : Config :=
  {| MicFile := ""; SpeakerFile := ""; Mode := ModeAECFirst;
     SampleRate := 16000%Z; FrameSize := 320%Z; FilterLen := 0%Z;
     UsePrevSpeaker := false |}.

Module ConfigPkg.

(** The values of the command-line flags after [flag.Parse], for the
    flags that reach the fields of [Config] kept here. *)
Record FlagValues := {
  micFile : string;
  speakerFile : string;
  usePrevSpeaker : bool;
  nsFirst : bool;
  nsOnly : bool;
  aecOnly : bool;
  bypass : bool;
  testAlaw : bool;
  sampleRate : Z;
  frameSize : Z;
  echoTailMs : Z;
  filterLenIn : Z;
  help : bool }.

Inductive ParseError := ErrMutuallyExclusive | ErrMissingParameters.

(** [ParseFlags] from [flag.Parse] on: the mode flags are looked at in
    turn, each one counted and overriding the mode; then the exclusivity
    check, the filter length and [validateConfig]. *)
Definition ParseFlags (fv : FlagValues) : ParseError + Config :=
  let '(exclusiveCount, mode) := (0, Mode DefaultConfig) in
  let '(exclusiveCount, mode) :=
    if nsFirst fv then (S exclusiveCount, ModeNSFirst) else (exclusiveCount, mode) in
  let '(exclusiveCount, mode) :=
    if nsOnly fv then (S exclusiveCount, ModeNSOnly) else (exclusiveCount, mode) in
  let '(exclusiveCount, mode) :=
    if aecOnly fv then (S exclusiveCount, ModeAECOnly) else (exclusiveCount, mode) in
  let '(exclusiveCount, mode) :=
    if bypass fv then (S exclusiveCount, ModeBypass) else (exclusiveCount, mode) in
  let '(exclusiveCount, mode) :=
    if testAlaw fv then (S exclusiveCount, ModeTestAlaw) else (exclusiveCount, mode) in
  if 1 <? exclusiveCount then inl ErrMutuallyExclusive
  else
    let filterLen :=
      if (filterLenIn fv <=? 0)%Z
      then Z.quot (to_int64 (sampleRate fv * echoTailMs fv)) 1000
      else filterLenIn fv in
    let config :=
      {| MicFile := micFile fv; SpeakerFile := speakerFile fv; Mode := mode;
         SampleRate := sampleRate fv; FrameSize := frameSize fv;
         FilterLen := filterLen; UsePrevSpeaker := usePrevSpeaker fv |} in
    if validateConfig config (help fv) then inl ErrMissingParameters
    else inr config.

(** How many of the five mode flags are set. *)
Definition modeFlagsSet (fv : FlagValues) : nat :=
  Nat.b2n (nsFirst fv) + Nat.b2n (nsOnly fv) + Nat.b2n (aecOnly fv)
  + Nat.b2n (bypass fv) + Nat.b2n (testAlaw fv).

End ConfigPkg.


(** ** Creating and releasing the engine ([NewAEC],
    [NewPreprocessorWithConfig], [Destroy]) *)

(** Conversion to a C [int]. *)
Definition to_int32 (x : Z) : Z := ((x + 2147483648) mod 4294967296 - 2147483648)%Z.

(** The allocating side of the C library.  A constructor returns [None]
    for a [NULL] state.  The [speex_preprocess_ctl] calls that follow the
    creation of a preprocessor only change the C state and are one step
    each for the two wrappers; [NSConfig] (it carries floating-point
    fields) is kept abstract. *)
Class SpeexAlloc `{SpeexDSP} := {
  NSConfig : Type;
  speex_echo_state_init : CState -> Z -> Z -> option Handle * CState;
  speex_echo_set_sampling_rate : CState -> Handle -> Z -> CState;
  speex_preprocess_state_init : CState -> Z -> Z -> option Handle * CState;
  speex_preprocess_setup_aec : CState -> Handle -> Handle -> CState;
  speex_preprocess_setup_ns : CState -> Handle -> NSConfig -> CState;
  speex_echo_state_destroy : CState -> Handle -> CState;
  speex_preprocess_state_destroy : CState -> Handle -> CState }.

(** Creation and destruction of C states, as they happen. *)
Inductive Lifecycle `{SpeexDSP} :=
  | EchoCreated (h : Handle)
  | PreprocCreated (h : Handle)
  | EchoDestroyed (h : Handle)
  | PreprocDestroyed (h : Handle).

(** The three errors of the constructors. *)
Inductive NewError := InvalidParameters | EchoStateFailed | PreprocStateFailed.

Section Alloc.
Context `{SpeexAlloc}.

(** [NewAEC] *)
Definition NewAEC (frameSize filterLen sampleRate : Z) (w : CState)
  : (NewError + AEC) * CState * list Lifecycle :=
  if (frameSize <=? 0)%Z || (filterLen <=? 0)%Z || (sampleRate <=? 0)%Z
  then (inl InvalidParameters, w, [])
  else
    match speex_echo_state_init w (to_int32 frameSize) (to_int32 filterLen) with
    | (None, w) => (inl EchoStateFailed, w, [])
    | (Some echoState, w) =>
        let w := speex_echo_set_sampling_rate w echoState (to_int32 sampleRate) in
        match speex_preprocess_state_init w (to_int32 frameSize) (to_int32 sampleRate) with
        | (None, w) =>
            (inl PreprocStateFailed, speex_echo_state_destroy w echoState,
             [EchoCreated echoState; EchoDestroyed echoState])
        | (Some preprocState, w) =>
            let w := speex_preprocess_setup_aec w preprocState echoState in
            (inr {| echoState := echoState; aec_preprocState := preprocState;
                    aec_frameSize := frameSize; filterLen := filterLen |},
             w, [EchoCreated echoState; PreprocCreated preprocState])
        end
    end.

(** [NewPreprocessorWithConfig] *)
Definition NewPreprocessorWithConfig (frameSize sampleRate : Z) (config : NSConfig)
    (w : CState) : (NewError + Preprocessor) * CState * list Lifecycle :=
  if (frameSize <=? 0)%Z || (sampleRate <=? 0)%Z
  then (inl InvalidParameters, w, [])
  else
    match speex_preprocess_state_init w (to_int32 frameSize) (to_int32 sampleRate) with
    | (None, w) => (inl PreprocStateFailed, w, [])
    | (Some preprocState, w) =>
        let w := speex_preprocess_setup_ns w preprocState config in
        (inr {| preprocState := preprocState; frameSize := frameSize |},
         w, [PreprocCreated preprocState])
    end.

(** [AEC.Destroy]: the preprocessor state, then the echo state. *)
Definition AEC_Destroy (aec : AEC) : list Lifecycle :=
  [PreprocDestroyed (aec_preprocState aec); EchoDestroyed (echoState aec)].

(** [Preprocessor.Destroy] *)
Definition Preprocessor_Destroy (ns : Preprocessor) : list Lifecycle :=
  [PreprocDestroyed (preprocState ns)].

End Alloc.

(** ** [Processor.Process] *)

(** Which constructor call of [initializeComponents] failed, and how. *)
Inductive InitError :=
  | InitNSFailed (e : NewError)
  | InitAECFailed (e : NewError)
  | InitSeparateNSFailed (e : NewError).

Inductive ProcessError :=
  | OpenMicFailed
  | OpenSpeakerFailed
  | CreateOutputFailed
  | InitFailed (e : InitError)
  | FrameFailed (frame : nat) (e : FrameError).

(** [Process] returns an error or [nil], panics, or does not return. *)
Inductive ProcessResult :=
  | Returns (err : option ProcessError)
  | Panics
  | Diverges.

(** The files [Process] works on: the bytes of the two input files
    ([None] for a file that cannot be opened), whether the output file
    can be created, and whether the output path names the very file that
    the microphone path, or the speaker path, names.  [os.Create]
    truncates the file it names, so an input file that is also the output
    file is empty for every read that follows. *)
Record Files := {
  micBytes : option (list Z);
  speakerBytes : option (list Z);
  outputCreatable : bool;
  outputIsMic : bool;
  outputIsSpeaker : bool }.

(** What a call of [Process] leaves behind: its result, the output file
    ([None] when it was not created), the trace of the loop and the
    creations and destructions of C states. *)
Record ProcessRun `{SpeexDSP} := {
  result : ProcessResult;
  outputFile : option (list Z);
  trace : list Event;
  lifecycle : list Lifecycle }.

Module ProcessorSetup.
Section ProcessorSetup.
Context `{Codec} `{SpeexAlloc}.

(** [initializeComponents]; [nsConfig] is [p.config.NS]. *)
Definition initializeComponents (config : Config) (nsConfig : NSConfig) (w : CState)
  : (InitError + (option AEC * option Preprocessor)) * CState * list Lifecycle :=
  match Mode config with
  | ModeBypass | ModeTestAlaw => (inr (None, None), w, [])
  | ModeNSOnly =>
      match NewPreprocessorWithConfig (FrameSize config) (SampleRate config) nsConfig w with
      | (inl e, w, lc) => (inl (InitNSFailed e), w, lc)
      | (inr ns, w, lc) => (inr (None, Some ns), w, lc)
      end
  | ModeAECOnly | ModeAECFirst =>
      match NewAEC (FrameSize config) (FilterLen config) (SampleRate config) w with
      | (inl e, w, lc) => (inl (InitAECFailed e), w, lc)
      | (inr aec, w, lc) => (inr (Some aec, None), w, lc)
      end
  | ModeNSFirst =>
      match NewAEC (FrameSize config) (FilterLen config) (SampleRate config) w with
      | (inl e, w, lc) => (inl (InitAECFailed e), w, lc)
      | (inr aec, w, lc) =>
          match NewPreprocessorWithConfig (FrameSize config) (SampleRate config)
                  nsConfig w with
          | (inl e, w, lc') => (inl (InitSeparateNSFailed e), w, lc ++ lc')
          | (inr ns, w, lc') => (inr (Some aec, Some ns), w, lc ++ lc')
          end
      end
  end.

(** The deferred [Destroy] calls of [Process], in the order in which they
    run: last deferred, first run. *)
Definition deferredDestroys (aec : option AEC) (separateNS : option Preprocessor)
  : list Lifecycle :=
  match separateNS with Some ns => Preprocessor_Destroy ns | None => [] end
  ++ match aec with Some a => AEC_Destroy a | None => [] end.

(** [Process]: open the files, create the output (which empties an input
    file of the same name, already open), set up the engine, run
    [processAudio].  The [Destroy] calls are deferred only after
    [initializeComponents] has returned without error. *)
Definition Process (config : Config) (nsConfig : NSConfig) (files : Files) (w : CState)
  : ProcessRun :=
  match micBytes files with
  | None =>
      {| result := Returns (Some OpenMicFailed); outputFile := None;
         trace := []; lifecycle := [] |}
  | Some mic =>
      match (if needsSpeakerFile config then speakerBytes files else Some []) with
      | None =>
          {| result := Returns (Some OpenSpeakerFailed); outputFile := None;
             trace := []; lifecycle := [] |}
      | Some spk =>
          if negb (outputCreatable files) then
            {| result := Returns (Some CreateOutputFailed); outputFile := None;
               trace := []; lifecycle := [] |}
          else
            let mic := if outputIsMic files then [] else mic in
            let spk := if outputIsSpeaker files then [] else spk in
            match initializeComponents config nsConfig w with
            | (inl e, _, lc) =>
                {| result := Returns (Some (InitFailed e)); outputFile := Some [];
                   trace := []; lifecycle := lc |}
            | (inr (aec, separateNS), w, lc) =>
                let '(o, tr) := Processor.processAudio config mic spk aec separateNS w in
                {| result :=
                     match o with
                     | Finished => Returns None
                     | Failed frame e => Returns (Some (FrameFailed frame e))
                     | Panicked => Panics
                     | OutOfFuel => Diverges
                     end;
                   outputFile := Some (output tr);
                   trace := tr;
                   lifecycle :=
                     lc ++ match o with
                           | OutOfFuel => []
                           | _ => deferredDestroys aec separateNS
                           end |}
            end
      end
  end.

End ProcessorSetup.
End ProcessorSetup.

(** The C states created and the C states destroyed, in order. *)
Definition acquired `{SpeexDSP} (lc : list Lifecycle) : list (Handle + Handle) :=
  omap (fun e => match e with
                 | EchoCreated h => Some (inl h)
                 | PreprocCreated h => Some (inr h)
                 | _ => None
                 end) lc.

Definition released `{SpeexDSP} (lc : list Lifecycle) : list (Handle + Handle) :=
  omap (fun e => match e with
                 | EchoDestroyed h => Some (inl h)
                 | PreprocDestroyed h => Some (inr h)
                 | _ => None
                 end) lc.

(** Engine modes, and the modes with an echo canceller. *)
Definition usesEngine (m : ProcessingMode) : bool :=
  match m with ModeBypass | ModeTestAlaw => false | _ => true end.

Definition usesAEC (m : ProcessingMode) : bool :=
  match m with ModeAECOnly | ModeNSFirst | ModeAECFirst => true | _ => false end.

(** A toy allocator on top of [ToyDSP]: every creation adds ten to the
    counter that is the C state; with a limit, the preprocessor cannot be
    created once the counter has reached it. *)
Definition ToyAlloc (limit : option nat) : @SpeexAlloc ToyDSP :=
  {| NSConfig := unit;
     speex_echo_state_init := fun (w : @CState ToyDSP) _ _ => (Some tt, 10 + w);
     speex_echo_set_sampling_rate := fun w _ _ => w;
     speex_preprocess_state_init :=
       fun (w : @CState ToyDSP) _ _ =>
         match limit with
         | Some l => if w <? l then (Some tt, 10 + w) else (None, w)
         | None => (Some tt, 10 + w)
         end;
     speex_preprocess_setup_aec := fun w _ _ => w;
     speex_preprocess_setup_ns := fun w _ _ => w;
     speex_echo_state_destroy := fun w _ => w;
     speex_preprocess_state_destroy := fun w _ => w |}.

Definition exampleFiles (mic : list Z) (spk : option (list Z)) : Files :=
  {| micBytes := Some mic; speakerBytes := spk; outputCreatable := true;
     outputIsMic := false; outputIsSpeaker := false |}.

(** The same files with the output path naming the microphone file. *)
Definition overwritingFiles (mic : list Z) (spk : option (list Z)) : Files :=
  {| micBytes := Some mic; speakerBytes := spk; outputCreatable := true;
     outputIsMic := true; outputIsSpeaker := false |}.

(** ** The noise suppressor along a run *)

(** The frames handed to [Preprocessor.ProcessFrame], in order. *)
Definition nsInputs (tr : list Event) : list (list Z) :=
  omap (fun e => match e with EvNS fr => Some fr | _ => None end) tr.

(** What [Preprocessor.ProcessFrame] returns on the frames of a list, one
    call after the other, the C state going from each call to the next. *)
Fixpoint nsOutputs `{SpeexDSP} (p : Preprocessor) (w : CState) (frames : list (list Z))
  : list (list Z) :=
  match frames with
  | [] => []
  | fr :: rest =>
      match Preprocessor_ProcessFrame p w fr with
      | Some (Some out, w') => out :: nsOutputs p w' rest
      | _ => []
      end
  end.

(** ** The two loops side by side *)

(** The mode that the flags of [processAEC] select: [bypass] is looked at
    first, then [nsOnly], [aecOnly] and [nsFirst]; there is no test-alaw
    mode in [processAEC]. *)
Definition flagsSelect (f : Main.Flags) (m : ProcessingMode) : bool :=
  match m with
  | ModeBypass => Main.bypass f
  | ModeTestAlaw => false
  | ModeNSOnly => negb (Main.bypass f) && Main.nsOnly f
  | ModeAECOnly => negb (Main.bypass f) && negb (Main.nsOnly f) && Main.aecOnly f
  | ModeNSFirst =>
      negb (Main.bypass f) && negb (Main.nsOnly f) && negb (Main.aecOnly f)
      && Main.nsFirst f
  | ModeAECFirst =>
      negb (Main.bypass f) && negb (Main.nsOnly f) && negb (Main.aecOnly f)
      && negb (Main.nsFirst f)
  end.

(** The three events of a pass of [Processor] over frames of no bytes. *)
Definition emptyPass : list Event := [EvDecode []; EvEncode []; EvWrite []].

(** A trace with the content of what was written left out: a write is
    replaced by a write of as many zero bytes. *)
Definition forgetWritten (e : Event) : Event :=
  match e with
  | EvWrite fr => EvWrite (replicate (length fr) 0%Z)
  | _ => e
  end.

(** Two passes that end the same way, in the same state and with the same
    events, up to the content of what was written. *)
Definition samePass `{SpeexDSP} (r1 r2 : option StepResult) : Prop :=
  match r1, r2 with
  | None, None => True
  | Some Break, Some Break => True
  | Some (Return fr1 e1 evs1), Some (Return fr2 e2 evs2) =>
      fr1 = fr2 ∧ e1 = e2 ∧ evs1 = evs2
  | Some (Continue s1 evs1), Some (Continue s2 evs2) =>
      s1 = s2 ∧ forgetWritten <$> evs1 = forgetWritten <$> evs2
  | _, _ => False
  end.

(** The files and the compressed frame buffers of a loop state hold
    bytes. *)
Definition byteState `{SpeexDSP} (s : LoopState) : Prop :=
  Forall is_uint8 (micFile s) ∧ Forall is_uint8 (speakerFile s) ∧
  Forall is_uint8 (micAlawFrame s) ∧ Forall is_uint8 (speakerAlawFrame s).
(** * Properties *)

(** ** Slices and buffer conversion *)

Lemma store_Some {A} (s : list A) i v :
  i < length s → Slice.store s i v = Some (<[i:=v]> s).
Proof. intros Hi. unfold Slice.store. by rewrite decide_True. Qed.

Lemma copy_length {A} (dst src : list A) :
  length (Slice.copy dst src) = length dst.
Proof.
  unfold Slice.copy. rewrite length_app, length_take, length_drop. lia.
Qed.

Lemma copy_same_length {A} (dst src : list A) :
  length src = length dst → Slice.copy dst src = src.
Proof.
  intros Hl. unfold Slice.copy.
  rewrite take_ge by lia. rewrite drop_ge by lia. apply app_nil_r.
Qed.

Lemma make_Some {A} (n : nat) (zero : A) :
  Slice.make (Z.of_nat n) zero = Some (replicate n zero).
Proof.
  unfold Slice.make. destruct (Z.ltb_spec (Z.of_nat n) 0); [lia|].
  by rewrite Nat2Z.id.
Qed.

Lemma fill_spec cnt : ∀ i v buf,
  i + cnt ≤ length buf →
  Slice.fill cnt i v buf = Some (take i buf ++ replicate cnt v ++ drop (i + cnt) buf).
Proof.
  induction cnt as [|cnt IH]; intros i v buf Hlen; simpl.
  - rewrite Nat.add_0_r. by rewrite take_drop.
  - rewrite store_Some by lia. simpl.
    rewrite IH by (rewrite length_insert; lia).
    rewrite (take_S_r _ _ v) by (apply list_lookup_insert_eq; lia).
    rewrite take_insert_ge by lia.
    rewrite drop_insert_lt by lia.
    rewrite <- app_assoc. simpl.
    by rewrite Nat.add_succ_r.
Qed.

(** The conversion loop, started at index [i] with enough passes left. *)
Lemma convert_spec f fuel : ∀ i src dst,
  i ≤ length src → i ≤ length dst →
  Nat.min (length src) (length dst) - i ≤ fuel →
  convert f fuel i src dst =
    Some (take i dst
          ++ (f <$> take (Nat.min (length src) (length dst) - i) (drop i src))
          ++ drop (Nat.min (length src) (length dst)) dst).
Proof.
  induction fuel as [|fuel IH]; intros i src dst Hs Hd Hfuel; simpl.
  - replace (Nat.min (length src) (length dst) - i) with 0 by lia.
    replace (Nat.min (length src) (length dst)) with i by lia.
    simpl. by rewrite take_drop.
  - destruct (Nat.ltb_spec i (length src)) as [His|His];
      [destruct (Nat.ltb_spec i (length dst)) as [Hid|Hid]|]; simpl.
    + destruct (lookup_lt_is_Some_2 src i His) as [v Hv].
      rewrite Hv. simpl. rewrite store_Some by done. simpl.
      rewrite IH by (rewrite ?length_insert; lia).
      rewrite length_insert.
      rewrite (take_S_r _ _ (f v)) by (by apply list_lookup_insert_eq).
      rewrite take_insert_ge by lia.
      rewrite drop_insert_lt by lia.
      replace (Nat.min (length src) (length dst) - i)
        with (S (Nat.min (length src) (length dst) - S i)) by lia.
      rewrite (drop_S _ _ _ Hv). simpl.
      by rewrite <- app_assoc.
    + replace (Nat.min (length src) (length dst) - i) with 0 by lia.
      replace (Nat.min (length src) (length dst)) with i by lia.
      simpl. by rewrite take_drop.
    + replace (Nat.min (length src) (length dst) - i) with 0 by lia.
      replace (Nat.min (length src) (length dst)) with i by lia.
      simpl. by rewrite take_drop.
Qed.

Lemma convert_from_0 f (src dst : list Z) :
  convert f (length src) 0 src dst =
    Some ((f <$> take (Nat.min (length src) (length dst)) src)
          ++ drop (Nat.min (length src) (length dst)) dst).
Proof.
  rewrite convert_spec by lia.
  by rewrite take_0, Nat.sub_0_r, drop_0.
Qed.

Lemma convert_same_length f (src dst : list Z) :
  length src = length dst →
  convert f (length src) 0 src dst = Some (f <$> src).
Proof.
  intros Hl. rewrite convert_from_0.
  rewrite Hl, Nat.min_id. rewrite <- Hl at 1.
  rewrite firstn_all, drop_all. by rewrite app_nil_r.
Qed.

(** ** Reading and padding a frame *)

Lemma readFull_nil buf : 0 < length buf → is_EOF (rr_err (ReadFull [] buf)) = true.
Proof.
  intros Hb. destruct buf as [|b buf]; simpl in *; [lia|done].
Qed.

Lemma readFull_cons r buf : r ≠ [] → is_EOF (rr_err (ReadFull r buf)) = false.
Proof.
  intros Hr. unfold ReadFull. cbn [rr_err].
  destruct (Nat.eqb_spec (Nat.min (length r) (length buf)) (length buf)); [done|].
  destruct (Nat.eqb_spec (Nat.min (length r) (length buf)) 0); [|done].
  destruct r as [|x r]; [done|]. destruct buf as [|b buf]; simpl in *; done.
Qed.

Lemma readFull_rest r buf : rr_rest (ReadFull r buf) = drop (length buf) r.
Proof.
  unfold ReadFull. cbn [rr_rest].
  destruct (Nat.le_gt_cases (length buf) (length r)).
  - by rewrite Nat.min_r.
  - rewrite Nat.min_l by lia. rewrite drop_all. by rewrite drop_ge by lia.
Qed.

Lemma drop_min (r buf : list Z) :
  drop (Nat.min (length r) (length buf)) r = drop (length buf) r.
Proof. apply (readFull_rest r buf). Qed.

Lemma frameAt_length n stream k : length (frameAt n stream k) = n.
Proof.
  unfold frameAt. rewrite length_app, length_replicate, length_take. lia.
Qed.

Lemma frameAt_drop n stream k :
  frameAt n (drop n stream) k = frameAt n stream (S k).
Proof.
  unfold frameAt. rewrite drop_drop.
  by replace (n + k * n) with (S k * n) by lia.
Qed.

(** A read into a frame buffer followed by the padding loop yields the
    next frame of the stream, filled up with silence. *)
Lemma read_pad r buf n :
  length buf = n →
  padFrame (rr_buf (ReadFull r buf)) (rr_n (ReadFull r buf)) (Z.of_nat n)
  = Some (frameAt n r 0).
Proof.
  intros Hb. unfold padFrame, ReadFull, frameAt. cbn [rr_buf rr_n].
  rewrite Nat.mul_0_l, drop_0.
  set (m := Nat.min (length r) (length buf)).
  assert (Hm : length (take m r) = m) by (rewrite length_take; lia).
  assert (Hc : Slice.copy buf (take m r) = take m r ++ drop m buf).
  { unfold Slice.copy. rewrite Hm, take_take. by replace (Nat.min (length buf) m) with m by lia. }
  rewrite Hc.
  destruct (Z.ltb_spec (Z.of_nat m) (Z.of_nat n)) as [Hlt|Hge].
  - rewrite fill_spec by (rewrite length_app, Hm, length_drop, Nat2Z.id; lia).
    rewrite Nat2Z.id. f_equal.
    rewrite take_app_length' by done.
    rewrite drop_ge by (rewrite length_app, Hm, length_drop; lia).
    rewrite app_nil_r.
    assert (length r < n) by lia.
    rewrite (take_ge r n) by lia. rewrite (take_ge r m) by lia.
    by replace m with (length r) by lia.
  - assert (m = n) by lia. subst m.
    rewrite drop_ge by lia. rewrite app_nil_r.
    replace (Nat.min (length r) (length buf)) with n by lia.
    f_equal. rewrite length_take.
    replace (n - Nat.min n (length r)) with 0 by lia. by rewrite app_nil_r.
Qed.

Lemma frameTotal_nil n : 0 < n → frameTotal n [] = 0.
Proof.
  intros Hn. unfold frameTotal. simpl. apply Nat.div_small. lia.
Qed.

Lemma frameTotal_drop n (stream : list Z) :
  0 < n → stream ≠ [] → frameTotal n stream = S (frameTotal n (drop n stream)).
Proof.
  intros Hn Hs. unfold frameTotal. rewrite length_drop.
  assert (0 < length stream) by (destruct stream; [done|simpl; lia]).
  destruct (Nat.le_gt_cases n (length stream)).
  - replace (length stream + n - 1) with ((length stream - n + n - 1) + 1 * n) by lia.
    rewrite Nat.div_add by lia. lia.
  - replace (length stream - n + n - 1) with (n - 1) by lia.
    rewrite (Nat.div_small (n - 1)) by lia.
    replace (length stream + n - 1) with ((length stream - 1) + 1 * n) by lia.
    rewrite Nat.div_add by lia. rewrite Nat.div_small by lia. lia.
Qed.

Lemma frames_nil n : 0 < n → frames n [] = [].
Proof. intros Hn. unfold frames. by rewrite frameTotal_nil. Qed.

Lemma frames_cons n (stream : list Z) :
  0 < n → stream ≠ [] →
  frames n stream = frameAt n stream 0 :: frames n (drop n stream).
Proof.
  intros Hn Hs. unfold frames.
  rewrite (frameTotal_drop n stream) by done. simpl. f_equal.
  rewrite <- fmap_S_seq, <- list_fmap_compose.
  apply list_fmap_ext. intros i k _. simpl. by rewrite frameAt_drop.
Qed.

Lemma frames_length n stream : length (frames n stream) = frameTotal n stream.
Proof. unfold frames. by rewrite length_fmap, length_seq. Qed.

(** A stream whose length is not a multiple of the frame size has one
    frame more than it has full frames, and the last one is the rest of
    the stream followed by silence. *)
Lemma frameTotal_partial n (stream : list Z) :
  0 < n → length stream mod n ≠ 0 →
  frameTotal n stream = S (length stream / n).
Proof.
  intros Hn Hr. unfold frameTotal.
  pose proof (Nat.div_mod_eq (length stream) n) as Hdm.
  pose proof (Nat.mod_upper_bound (length stream) n) as Hub.
  symmetry. apply (Nat.div_unique _ _ _ (length stream mod n - 1)); lia.
Qed.

Lemma frameAt_last n (stream : list Z) :
  0 < n → length stream mod n ≠ 0 →
  frameAt n stream (length stream / n)
  = drop (length stream / n * n) stream ++ replicate (n - length stream mod n) 213%Z.
Proof.
  intros Hn Hr. unfold frameAt.
  pose proof (Nat.div_mod_eq (length stream) n) as Hdm.
  pose proof (Nat.mod_upper_bound (length stream) n) as Hub.
  assert (Hlen : length (drop (length stream / n * n) stream) = length stream mod n).
  { rewrite length_drop. lia. }
  rewrite take_ge by lia. by rewrite Hlen.
Qed.

(** ** The engine wrappers on frames of the configured size *)

Section EngineFacts.
Context `{SpeexDSP}.

Lemma addr0_Some {A} (s : list A) : 0 < length s → Slice.addr0 s = Some ().
Proof. destruct s; simpl; [lia|done]. Qed.

Lemma len_ne_false (frame : list Z) n : length frame = n → len_ne frame (Z.of_nat n) = false.
Proof.
  intros <-. unfold len_ne. by rewrite Z.eqb_refl.
Qed.

Lemma echoOnly_ok (a : AEC) w mic spk n :
  0 < n → aec_frameSize a = Z.of_nat n → length mic = n → length spk = n →
  ∃ out w', AEC_ProcessFrameEchoOnly a w mic spk = Some (Some out, w') ∧ length out = n.
Proof.
  intros Hn Ha Hm Hs. unfold AEC_ProcessFrameEchoOnly.
  rewrite Ha, !len_ne_false, make_Some by done. simpl.
  rewrite !addr0_Some by (rewrite ?length_replicate; lia). simpl.
  destruct (speex_echo_cancellation w (echoState a) mic spk) as [samples w'].
  eexists _, _. split; [done|].
  by rewrite copy_length, length_replicate.
Qed.

Lemma echoNS_ok (a : AEC) w mic spk n :
  0 < n → aec_frameSize a = Z.of_nat n → length mic = n → length spk = n →
  ∃ out w', AEC_ProcessFrame a w mic spk = Some (Some out, w') ∧ length out = n.
Proof.
  intros Hn Ha Hm Hs. unfold AEC_ProcessFrame.
  rewrite Ha, !len_ne_false, make_Some by done. simpl.
  rewrite !addr0_Some by (rewrite ?length_replicate; lia). simpl.
  destruct (speex_echo_cancellation w (echoState a) mic spk) as [samples w'].
  destruct (speex_preprocess_run w' (aec_preprocState a) _) as [samples' w''].
  eexists _, _. split; [done|].
  by rewrite !copy_length, length_replicate.
Qed.

Lemma ns_ok (p : Preprocessor) w mic n :
  0 < n → frameSize p = Z.of_nat n → length mic = n →
  ∃ out w', Preprocessor_ProcessFrame p w mic = Some (Some out, w') ∧ length out = n.
Proof.
  intros Hn Hp Hm. unfold Preprocessor_ProcessFrame.
  rewrite Hp, len_ne_false, make_Some by done. simpl.
  rewrite addr0_Some by (rewrite copy_length, length_replicate; lia). simpl.
  destruct (speex_preprocess_run w (preprocState p) _) as [samples w'].
  eexists _, _. split; [done|].
  by rewrite !copy_length, length_replicate.
Qed.

Lemma aecReady_Some size aec :
  aecReady size aec = true → ∃ a, aec = Some a ∧ aec_frameSize a = size.
Proof.
  destruct aec as [a|]; simpl; [|done]. intros Ha%Z.eqb_eq. eauto.
Qed.

Lemma nsReady_Some size ns :
  nsReady size ns = true → ∃ p, ns = Some p ∧ frameSize p = size.
Proof.
  destruct ns as [p|]; simpl; [|done]. intros Hp%Z.eqb_eq. eauto.
Qed.

End EngineFacts.

(** ** Reading a trace piece by piece *)

Lemma writes_app tr1 tr2 : writes (tr1 ++ tr2) = writes tr1 ++ writes tr2.
Proof. apply omap_app. Qed.

Lemma decodes_app tr1 tr2 : decodes (tr1 ++ tr2) = decodes tr1 ++ decodes tr2.
Proof. apply omap_app. Qed.

Lemma encodes_app tr1 tr2 : encodes (tr1 ++ tr2) = encodes tr1 ++ encodes tr2.
Proof. apply omap_app. Qed.

Lemma farEndFrames_app tr1 tr2 :
  farEndFrames (tr1 ++ tr2) = farEndFrames tr1 ++ farEndFrames tr2.
Proof. apply omap_app. Qed.

(** ** One pass of [Processor.processAudio] *)

Section ProcessorFacts.
Context `{Codec} `{SpeexDSP}.

Lemma encodeFrame_ok config pcm n :
  FrameSize config = Z.of_nat n → length pcm = n →
  Processor.encodeFrame config pcm = Some (PCM16ToAlaw <$> pcm).
Proof.
  intros Hf Hp. unfold Processor.encodeFrame, PCM16BufferToAlaw.
  rewrite Hf, make_Some. simpl.
  apply convert_same_length. by rewrite length_replicate.
Qed.

Lemma processFrame_ok config w mic spk prev aec ns n :
  0 < n → FrameSize config = Z.of_nat n →
  componentsReady config aec ns = true →
  length mic = n →
  (needsSpeakerFile config = true →
   length (Processor.getAECSpeakerFrame config spk prev) = n) →
  ∃ outPcm w' eng,
    Processor.processFrame config w mic spk prev aec ns
      = Some (inr (PCM16ToAlaw <$> outPcm), w', eng ++ [EvEncode outPcm]) ∧
    length outPcm = n ∧
    writes eng = [] ∧ decodes eng = [] ∧ encodes eng = [] ∧
    farEndFrames eng =
      (if needsSpeakerFile config
       then [Processor.getAECSpeakerFrame config spk prev] else []) ∧
    (needsSpeakerFile config = false → Mode config ≠ ModeNSOnly →
     eng = [] ∧ outPcm = mic).
Proof.
  intros Hn Hf Hready Hm Hfar.
  unfold Processor.processFrame, componentsReady, needsSpeakerFile in *.
  destruct (Mode config) eqn:Hmode; simpl in Hfar.
  - rewrite (encodeFrame_ok _ _ n) by done. simpl.
    by exists mic, w, [].
  - rewrite (encodeFrame_ok _ _ n) by done. simpl.
    by exists mic, w, [].
  - apply nsReady_Some in Hready as (p & -> & Hp). simpl.
    destruct (ns_ok p w mic n) as (out & w' & -> & Hout); [congruence..|]. simpl.
    rewrite (encodeFrame_ok _ _ n) by done. simpl.
    by exists out, w', [EvNS mic].
  - apply aecReady_Some in Hready as (a & -> & Ha). simpl.
    destruct (echoOnly_ok a w mic (Processor.getAECSpeakerFrame config spk prev) n)
      as (out & w' & -> & Hout); [auto; congruence..|]. simpl.
    rewrite (encodeFrame_ok _ _ n) by done. simpl.
    by exists out, w', [EvEchoOnly mic (Processor.getAECSpeakerFrame config spk prev)].
  - apply andb_prop in Hready as [Ha Hp].
    apply aecReady_Some in Ha as (a & -> & Ha).
    apply nsReady_Some in Hp as (p & -> & Hp). simpl.
    destruct (ns_ok p w mic n) as (out1 & w1 & -> & Hout1); [congruence..|]. simpl.
    destruct (echoOnly_ok a w1 out1 (Processor.getAECSpeakerFrame config spk prev) n)
      as (out & w' & -> & Hout); [auto; congruence..|]. simpl.
    rewrite (encodeFrame_ok _ _ n) by done. simpl.
    by exists out, w',
      [EvNS mic; EvEchoOnly out1 (Processor.getAECSpeakerFrame config spk prev)].
  - apply aecReady_Some in Hready as (a & -> & Ha). simpl.
    destruct (echoNS_ok a w mic (Processor.getAECSpeakerFrame config spk prev) n)
      as (out & w' & -> & Hout); [auto; congruence..|]. simpl.
    rewrite (encodeFrame_ok _ _ n) by done. simpl.
    by exists out, w', [EvEchoNS mic (Processor.getAECSpeakerFrame config spk prev)].
Qed.

Lemma step_stops config aec ns s n :
  0 < n → Sized n (UsePrevSpeaker config) s →
  stops (needsSpeakerFile config) s = true →
  Processor.step config aec ns s = Some Break.
Proof.
  intros Hn (Hma & Hsa & _) Hstop. unfold Processor.step, stops in *.
  destruct (micFile s) as [|b mic] eqn:Hmic.
  - by rewrite readFull_nil by lia.
  - rewrite readFull_cons by done.
    apply andb_prop in Hstop as [-> Hspk].
    destruct (speakerFile s); [|done].
    by rewrite readFull_nil by lia.
Qed.

Lemma step_pass config aec ns s n :
  0 < n → FrameSize config = Z.of_nat n →
  componentsReady config aec ns = true →
  Sized n (UsePrevSpeaker config) s →
  stops (needsSpeakerFile config) s = false →
  ∃ s' evs,
    Processor.step config aec ns s = Some (Continue s' evs) ∧
    Sized n (UsePrevSpeaker config) s' ∧
    PassFacts n (needsSpeakerFile config)
      (UsePrevSpeaker config && needsSpeakerFile config) (UsePrevSpeaker config)
      s s' evs ∧
    (needsSpeakerFile config = false → Mode config ≠ ModeNSOnly →
     evs = plainPass n (micFile s)).
Proof.
  intros Hn Hf Hready (Hma & Hsa & Hmp & Hsp & Hprev) Hstop.
  unfold Processor.step, Processor.zeroPadFrames, AlawBufferToPCM16, stops in *.
  assert (Hmic : micFile s ≠ []) by (by destruct (micFile s)).
  rewrite readFull_cons by done.
  rewrite Hf, (read_pad _ _ n) by done.
  destruct (needsSpeakerFile config) eqn:Hneeds; cbn [andb].
  - assert (Hspk : speakerFile s ≠ []).
    { destruct (micFile s); [done|]. by destruct (speakerFile s). }
    rewrite readFull_cons by done.
    rewrite (read_pad _ _ n) by done. simpl.
    rewrite !convert_same_length by (rewrite frameAt_length; congruence).
    simpl.
    destruct (processFrame_ok config (cstate s)
                (AlawToPCM16 <$> frameAt n (micFile s) 0)
                (AlawToPCM16 <$> frameAt n (speakerFile s) 0)
                (prevSpeakerPcmFrame s) aec ns n)
      as (outPcm & w' & eng & -> & Hout & Hw & Hd & He & Hfar & _).
    { done. } { done. } { done. }
    { by rewrite length_fmap, frameAt_length. }
    { intros _. unfold Processor.getAECSpeakerFrame.
      destruct (UsePrevSpeaker config); [by apply Hprev|].
      by rewrite length_fmap, frameAt_length. }
    simpl. eexists _, _. split; [done|]. rewrite Hneeds in Hfar.
    rewrite !drop_min, Hma, Hsa.
    split; [|split; [|done]].
    + repeat split; simpl; rewrite ?frameAt_length, ?length_fmap, ?frameAt_length; try done.
      intros Hu. rewrite Hu. simpl. rewrite copy_length. by apply Hprev.
    + repeat split; simpl; try done.
      * destruct (UsePrevSpeaker config) eqn:Hu; simpl; [|done].
        apply copy_same_length.
        rewrite length_fmap, frameAt_length. symmetry. by apply Hprev.
      * change (EvDecode ?a :: EvDecode ?b :: ?l) with ([EvDecode a; EvDecode b] ++ l).
        rewrite !decodes_app, Hd. done.
      * exists (PCM16ToAlaw <$> outPcm).
        change (EvDecode ?a :: EvDecode ?b :: ?l) with ([EvDecode a; EvDecode b] ++ l).
        rewrite !writes_app, Hw. simpl. by rewrite length_fmap.
      * change (EvDecode ?a :: EvDecode ?b :: ?l) with ([EvDecode a; EvDecode b] ++ l).
        rewrite !farEndFrames_app, Hfar. done.
  - simpl.
    rewrite !convert_same_length by (rewrite frameAt_length; congruence).
    simpl.
    destruct (processFrame_ok config (cstate s)
                (AlawToPCM16 <$> frameAt n (micFile s) 0)
                (speakerPcmFrame s) (prevSpeakerPcmFrame s) aec ns n)
      as (outPcm & w' & eng & -> & Hout & Hw & Hd & He & Hfar & Hplain).
    { done. } { done. } { done. }
    { by rewrite length_fmap, frameAt_length. }
    { by rewrite Hneeds. }
    simpl. eexists _, _. split; [done|]. rewrite Hneeds in Hfar, Hplain.
    rewrite !drop_min, Hma.
    split; [|split].
    + repeat split; simpl; rewrite ?frameAt_length, ?length_fmap, ?frameAt_length; try done.
      rewrite andb_false_r. done.
    + repeat split; simpl; try done.
      * by rewrite andb_false_r.
      * change (EvDecode ?a :: ?l) with ([EvDecode a] ++ l).
        rewrite !decodes_app, Hd. done.
      * exists (PCM16ToAlaw <$> outPcm).
        change (EvDecode ?a :: ?l) with ([EvDecode a] ++ l).
        rewrite !writes_app, Hw. simpl. by rewrite length_fmap.
      * change (EvDecode ?a :: ?l) with ([EvDecode a] ++ l).
        rewrite !farEndFrames_app, Hfar. done.
    + intros _ Hns. destruct (Hplain eq_refl Hns) as [-> ->]. done.
Qed.

End ProcessorFacts.

(** ** The loop as a whole *)

Section LoopFacts.
Context `{SpeexDSP}.

(** A loop whose body breaks exactly at the stopping states and otherwise
    consumes microphone bytes finishes, and a property of the trace that
    every pass extends holds of the whole run. *)
Lemma forLoop_finishes (body : LoopState → option StepResult)
    (Inv : LoopState → Prop) (needs : bool) (P : LoopState → list Event → Prop) :
  (∀ s, Inv s → stops needs s = true → body s = Some Break) →
  (∀ s, Inv s → stops needs s = false →
     ∃ s' evs, body s = Some (Continue s' evs) ∧ Inv s' ∧
               length (micFile s') < length (micFile s) ∧
               ∀ tr, P s' tr → P s (evs ++ tr)) →
  (∀ s, Inv s → stops needs s = true → P s []) →
  ∀ fuel s, Inv s → length (micFile s) < fuel →
    ∃ tr, forLoop body fuel s = (Finished, tr) ∧ P s tr.
Proof.
  intros Hbreak Hpass Hbase fuel.
  induction fuel as [|fuel IH]; intros s Hinv Hfuel; [lia|].
  simpl. destruct (stops needs s) eqn:Hstop.
  - rewrite (Hbreak s Hinv Hstop). eauto.
  - destruct (Hpass s Hinv Hstop) as (s' & evs & -> & Hinv' & Hlt & Hext).
    destruct (IH s' Hinv') as (tr & -> & HP); [lia|].
    eauto.
Qed.

(** Whatever the loop does, a property of the frames written by every
    pass holds of all frames written. *)
Lemma forLoop_writes (body : LoopState → option StepResult) (Q : list Z → Prop) :
  (∀ s s' evs, body s = Some (Continue s' evs) → Forall Q (writes evs)) →
  (∀ s fr e evs, body s = Some (Return fr e evs) → Forall Q (writes evs)) →
  ∀ fuel s, Forall Q (writes (forLoop body fuel s).2).
Proof.
  intros Hc Hr fuel.
  induction fuel as [|fuel IH]; intros s; simpl; [constructor|].
  destruct (body s) as [[s' evs| |fr e evs]|] eqn:Hb; simpl; try constructor.
  - specialize (IH s'). destruct (forLoop body fuel s') as [o tr]. simpl in *.
    rewrite writes_app. apply Forall_app. eauto.
  - eauto.
Qed.

Lemma stops_false_mic needs s : stops needs s = false → micFile s ≠ [].
Proof. unfold stops. by destruct (micFile s). Qed.

Lemma stops_false_spk s : stops true s = false → speakerFile s ≠ [].
Proof. unfold stops. destruct (micFile s); [done|]. by destruct (speakerFile s). Qed.

Lemma drop_shorter n (l : list Z) : 0 < n → l ≠ [] → length (drop n l) < length l.
Proof.
  intros Hn Hl. rewrite length_drop. destruct l; [done|]. simpl. lia.
Qed.

Lemma passes_stop n needs s : 0 < n → stops needs s = true → passes n needs s = 0.
Proof.
  intros Hn. unfold stops, passes.
  destruct (micFile s) as [|b mic].
  - intros _. rewrite frameTotal_nil by done. by destruct needs.
  - intros [-> Hs]%andb_prop. destruct (speakerFile s); [|done].
    rewrite (frameTotal_nil n) by done. lia.
Qed.

Lemma passes_pass n needs s s' :
  0 < n → stops needs s = false →
  micFile s' = drop n (micFile s) →
  speakerFile s' = (if needs then drop n (speakerFile s) else speakerFile s) →
  passes n needs s = S (passes n needs s').
Proof.
  intros Hn Hstop Hm Hs. unfold passes. rewrite Hm, Hs.
  rewrite (frameTotal_drop n (micFile s)) by eauto using stops_false_mic.
  destruct needs; [|done].
  rewrite (frameTotal_drop n (speakerFile s)) by eauto using stops_false_spk.
  lia.
Qed.

Lemma length_concat_sized (n : nat) (frames : list (list Z)) :
  Forall (λ fr, length fr = n) frames → length (concat frames) = length frames * n.
Proof.
  induction 1 as [|fr frames Hfr _ IH]; simpl; [done|].
  rewrite length_app. lia.
Qed.

Lemma initState_ok n usePrev mic spk w :
  ∃ s, initState (Z.of_nat n) usePrev mic spk w = Some s ∧
       Sized n usePrev s ∧ micFile s = mic ∧ speakerFile s = spk ∧
       (usePrev = true → prevSpeakerPcmFrame s = replicate n 0%Z) ∧
       speakerPcmFrame s = replicate n 0%Z.
Proof.
  unfold initState. rewrite !make_Some. simpl.
  destruct usePrev; rewrite ?make_Some; simpl;
    (eexists; split; [done|]);
    repeat split; simpl; rewrite ?length_replicate; done.
Qed.

End LoopFacts.

(** ** [Processor.processAudio] as a whole *)

Section ProcessorRun.
Context `{Codec} `{SpeexDSP}.

(** With a positive frame size and the engine instances of the mode in
    place the run finishes, and a trace property that holds at the
    stopping states and is extended by every pass holds of the run. *)
Lemma processAudio_run config aec ns n (P : LoopState → list Event → Prop) :
  0 < n → FrameSize config = Z.of_nat n →
  componentsReady config aec ns = true →
  (∀ s, stops (needsSpeakerFile config) s = true → P s []) →
  (∀ s s' evs tr,
     stops (needsSpeakerFile config) s = false →
     PassFacts n (needsSpeakerFile config)
       (UsePrevSpeaker config && needsSpeakerFile config) (UsePrevSpeaker config)
       s s' evs →
     (needsSpeakerFile config = false → Mode config ≠ ModeNSOnly →
      evs = plainPass n (micFile s)) →
     P s' tr → P s (evs ++ tr)) →
  ∀ mic spk w,
    ∃ s0 tr,
      initState (Z.of_nat n) (UsePrevSpeaker config) mic spk w = Some s0 ∧
      Processor.processAudio config mic spk aec ns w = (Finished, tr) ∧
      P s0 tr.
Proof.
  intros Hn Hf Hready Hbase Hext mic spk w.
  unfold Processor.processAudio. rewrite Hf.
  destruct (initState_ok n (UsePrevSpeaker config) mic spk w)
    as (s0 & -> & Hsized & Hmic & _).
  destruct (forLoop_finishes (Processor.step config aec ns)
              (Sized n (UsePrevSpeaker config)) (needsSpeakerFile config) P)
    with (fuel := S (length mic)) (s := s0) as (tr & Hrun & HP).
  - intros s Hs Hstop. by apply (step_stops _ _ _ _ n).
  - intros s Hs Hstop.
    destruct (step_pass config aec ns s n) as (s' & evs & Hstep & Hs' & Hfacts & Hplain);
      [done..|].
    exists s', evs. split; [done|]. split; [done|]. split.
    + destruct Hfacts as (-> & _).
      apply drop_shorter; eauto using stops_false_mic.
    + intros tr. by apply Hext.
  - intros s _. apply Hbase.
  - done.
  - rewrite Hmic. lia.
  - eauto.
Qed.

(** The run finishes after [passes] passes, each writing one frame of the
    configured size. *)
Lemma processAudio_writes config aec ns n mic spk w :
  0 < n → FrameSize config = Z.of_nat n →
  componentsReady config aec ns = true →
  ∃ tr,
    Processor.processAudio config mic spk aec ns w = (Finished, tr) ∧
    length (writes tr) =
      (if needsSpeakerFile config
       then Nat.min (frameTotal n mic) (frameTotal n spk)
       else frameTotal n mic) ∧
    Forall (λ fr, length fr = n) (writes tr) ∧
    (needsSpeakerFile config = true → length (farEndFrames tr) = length (writes tr)).
Proof.
  intros Hn Hf Hready.
  destruct (processAudio_run config aec ns n
              (λ s tr, length (writes tr) = passes n (needsSpeakerFile config) s ∧
                       Forall (λ fr, length fr = n) (writes tr) ∧
                       (needsSpeakerFile config = true →
                        length (farEndFrames tr) = length (writes tr))))
    with (mic := mic) (spk := spk) (w := w)
    as (s0 & tr & Hinit & Hrun & Hlen & Hall & Hfar);
    [done..| | |].
  - intros s Hstop. by rewrite passes_stop.
  - intros s s' evs tr Hstop Hfacts _ (Hlen & Hall & Hfar).
    destruct Hfacts as (Hm & Hs & _ & _ & _ & _ & (fr & Hw & Hfr) & Hfe).
    rewrite writes_app, farEndFrames_app, Hw, Hfe. simpl. split; [|split].
    + rewrite Hlen. symmetry. by apply passes_pass.
    + by constructor.
    + intros Hneeds. rewrite Hneeds. simpl. by rewrite Hfar.
  - exists tr. split; [done|]. split; [|done].
    destruct (initState_ok n (UsePrevSpeaker config) mic spk w)
      as (s1 & Hinit1 & _ & Hmic & Hspk & _).
    assert (s1 = s0) as -> by congruence.
    rewrite Hlen. unfold passes. by rewrite Hmic, Hspk.
Qed.

End ProcessorRun.

(** ** [processAEC] of package main *)

Section MainFacts.
Context `{Codec} `{SpeexDSP}.

Lemma processPcm_ok f w mic far aec ns n :
  0 < n → Main.frameSize f = Z.of_nat n →
  Main.bypass f = false → mainReady f aec ns = true →
  length mic = n →
  (Main.speakerNeeded f = true → length far = n) →
  ∃ outPcm w' eng,
    Main.processPcm f w mic far aec ns = Some (inr outPcm, w', eng) ∧
    length outPcm = n ∧
    writes eng = [] ∧ decodes eng = [] ∧ encodes eng = [] ∧
    farEndFrames eng = (if Main.speakerNeeded f then [far] else []).
Proof.
  intros Hn Hf Hby Hready Hm Hfar.
  unfold Main.processPcm, mainReady, Main.speakerNeeded in *.
  rewrite Hby in *. simpl in Hfar.
  destruct (Main.nsOnly f); simpl in *.
  - apply nsReady_Some in Hready as (p & -> & Hp). simpl.
    destruct (ns_ok p w mic n) as (out & w' & -> & Hout); [congruence..|]. simpl.
    by exists out, w', [EvNS mic].
  - destruct (Main.aecOnly f); [|destruct (Main.nsFirst f)].
    + apply aecReady_Some in Hready as (a & -> & Ha). simpl.
      destruct (echoOnly_ok a w mic far n)
        as (out & w' & -> & Hout); [auto; congruence..|]. simpl.
      by exists out, w', [EvEchoOnly mic far].
    + apply andb_prop in Hready as [Ha Hp].
      apply aecReady_Some in Ha as (a & -> & Ha).
      apply nsReady_Some in Hp as (p & -> & Hp). simpl.
      destruct (ns_ok p w mic n) as (out1 & w1 & -> & Hout1); [congruence..|]. simpl.
      destruct (echoOnly_ok a w1 out1 far n)
        as (out & w' & -> & Hout); [auto; congruence..|]. simpl.
      by exists out, w', [EvNS mic; EvEchoOnly out1 far].
    + apply aecReady_Some in Hready as (a & -> & Ha). simpl.
      destruct (echoNS_ok a w mic far n)
        as (out & w' & -> & Hout); [auto; congruence..|]. simpl.
      by exists out, w', [EvEchoNS mic far].
Qed.

Lemma main_step_stops f aec ns s n :
  0 < n → Sized n (Main.usePrevSpeaker f) s →
  stops (Main.speakerNeeded f) s = true →
  Main.step f aec ns s = Some Break.
Proof.
  intros Hn (Hma & Hsa & _) Hstop. unfold Main.step, stops in *.
  destruct (micFile s) as [|b mic] eqn:Hmic.
  - by rewrite readFull_nil by lia.
  - rewrite readFull_cons by done.
    apply andb_prop in Hstop as [-> Hspk].
    destruct (speakerFile s); [|done].
    by rewrite readFull_nil by lia.
Qed.

Lemma main_step_pass f aec ns s n :
  0 < n → Main.frameSize f = Z.of_nat n →
  mainReady f aec ns = true →
  Sized n (Main.usePrevSpeaker f) s →
  stops (Main.speakerNeeded f) s = false →
  ∃ s' evs,
    Main.step f aec ns s = Some (Continue s' evs) ∧
    Sized n (Main.usePrevSpeaker f) s' ∧
    PassFacts n (Main.speakerNeeded f)
      (Main.usePrevSpeaker f && negb (Main.bypass f)) (Main.usePrevSpeaker f)
      s s' evs ∧
    (Main.bypass f = true → evs = copyPass n (micFile s)).
Proof.
  intros Hn Hf Hready (Hma & Hsa & Hmp & Hsp & Hprev) Hstop.
  unfold Main.step, AlawBufferToPCM16, PCM16BufferToAlaw, stops in *.
  assert (Hmic : micFile s ≠ []) by (by destruct (micFile s)).
  rewrite readFull_cons by done.
  rewrite Hf, (read_pad _ _ n) by done.
  destruct (Main.speakerNeeded f) eqn:Hneeds; cbn [andb].
  - assert (Hspk : speakerFile s ≠ []).
    { destruct (micFile s); [done|]. by destruct (speakerFile s). }
    assert (Hby : Main.bypass f = false).
    { unfold Main.speakerNeeded in Hneeds. by destruct (Main.nsOnly f), (Main.bypass f). }
    rewrite readFull_cons by done.
    rewrite (read_pad _ _ n) by done. simpl.
    rewrite !convert_same_length by (rewrite frameAt_length; congruence).
    simpl. rewrite Hby.
    destruct (processPcm_ok f (cstate s)
                (AlawToPCM16 <$> frameAt n (micFile s) 0)
                (if Main.usePrevSpeaker f then prevSpeakerPcmFrame s
                 else AlawToPCM16 <$> frameAt n (speakerFile s) 0)
                aec ns n)
      as (outPcm & w' & eng & -> & Hout & Hw & Hd & He & Hfar).
    { done. } { done. } { done. } { done. }
    { by rewrite length_fmap, frameAt_length. }
    { intros _. destruct (Main.usePrevSpeaker f); [by apply Hprev|].
      by rewrite length_fmap, frameAt_length. }
    simpl. rewrite make_Some. simpl.
    rewrite convert_same_length by (by rewrite length_replicate).
    simpl. eexists _, _. split; [done|]. rewrite Hneeds in Hfar.
    rewrite !drop_min, Hma, Hsa.
    split; [|split; [|done]].
    + repeat split; simpl; rewrite ?frameAt_length, ?length_fmap, ?frameAt_length; try done.
      intros Hu. rewrite Hu. simpl. rewrite copy_length. by apply Hprev.
    + repeat split; simpl; try done.
      * destruct (Main.usePrevSpeaker f) eqn:Hu; simpl; [|done].
        apply copy_same_length.
        rewrite length_fmap, frameAt_length. symmetry. by apply Hprev.
      * change (EvDecode ?a :: EvDecode ?b :: ?l) with ([EvDecode a; EvDecode b] ++ l).
        rewrite !decodes_app, Hd. done.
      * exists (PCM16ToAlaw <$> outPcm).
        change (EvDecode ?a :: EvDecode ?b :: ?l) with ([EvDecode a; EvDecode b] ++ l).
        rewrite !writes_app, Hw. simpl. by rewrite length_fmap.
      * change (EvDecode ?a :: EvDecode ?b :: ?l) with ([EvDecode a; EvDecode b] ++ l).
        rewrite !farEndFrames_app, Hfar. done.
  - simpl.
    rewrite !convert_same_length by (rewrite frameAt_length; congruence).
    simpl.
    destruct (Main.bypass f) eqn:Hby.
    + rewrite make_Some. simpl.
      rewrite (copy_same_length (replicate n 0%Z))
        by (by rewrite frameAt_length, length_replicate).
      eexists _, _. split; [done|].
      rewrite !drop_min, Hma.
      split; [|split; [|done]].
      * repeat split; simpl; rewrite ?frameAt_length, ?length_fmap, ?frameAt_length; try done.
        rewrite andb_false_r. done.
      * repeat split; simpl; try done.
        -- by rewrite andb_false_r.
        -- exists (frameAt n (micFile s) 0). by rewrite frameAt_length.
    + destruct (processPcm_ok f (cstate s)
                  (AlawToPCM16 <$> frameAt n (micFile s) 0)
                  (if Main.usePrevSpeaker f then prevSpeakerPcmFrame s
                   else speakerPcmFrame s)
                  aec ns n)
        as (outPcm & w' & eng & -> & Hout & Hw & Hd & He & Hfar).
      { done. } { done. } { done. } { done. }
      { by rewrite length_fmap, frameAt_length. }
      { by rewrite Hneeds. }
      simpl. rewrite make_Some. simpl.
      rewrite convert_same_length by (by rewrite length_replicate).
      simpl. eexists _, _. split; [done|]. rewrite Hneeds in Hfar.
      rewrite !drop_min, Hma.
      split; [|split; [|done]].
      * repeat split; simpl; rewrite ?frameAt_length, ?length_fmap, ?frameAt_length; try done.
        intros Hu. rewrite Hu. simpl. rewrite copy_length. by apply Hprev.
      * repeat split; simpl; try done.
        -- destruct (Main.usePrevSpeaker f) eqn:Hu; simpl; [|done].
           apply copy_same_length. rewrite Hsp. symmetry. by apply Hprev.
        -- change (EvDecode ?a :: ?l) with ([EvDecode a] ++ l).
           rewrite !decodes_app, Hd. done.
        -- exists (PCM16ToAlaw <$> outPcm).
           change (EvDecode ?a :: ?l) with ([EvDecode a] ++ l).
           rewrite !writes_app, Hw. simpl. by rewrite length_fmap.
        -- change (EvDecode ?a :: ?l) with ([EvDecode a] ++ l).
           rewrite !farEndFrames_app, Hfar. done.
Qed.

End MainFacts.

Section MainRun.
Context `{Codec} `{SpeexDSP}.

Lemma processAEC_run f aec ns n (P : LoopState → list Event → Prop) :
  0 < n → Main.frameSize f = Z.of_nat n →
  mainReady f aec ns = true →
  (∀ s, stops (Main.speakerNeeded f) s = true → P s []) →
  (∀ s s' evs tr,
     stops (Main.speakerNeeded f) s = false →
     PassFacts n (Main.speakerNeeded f)
       (Main.usePrevSpeaker f && negb (Main.bypass f)) (Main.usePrevSpeaker f)
       s s' evs →
     (Main.bypass f = true → evs = copyPass n (micFile s)) →
     P s' tr → P s (evs ++ tr)) →
  ∀ mic spk w,
    ∃ s0 tr,
      initState (Z.of_nat n) (Main.usePrevSpeaker f) mic spk w = Some s0 ∧
      Main.processAEC f mic spk aec ns w = (Finished, tr) ∧
      P s0 tr.
Proof.
  intros Hn Hf Hready Hbase Hext mic spk w.
  unfold Main.processAEC. rewrite Hf.
  destruct (initState_ok n (Main.usePrevSpeaker f) mic spk w)
    as (s0 & -> & Hsized & Hmic & _).
  destruct (forLoop_finishes (Main.step f aec ns)
              (Sized n (Main.usePrevSpeaker f)) (Main.speakerNeeded f) P)
    with (fuel := S (length mic)) (s := s0) as (tr & Hrun & HP).
  - intros s Hs Hstop. by apply (main_step_stops _ _ _ _ n).
  - intros s Hs Hstop.
    destruct (main_step_pass f aec ns s n) as (s' & evs & Hstep & Hs' & Hfacts & Hcopy);
      [done..|].
    exists s', evs. split; [done|]. split; [done|]. split.
    + destruct Hfacts as (-> & _).
      apply drop_shorter; eauto using stops_false_mic.
    + intros tr. by apply Hext.
  - intros s _. apply Hbase.
  - done.
  - rewrite Hmic. lia.
  - eauto.
Qed.

Lemma processAEC_writes f aec ns n mic spk w :
  0 < n → Main.frameSize f = Z.of_nat n →
  mainReady f aec ns = true →
  ∃ tr,
    Main.processAEC f mic spk aec ns w = (Finished, tr) ∧
    length (writes tr) =
      (if Main.speakerNeeded f
       then Nat.min (frameTotal n mic) (frameTotal n spk)
       else frameTotal n mic) ∧
    Forall (λ fr, length fr = n) (writes tr) ∧
    (Main.speakerNeeded f = true → length (farEndFrames tr) = length (writes tr)).
Proof.
  intros Hn Hf Hready.
  destruct (processAEC_run f aec ns n
              (λ s tr, length (writes tr) = passes n (Main.speakerNeeded f) s ∧
                       Forall (λ fr, length fr = n) (writes tr) ∧
                       (Main.speakerNeeded f = true →
                        length (farEndFrames tr) = length (writes tr))))
    with (mic := mic) (spk := spk) (w := w)
    as (s0 & tr & Hinit & Hrun & Hlen & Hall & Hfar);
    [done..| | |].
  - intros s Hstop. by rewrite passes_stop.
  - intros s s' evs tr Hstop Hfacts _ (Hlen & Hall & Hfar).
    destruct Hfacts as (Hm & Hs & _ & _ & _ & _ & (fr & Hw & Hfr) & Hfe).
    rewrite writes_app, farEndFrames_app, Hw, Hfe. simpl. split; [|split].
    + rewrite Hlen. symmetry. by apply passes_pass.
    + by constructor.
    + intros Hneeds. rewrite Hneeds. simpl. by rewrite Hfar.
  - exists tr. split; [done|]. split; [|done].
    destruct (initState_ok n (Main.usePrevSpeaker f) mic spk w)
      as (s1 & Hinit1 & _ & Hmic & Hspk & _).
    assert (s1 = s0) as -> by congruence.
    rewrite Hlen. unfold passes. by rewrite Hmic, Hspk.
Qed.

End MainRun.

(** ** The size of every frame written, whatever the configuration *)

Section FrameSizes.
Context `{Codec} `{SpeexDSP}.

Lemma make_length {A} size (zero : A) buf :
  Slice.make size zero = Some buf → length buf = Z.to_nat size.
Proof.
  unfold Slice.make. destruct (size <? 0)%Z; [done|].
  intros [= <-]. apply length_replicate.
Qed.

Lemma convert_length f (src dst out : list Z) :
  convert f (length src) 0 src dst = Some out → length out = length dst.
Proof.
  rewrite convert_from_0. intros [= <-].
  rewrite length_app, length_fmap, length_take, length_drop. lia.
Qed.

Lemma encodeFrame_length config pcm out :
  Processor.encodeFrame config pcm = Some out →
  length out = Z.to_nat (FrameSize config).
Proof.
  unfold Processor.encodeFrame, PCM16BufferToAlaw. intros Hout.
  destruct (Slice.make (FrameSize config) 0%Z) as [buf|] eqn:Hbuf; [|done].
  simpl in Hout. apply convert_length in Hout.
  rewrite Hout. by apply make_length in Hbuf.
Qed.

Lemma processFrame_shape config w mic spk prev aec ns r w' evs :
  Processor.processFrame config w mic spk prev aec ns = Some (r, w', evs) →
  writes evs = [] ∧
  ∀ out, r = inr out → length out = Z.to_nat (FrameSize config).
Proof.
  unfold Processor.processFrame. intros Hp.
  destruct (Mode config);
    repeat (simplify_option_eq || case_match);
    (split; [done|]); intros out' [= <-]; by eapply encodeFrame_length.
Qed.

(** Case analysis on the first step of a chain of binds. *)
Local Ltac head_bind H :=
  match type of H with
  | (?m ≫= _) = _ =>
      let E := fresh "E" in destruct m as [?|] eqn:E; simpl in H; [|done]
  end.

Lemma writes_decoded (needs : bool) micAlaw speakerAlaw tr :
  writes (EvDecode micAlaw :: (if needs then [EvDecode speakerAlaw] else []) ++ tr)
  = writes tr.
Proof. by destruct needs. Qed.

Lemma step_writes config aec ns s r :
  Processor.step config aec ns s = Some r →
  match r with
  | Continue _ evs | Return _ _ evs =>
      Forall (λ fr, length fr = Z.to_nat (FrameSize config)) (writes evs)
  | Break => True
  end.
Proof.
  unfold Processor.step. intros Hs.
  destruct (is_EOF _); [by simplify_eq|].
  destruct (_ && is_EOF _); [by simplify_eq|].
  destruct (Processor.zeroPadFrames _ _ _ _ _) as [[micAlaw speakerAlaw]|];
    simpl in Hs; [|done].
  destruct (AlawBufferToPCM16 micAlaw _) as [micPcm|]; simpl in Hs; [|done].
  match type of Hs with
  | (?m ≫= _) = _ => destruct m as [speakerPcm|]; simpl in Hs; [|done]
  end.
  destruct (Processor.processFrame _ _ _ _ _ _ _) as [[[r0 w'] pevs]|] eqn:Hpf;
    simpl in Hs; [|done].
  apply processFrame_shape in Hpf as [Hw Hlen].
  destruct r0 as [e|out]; simplify_eq; rewrite writes_decoded.
  - rewrite Hw. constructor.
  - rewrite writes_app, Hw. simpl. constructor; [by apply Hlen|constructor].
Qed.

Lemma processPcm_shape f w mic far aec ns r w' evs :
  Main.processPcm f w mic far aec ns = Some (r, w', evs) → writes evs = [].
Proof.
  unfold Main.processPcm. intros Hp.
  repeat (simplify_option_eq || case_match); done.
Qed.

Lemma main_step_writes f aec ns s r :
  Main.step f aec ns s = Some r →
  match r with
  | Continue _ evs | Return _ _ evs =>
      Forall (λ fr, length fr = Z.to_nat (Main.frameSize f)) (writes evs)
  | Break => True
  end.
Proof.
  unfold Main.step. intros Hs.
  destruct (is_EOF _); [by simplify_eq|].
  destruct (_ && is_EOF _); [by simplify_eq|].
  do 4 head_bind Hs.
  destruct (Main.bypass f).
  - head_bind Hs.
    head_bind E3.
    simplify_eq.
    rewrite writes_decoded. simpl.
    constructor; [|constructor].
    rewrite copy_length. by eapply make_length.
  - head_bind Hs.
    head_bind E3.
    destruct p0 as [[r0 w'] pevs]. apply processPcm_shape in E4.
    destruct r0 as [e|outPcm]; simpl in *.
    + simplify_eq. rewrite writes_decoded, E4. constructor.
    + do 2 head_bind E3.
      simplify_eq.
      rewrite writes_decoded, !writes_app, E4. simpl.
      constructor; [|constructor].
      apply convert_length in E6. rewrite E6. by eapply make_length.
Qed.

End FrameSizes.

(** ** Exhaustive facts about the codecs *)

Lemma uint8_cases (P : Z → bool) :
  forallb P all_uint8 = true → ∀ b, is_uint8 b → P b = true.
Proof.
  intros Hall b [Hlo Hhi].
  rewrite forallb_forall in Hall. apply Hall.
  apply list_elem_of_In. unfold all_uint8.
  apply list_elem_of_fmap. exists (Z.to_nat b). split; [lia|].
  apply list_elem_of_In, in_seq. lia.
Qed.

Lemma G711_roundtrip (b : Z) :
  is_uint8 b → G711.PCM16ToAlaw (G711.AlawToPCM16 b) = b.
Proof.
  intros Hb. apply Z.eqb_eq.
  apply (uint8_cases (λ b, (G711.PCM16ToAlaw (G711.AlawToPCM16 b) =? b)%Z)); [|done].
  vm_compute. reflexivity.
Qed.

Lemma G711_roundtrip_frame (fr : list Z) :
  Forall is_uint8 fr →
  PCM16ToAlaw (Codec := DirectCodec) <$> (AlawToPCM16 (Codec := DirectCodec) <$> fr) = fr.
Proof.
  induction 1 as [|b fr Hb _ IH]; [done|].
  rewrite !fmap_cons. f_equal; [|done].
  by apply G711_roundtrip.
Qed.

Lemma frameAt_uint8 n (stream : list Z) k :
  Forall is_uint8 stream → Forall is_uint8 (frameAt n stream k).
Proof.
  intros Hs. unfold frameAt. apply Forall_app. split.
  - by apply Forall_take, Forall_drop.
  - apply Forall_replicate. unfold is_uint8. lia.
Qed.

(** ** A run without speaker file, stage by stage *)

Section NoSpeakerFacts.
Context `{Codec} `{SpeexDSP}.

Lemma nsInputs_app tr1 tr2 : nsInputs (tr1 ++ tr2) = nsInputs tr1 ++ nsInputs tr2.
Proof. apply omap_app. Qed.

(** What [processFrame] does in the NS-only mode, read off its result. *)
Lemma processFrame_ns_only config w mic spk prev aec p n outPcm w' eng :
  FrameSize config = Z.of_nat n → Mode config = ModeNSOnly →
  Processor.processFrame config w mic spk prev aec (Some p)
  = Some (inr (PCM16ToAlaw <$> outPcm), w', eng ++ [EvEncode outPcm]) →
  eng = [EvNS mic] ∧ Preprocessor_ProcessFrame p w mic = Some (Some outPcm, w').
Proof.
  intros Hf Hmode. unfold Processor.processFrame. rewrite Hmode. simpl.
  destruct (Preprocessor_ProcessFrame p w mic) as [[[out|] w1]|]; simpl; [|done..].
  destruct (Processor.encodeFrame config out) as [fr|]; simpl; [|done].
  intros [= _ <- Heq].
  change [EvNS mic; EvEncode out] with ([EvNS mic] ++ [EvEncode out]) in Heq.
  apply app_inj_tail in Heq as [<- [= <-]]. done.
Qed.

(** A pass in a mode without speaker file: the frame read and padded is
    decoded, the decoded frame goes through [processFrame], whose output
    is encoded and written. *)
Lemma step_pass_no_speaker config aec ns s n :
  0 < n → FrameSize config = Z.of_nat n →
  componentsReady config aec ns = true →
  needsSpeakerFile config = false →
  Sized n (UsePrevSpeaker config) s →
  stops false s = false →
  ∃ s' outPcm eng,
    Processor.step config aec ns s
    = Some (Continue s'
              (EvDecode (frameAt n (micFile s) 0)
               :: eng ++ [EvEncode outPcm; EvWrite (PCM16ToAlaw <$> outPcm)])) ∧
    Sized n (UsePrevSpeaker config) s' ∧
    micFile s' = drop n (micFile s) ∧
    length outPcm = n ∧
    (Mode config ≠ ModeNSOnly →
     eng = [] ∧ outPcm = AlawToPCM16 <$> frameAt n (micFile s) 0) ∧
    (∀ p, Mode config = ModeNSOnly → ns = Some p →
       eng = [EvNS (AlawToPCM16 <$> frameAt n (micFile s) 0)] ∧
       Preprocessor_ProcessFrame p (cstate s) (AlawToPCM16 <$> frameAt n (micFile s) 0)
       = Some (Some outPcm, cstate s')).
Proof.
  intros Hn Hf Hready Hneeds (Hma & Hsa & Hmp & Hsp & Hprev) Hstop.
  unfold Processor.step, Processor.zeroPadFrames, AlawBufferToPCM16, stops in *.
  assert (Hmic : micFile s ≠ []) by (by destruct (micFile s)).
  rewrite readFull_cons by done.
  rewrite Hf, (read_pad _ _ n) by done.
  rewrite Hneeds. cbn [andb]. simpl.
  rewrite !convert_same_length by (rewrite frameAt_length; congruence).
  simpl.
  destruct (processFrame_ok config (cstate s)
              (AlawToPCM16 <$> frameAt n (micFile s) 0)
              (speakerPcmFrame s) (prevSpeakerPcmFrame s) aec ns n)
    as (outPcm & w' & eng & Hpf & Hout & Hw & Hd & He & Hfar & Hplain).
  { done. } { done. } { done. }
  { by rewrite length_fmap, frameAt_length. }
  { by rewrite Hneeds. }
  rewrite Hpf. simpl. rewrite <- app_assoc. simpl.
  eexists _, outPcm, eng. split; [done|].
  rewrite !drop_min, Hma.
  split; [|split; [done|split; [done|split]]].
  - repeat split; simpl; rewrite ?frameAt_length, ?length_fmap, ?frameAt_length; try done.
    rewrite andb_false_r. done.
  - intros Hns. by apply Hplain.
  - intros p Hmode ->. simpl. by eapply processFrame_ns_only.
Qed.

Lemma initState_cstate size usePrev mic spk w s :
  initState size usePrev mic spk w = Some s → cstate s = w.
Proof.
  unfold initState. destruct (Slice.make size 0%Z) as [fr|]; simpl; [|done].
  destruct usePrev; simpl; [destruct (Slice.make size 0%Z); simpl|];
    intros Heq; by simplify_eq.
Qed.

(** The run in a mode without speaker file: it finishes, and the trace
    shows every stage on every frame of the microphone file. *)
Lemma processAudio_no_speaker config aec ns n mic spk w :
  0 < n → FrameSize config = Z.of_nat n →
  componentsReady config aec ns = true →
  needsSpeakerFile config = false →
  ∃ tr,
    Processor.processAudio config mic spk aec ns w = (Finished, tr) ∧
    decodes tr = frames n mic ∧
    writes tr = (fmap (M := list) PCM16ToAlaw <$> encodes tr) ∧
    (Mode config ≠ ModeNSOnly →
     nsInputs tr = [] ∧
     encodes tr = (fmap (M := list) AlawToPCM16 <$> frames n mic)) ∧
    (∀ p, Mode config = ModeNSOnly → ns = Some p →
       nsInputs tr = (fmap (M := list) AlawToPCM16 <$> frames n mic) ∧
       encodes tr = nsOutputs p w (fmap (M := list) AlawToPCM16 <$> frames n mic)).
Proof.
  intros Hn Hf Hready Hneeds.
  unfold Processor.processAudio. rewrite Hf.
  destruct (initState_ok n (UsePrevSpeaker config) mic spk w)
    as (s0 & Hinit & Hsized & Hmic & _).
  rewrite Hinit. apply initState_cstate in Hinit as Hw.
  destruct (forLoop_finishes (Processor.step config aec ns)
              (Sized n (UsePrevSpeaker config)) false
              (λ s tr,
                 decodes tr = frames n (micFile s) ∧
                 writes tr = (fmap (M := list) PCM16ToAlaw <$> encodes tr) ∧
                 (Mode config ≠ ModeNSOnly →
                  nsInputs tr = [] ∧
                  encodes tr = (fmap (M := list) AlawToPCM16 <$> frames n (micFile s))) ∧
                 (∀ p, Mode config = ModeNSOnly → ns = Some p →
                    nsInputs tr
                    = (fmap (M := list) AlawToPCM16 <$> frames n (micFile s)) ∧
                    encodes tr
                    = nsOutputs p (cstate s)
                        (fmap (M := list) AlawToPCM16 <$> frames n (micFile s)))))
    with (fuel := S (length mic)) (s := s0) as (tr & Hrun & HP).
  - intros s Hs Hstop. apply (step_stops _ _ _ _ n); [done..|]. by rewrite Hneeds.
  - intros s Hs Hstop.
    destruct (step_pass_no_speaker config aec ns s n)
      as (s' & outPcm & eng & Hstep & Hs' & Hm & Hout & Hplain & Hns); [done..|].
    eexists s', _. split; [done|]. split; [done|]. split.
    { rewrite Hm. apply drop_shorter; eauto using stops_false_mic. }
    intros tr (IHd & IHw & IHp & IHn).
    assert (Hfr : frames n (micFile s)
                  = frameAt n (micFile s) 0 :: frames n (micFile s'))
      by (rewrite Hm; apply frames_cons; eauto using stops_false_mic).
    assert (Heng : decodes eng = [] ∧ writes eng = [] ∧ encodes eng = []).
    { destruct (decide (Mode config = ModeNSOnly)) as [Hmode|Hmode].
      - unfold componentsReady in Hready. rewrite Hmode in Hready.
        apply nsReady_Some in Hready as (p & Hp & _).
        by destruct (Hns p Hmode Hp) as [-> _].
      - by destruct (Hplain Hmode) as [-> _]. }
    destruct Heng as (Hed & Hew & Hee).
    change (EvDecode ?a :: ?l ++ ?r) with ([EvDecode a] ++ l ++ r).
    rewrite !decodes_app, !writes_app, !encodes_app, !nsInputs_app, Hed, Hew, Hee.
    simpl. rewrite IHd, IHw, Hfr.
    split; [done|]. split; [done|]. split.
    + intros Hmode. destruct (Hplain Hmode) as [-> ->].
      destruct (IHp Hmode) as [-> ->]. done.
    + intros p Hmode Hp. destruct (Hns p Hmode Hp) as [-> Hcall].
      destruct (IHn p Hmode Hp) as [-> ->]. simpl. by rewrite Hcall.
  - intros s _ Hstop. unfold stops in Hstop.
    destruct (micFile s); [|done]. rewrite frames_nil by done. done.
  - done.
  - rewrite Hmic. lia.
  - rewrite Hmic, Hw in HP. exists tr. split; [done|]. apply HP.
Qed.

End NoSpeakerFacts.

(** * Main results *)

(** ** Codec *)

(** C1, as stated, fails: neither decoder maps the silence byte 0xD5 to
    the sample 0 (and the table-driven encoder does not map 0 to 0xD5). *)
Lemma C1_silence_is_not_zero :
  ¬ (Alaw.AlawToPCM16 213 = 0 ∧ G711.Alaw2Linear 213 = 0 ∧
     Alaw.PCM16ToAlaw 0 = 213 ∧ G711.Linear2Alaw 0 = 213)%Z.
Proof. intros [Hdec _]. vm_compute in Hdec. discriminate Hdec. Qed.

(** C1, amended: both decoders map the silence byte 0xD5 to the sample 8,
    the smallest positive level and within the tolerance of 10 that the
    silence test allows, and [Linear2Alaw] maps the sample 0 to 0xD5. *)
Theorem C1_silence_code :
  (Alaw.AlawToPCM16 213 = 8 ∧ G711.Alaw2Linear 213 = 8 ∧
   Z.abs (G711.Alaw2Linear 213) <= 10 ∧ G711.Linear2Alaw 0 = 213)%Z.
Proof. vm_compute. repeat split; discriminate. Qed.

(** The vectors of [TestLinear2Alaw] and [TestAlaw2Linear]. *)
Example alaw_test_vectors :
  (G711.Linear2Alaw 0 = 213 ∧ G711.Linear2Alaw 100 = 211 ∧
   G711.Linear2Alaw (-100) = 83 ∧ G711.Linear2Alaw 32767 = 170 ∧
   G711.Linear2Alaw (-32768) = 42 ∧
   G711.Alaw2Linear 211 = 104 ∧ G711.Alaw2Linear 83 = -104)%Z.
Proof. by vm_compute. Qed.

(** C3: decoding and re-encoding a byte.  The direct implementation gives
    every byte back unchanged.  The table-driven implementation of
    [alaw.go] gives no byte back: its result is at least 65 quantization
    steps away from the byte it started from. *)
Theorem C3_roundtrip_per_implementation (b : Z) :
  is_uint8 b →
  (G711.PCM16ToAlaw (G711.AlawToPCM16 b) = b ∧
   Alaw.PCM16ToAlaw (Alaw.AlawToPCM16 b) ≠ b ∧
   65 <= step_distance b (Alaw.PCM16ToAlaw (Alaw.AlawToPCM16 b)))%Z.
Proof.
  intros Hb.
  pose proof (uint8_cases
    (λ b, (G711.PCM16ToAlaw (G711.AlawToPCM16 b) =? b)%Z
          && negb (Alaw.PCM16ToAlaw (Alaw.AlawToPCM16 b) =? b)%Z
          && (65 <=? step_distance b (Alaw.PCM16ToAlaw (Alaw.AlawToPCM16 b)))%Z)
    ltac:(vm_compute; reflexivity) b Hb) as Hall.
  simpl in Hall.
  apply andb_prop in Hall as [Hall Hdist]. apply andb_prop in Hall as [Hdir Htab].
  apply Z.eqb_eq in Hdir. apply negb_true_iff, Z.eqb_neq in Htab.
  apply Z.leb_le in Hdist. done.
Qed.

(** The silence byte in [alaw.go]: 0xD5 decodes to 8, and 8 encodes to
    0x25, 113 steps away. *)
Example alaw_go_roundtrip_of_silence :
  (Alaw.PCM16ToAlaw (Alaw.AlawToPCM16 213) = 37 ∧ step_distance 213 37 = 113)%Z.
Proof. by vm_compute. Qed.

(** The round trips of the silence byte. *)
Lemma C3_roundtrip_silence_byte :
  is_uint8 213 ∧
  (G711.PCM16ToAlaw (G711.AlawToPCM16 213) = 213 ∧
   Alaw.PCM16ToAlaw (Alaw.AlawToPCM16 213) ≠ 213 ∧
   65 <= step_distance 213 (Alaw.PCM16ToAlaw (Alaw.AlawToPCM16 213)))%Z.
Proof.
  assert (Hb : is_uint8 213) by (unfold is_uint8; lia).
  split; [exact Hb|]. exact (C3_roundtrip_per_implementation 213 Hb).
Defined.

(** C4: the two decoders agree on every byte; the two encoders do not
    agree: for the sample 0 the table-driven [PCM16ToAlaw] returns 0x25
    and [Linear2Alaw] returns 0xD5. *)
Theorem C4_decoders_agree_encoders_differ (b : Z) :
  is_uint8 b →
  (Alaw.AlawToPCM16 b = G711.Alaw2Linear b ∧
   Alaw.PCM16ToAlaw 0 = 37 ∧ G711.Linear2Alaw 0 = 213)%Z.
Proof.
  intros Hb. split; [|by vm_compute].
  apply Z.eqb_eq.
  apply (uint8_cases (λ b, (Alaw.AlawToPCM16 b =? G711.Alaw2Linear b)%Z)); [|done].
  vm_compute. reflexivity.
Qed.

(** The byte 0x00 decodes to -5504 in both implementations. *)
Lemma C4_at_byte_zero :
  is_uint8 0 ∧
  (Alaw.AlawToPCM16 0 = G711.Alaw2Linear 0 ∧
   Alaw.PCM16ToAlaw 0 = 37 ∧ G711.Linear2Alaw 0 = 213)%Z.
Proof.
  assert (Hb : is_uint8 0) by (unfold is_uint8; lia).
  split; [exact Hb|]. exact (C4_decoders_agree_encoders_differ 0 Hb).
Defined.

(** C8: with either codec and buffers of any lengths, both buffer
    conversions return (they do not panic), convert exactly the first
    [min (length source) (length destination)] elements and leave the rest
    of the destination as it was. *)
Theorem C8_buffer_conversion `{Codec} (alawData pcmData : list Z) :
  AlawBufferToPCM16 alawData pcmData =
    Some ((AlawToPCM16 <$> take (Nat.min (length alawData) (length pcmData)) alawData)
          ++ drop (Nat.min (length alawData) (length pcmData)) pcmData) ∧
  PCM16BufferToAlaw pcmData alawData =
    Some ((PCM16ToAlaw <$> take (Nat.min (length pcmData) (length alawData)) pcmData)
          ++ drop (Nat.min (length pcmData) (length alawData)) alawData).
Proof. split; apply convert_from_0. Qed.

(** The five-into-three example: only three elements are converted. *)
Example buffer_conversion_5_into_3 :
  PCM16BufferToAlaw (H := DirectCodec) [0; 100; -100; 1000; -1000]%Z [0; 0; 0]%Z
  = Some [213; 211; 83]%Z.
Proof. reflexivity. Qed.

(** ** Mode policy *)

(** C9: [needsSpeakerFile] is false exactly for bypass, test-alaw and
    NS-only and true exactly for AEC-only, NS-first and AEC-first, and
    [speakerRequired] of [validateConfig] is the same decision. *)
Theorem C9_far_end_requirement (config : Config) :
  (needsSpeakerFile config = false ↔
     Mode config = ModeBypass ∨ Mode config = ModeTestAlaw ∨ Mode config = ModeNSOnly) ∧
  (needsSpeakerFile config = true ↔
     Mode config = ModeAECOnly ∨ Mode config = ModeNSFirst ∨ Mode config = ModeAECFirst) ∧
  speakerRequired config = needsSpeakerFile config.
Proof.
  unfold needsSpeakerFile, speakerRequired.
  destruct (Mode config); simpl; intuition (auto; discriminate).
Qed.

(** ** Frame pipeline *)

(** C10: whatever the mode, the configuration, the streams and the engine,
    and however the run ends, every frame written by
    [Processor.processAudio] and by [processAEC] has exactly the
    configured number of bytes, so the output is a whole number of frames. *)
Theorem C10_output_is_whole_frames `{Codec} `{SpeexDSP}
    (config : Config) (f : Main.Flags) (mic spk : list Z)
    (aec : option AEC) (ns : option Preprocessor) (w : CState) :
  (Forall (λ fr, length fr = Z.to_nat (FrameSize config))
     (writes (Processor.processAudio config mic spk aec ns w).2) ∧
   length (output (Processor.processAudio config mic spk aec ns w).2)
   = length (writes (Processor.processAudio config mic spk aec ns w).2)
     * Z.to_nat (FrameSize config)) ∧
  (Forall (λ fr, length fr = Z.to_nat (Main.frameSize f))
     (writes (Main.processAEC f mic spk aec ns w).2) ∧
   length (output (Main.processAEC f mic spk aec ns w).2)
   = length (writes (Main.processAEC f mic spk aec ns w).2)
     * Z.to_nat (Main.frameSize f)).
Proof.
  assert (Hp : Forall (λ fr, length fr = Z.to_nat (FrameSize config))
                 (writes (Processor.processAudio config mic spk aec ns w).2)).
  { unfold Processor.processAudio.
    destruct (initState _ _ _ _ _) as [s|]; [|constructor].
    apply forLoop_writes.
    - intros s1 s' evs Hs. apply (step_writes _ _ _ _ _ Hs).
    - intros s1 fr e evs Hs. apply (step_writes _ _ _ _ _ Hs). }
  assert (Hm : Forall (λ fr, length fr = Z.to_nat (Main.frameSize f))
                 (writes (Main.processAEC f mic spk aec ns w).2)).
  { unfold Main.processAEC.
    destruct (initState _ _ _ _ _) as [s|]; [|constructor].
    apply forLoop_writes.
    - intros s1 s' evs Hs. apply (main_step_writes _ _ _ _ _ Hs).
    - intros s1 fr e evs Hs. apply (main_step_writes _ _ _ _ _ Hs). }
  split; (split; [done|]); unfold output; by apply length_concat_sized.
Qed.

(** C7: in a mode that needs the speaker file, when the speaker file has
    fewer frames than the microphone file, the run ends without error
    after as many passes as the speaker file has frames: that many frames
    are written and that many engine calls are made, the pass whose
    speaker read returns no byte does neither. *)
Theorem C7_far_end_runs_out_first `{Codec} `{SpeexDSP}
    (config : Config) (f : Main.Flags) (mic spk : list Z)
    (aec : option AEC) (ns : option Preprocessor) (w : CState) (n : nat) :
  0 < n → frameTotal n spk < frameTotal n mic →
  FrameSize config = Z.of_nat n → needsSpeakerFile config = true →
  componentsReady config aec ns = true →
  Main.frameSize f = Z.of_nat n → Main.speakerNeeded f = true →
  mainReady f aec ns = true →
  (∃ tr, Processor.processAudio config mic spk aec ns w = (Finished, tr) ∧
         length (writes tr) = frameTotal n spk ∧
         length (farEndFrames tr) = frameTotal n spk ∧
         length (output tr) = frameTotal n spk * n) ∧
  (∃ tr, Main.processAEC f mic spk aec ns w = (Finished, tr) ∧
         length (writes tr) = frameTotal n spk ∧
         length (farEndFrames tr) = frameTotal n spk ∧
         length (output tr) = frameTotal n spk * n).
Proof.
  intros Hn Hlt Hf Hneeds Hready Hf' Hneeds' Hready'. split.
  - destruct (processAudio_writes config aec ns n mic spk w)
      as (tr & Hrun & Hlen & Hall & Hfar); [done..|].
    rewrite Hneeds in Hlen. rewrite Nat.min_r in Hlen by lia.
    exists tr. repeat split; try done.
    + by rewrite Hfar.
    + unfold output. by rewrite (length_concat_sized n), Hlen.
  - destruct (processAEC_writes f aec ns n mic spk w)
      as (tr & Hrun & Hlen & Hall & Hfar); [done..|].
    rewrite Hneeds' in Hlen. rewrite Nat.min_r in Hlen by lia.
    exists tr. repeat split; try done.
    + by rewrite Hfar.
    + unfold output. by rewrite (length_concat_sized n), Hlen.
Qed.

(** A microphone file of nine bytes, a speaker file of five, frames of
    four bytes: two frames are written, not three. *)
Lemma C7_nine_against_five :
  (∃ tr, Processor.processAudio (H := DirectCodec)
           (exampleConfig ModeAECOnly 4 false)
           [213; 85; 0; 1; 2; 3; 4; 5; 6]%Z [1; 2; 3; 4; 5]%Z (toyAEC 4) None 0
         = (Finished, tr) ∧
         length (writes tr) = 2 ∧ length (farEndFrames tr) = 2 ∧
         length (output tr) = 8) ∧
  (∃ tr, Main.processAEC (H := DirectCodec)
           (exampleFlags false false true false 4)
           [213; 85; 0; 1; 2; 3; 4; 5; 6]%Z [1; 2; 3; 4; 5]%Z (toyAEC 4) None 0
         = (Finished, tr) ∧
         length (writes tr) = 2 ∧ length (farEndFrames tr) = 2 ∧
         length (output tr) = 8).
Proof.
  apply (C7_far_end_runs_out_first (H := DirectCodec) (H0 := ToyDSP)
           (exampleConfig ModeAECOnly 4 false) (exampleFlags false false true false 4)
           [213; 85; 0; 1; 2; 3; 4; 5; 6]%Z [1; 2; 3; 4; 5]%Z (toyAEC 4) None 0 4);
    vm_compute; (reflexivity || lia).
Defined.

(** C6: in a mode without speaker file, a microphone file whose length is
    not a multiple of the frame size (hence not empty) is processed in
    [length / frameSize + 1] passes; the frames decoded are the frames of
    the file, the last of them its remaining bytes followed by silence
    bytes 0xD5 up to the frame size, and one frame is written per pass.
    Every one of these frames, the padded last one included, goes through
    the stages of its mode: in the NS-only mode the decoded frames are the
    inputs of [Preprocessor.ProcessFrame], call after call, and what the
    calls return is what is encoded; in the bypass and test-alaw modes
    the decoded frames are encoded as they are; and the frames written
    are the encodings, frame by frame. *)
Theorem C6_short_last_frame_is_padded `{Codec} `{SpeexDSP}
    (config : Config) (mic spk : list Z)
    (aec : option AEC) (ns : option Preprocessor) (w : CState) (n : nat) :
  0 < n → FrameSize config = Z.of_nat n →
  needsSpeakerFile config = false →
  componentsReady config aec ns = true →
  length mic mod n ≠ 0 →
  ∃ tr, Processor.processAudio config mic spk aec ns w = (Finished, tr) ∧
        length (writes tr) = S (length mic / n) ∧
        length (output tr) = S (length mic / n) * n ∧
        decodes tr = frames n mic ∧
        frames n mic !! (length mic / n)
        = Some (drop (length mic / n * n) mic
                ++ replicate (n - length mic mod n) 213%Z) ∧
        writes tr = (fmap (M := list) PCM16ToAlaw <$> encodes tr) ∧
        (Mode config ≠ ModeNSOnly →
         nsInputs tr = [] ∧
         encodes tr = (fmap (M := list) AlawToPCM16 <$> frames n mic)) ∧
        (∀ p, Mode config = ModeNSOnly → ns = Some p →
           nsInputs tr = (fmap (M := list) AlawToPCM16 <$> frames n mic) ∧
           encodes tr = nsOutputs p w (fmap (M := list) AlawToPCM16 <$> frames n mic)).
Proof.
  intros Hn Hf Hneeds Hready Hpart.
  destruct (processAudio_writes config aec ns n mic spk w)
    as (tr & Hrun & Hlen & Hall & _); [done..|].
  rewrite Hneeds, frameTotal_partial in Hlen by done.
  destruct (processAudio_no_speaker config aec ns n mic spk w)
    as (tr' & Hrun' & Hdec & Hwr & Hplain & Hns); [done..|].
  assert (tr' = tr) as -> by congruence.
  exists tr. split; [done|]. split; [done|]. split.
  { unfold output. by rewrite (length_concat_sized n), Hlen. }
  split; [done|]. split; [|done].
  unfold frames. rewrite list_lookup_fmap, lookup_seq_lt.
  - simpl. by rewrite frameAt_last.
  - rewrite frameTotal_partial by done. lia.
Qed.

(** A stream of 321 bytes, 320 of them 0x55 and the last 0x54, in NS-only
    mode with frames of 320 bytes: two frames, 640 bytes; the second frame
    is the byte 0x54 followed by 319 silence bytes, and it is decoded,
    handed to the noise suppressor, and its output encoded and written
    like the first. *)
Lemma C6_321_bytes_ns_only :
  ∃ tr, Processor.processAudio (H := DirectCodec)
          (exampleConfig ModeNSOnly 320 false) (replicate 320 85%Z ++ [84%Z]) []
          None (toyNS 320) 0
        = (Finished, tr) ∧
        length (writes tr) = 2 ∧
        length (output tr) = 640 ∧
        decodes tr = frames 320 (replicate 320 85%Z ++ [84%Z]) ∧
        frames 320 (replicate 320 85%Z ++ [84%Z]) !! 1
        = Some (84%Z :: replicate 319 213%Z) ∧
        writes tr = (fmap (M := list) (PCM16ToAlaw (Codec := DirectCodec)) <$> encodes tr) ∧
        nsInputs tr
        = (fmap (M := list) (AlawToPCM16 (Codec := DirectCodec))
             <$> frames 320 (replicate 320 85%Z ++ [84%Z])) ∧
        encodes tr
        = nsOutputs (@Build_Preprocessor ToyDSP tt 320) 0
            (fmap (M := list) (AlawToPCM16 (Codec := DirectCodec))
               <$> frames 320 (replicate 320 85%Z ++ [84%Z])).
Proof.
  destruct (C6_short_last_frame_is_padded (H := DirectCodec) (H0 := ToyDSP)
              (exampleConfig ModeNSOnly 320 false) (replicate 320 85%Z ++ [84%Z]) []
              None (toyNS 320) 0 320)
    as (tr & Hrun & Hlen & Hout & Hdec & Hlast & Hwr & _ & Hns);
    [vm_compute; (reflexivity || lia || discriminate)..|].
  destruct (Hns (@Build_Preprocessor ToyDSP tt 320) eq_refl eq_refl) as [Hin Henc].
  exists tr. split; [exact Hrun|]. split; [exact Hlen|]. split; [exact Hout|].
  split; [exact Hdec|]. split; [exact Hlast|]. split; [exact Hwr|].
  split; [exact Hin|exact Henc].
Defined.

(** C5: with delay compensation in a mode that needs the speaker file,
    the far-end frames handed to the engine are, pass by pass, the silent
    frame of zeros followed by the decoded speaker frames, each one pass
    late; and within a pass the engine receives the frame retained before
    the pass, while the frame retained after the pass is the speaker
    frame decoded in it. *)
Theorem C5_delay_compensation `{Codec} `{SpeexDSP}
    (config : Config) (mic spk : list Z)
    (aec : option AEC) (ns : option Preprocessor) (w : CState) (n : nat) :
  0 < n → FrameSize config = Z.of_nat n →
  needsSpeakerFile config = true → UsePrevSpeaker config = true →
  componentsReady config aec ns = true →
  (∃ tr, Processor.processAudio config mic spk aec ns w = (Finished, tr) ∧
         farEndFrames tr =
           take (Nat.min (frameTotal n mic) (frameTotal n spk))
                (replicate n 0%Z :: (fmap (M := list) AlawToPCM16 <$> frames n spk))) ∧
  (∀ s, Sized n true s → stops true s = false →
        ∃ s' evs, Processor.step config aec ns s = Some (Continue s' evs) ∧
                  farEndFrames evs = [prevSpeakerPcmFrame s] ∧
                  prevSpeakerPcmFrame s' = AlawToPCM16 <$> frameAt n (speakerFile s) 0).
Proof.
  intros Hn Hf Hneeds Hprev Hready. split.
  - destruct (processAudio_run config aec ns n
                (λ s tr, farEndFrames tr =
                   take (passes n true s)
                        (prevSpeakerPcmFrame s
                         :: (fmap (M := list) AlawToPCM16 <$> frames n (speakerFile s)))))
      with (mic := mic) (spk := spk) (w := w) as (s0 & tr & Hinit & Hrun & Hfar);
      [done..| | |].
    + intros s Hstop. rewrite Hneeds in Hstop. by rewrite passes_stop.
    + intros s s' evs tr Hstop Hfacts _ IH.
      rewrite Hneeds, Hprev in *.
      destruct Hfacts as (Hm & Hs & Hsp & Hp & _ & _ & _ & Hfe).
      rewrite (passes_pass n true s s') by done.
      rewrite farEndFrames_app, Hfe, IH, Hp, Hsp, Hs. simpl.
      rewrite (frames_cons n (speakerFile s)) by eauto using stops_false_spk.
      done.
    + destruct (initState_ok n (UsePrevSpeaker config) mic spk w)
        as (s1 & Hinit1 & _ & Hmic & Hspk & Hzero & _).
      assert (s1 = s0) as -> by congruence.
      exists tr. split; [done|].
      rewrite Hfar. unfold passes. by rewrite Hmic, Hspk, (Hzero Hprev).
  - intros s Hs Hstop.
    destruct (step_pass config aec ns s n) as (s' & evs & Hstep & _ & Hfacts & _);
      [by rewrite ?Hprev, ?Hneeds..|].
    rewrite Hneeds, Hprev in Hfacts.
    destruct Hfacts as (_ & _ & Hsp & Hp & _ & _ & _ & Hfe).
    exists s', evs. by rewrite Hp, Hsp.
Qed.

(** Three microphone frames against three speaker frames of four bytes:
    the engine sees silence, then the first and the second speaker frame. *)
Lemma C5_three_frames :
  (∃ tr, Processor.processAudio (H := DirectCodec)
           (exampleConfig ModeAECOnly 4 true)
           [213; 85; 0; 1; 2; 3; 4; 5; 6]%Z [1; 2; 3; 4; 5; 6; 7; 8; 9]%Z
           (toyAEC 4) None 0
         = (Finished, tr) ∧
         farEndFrames tr =
           [[0; 0; 0; 0]; [-5248; -6016; -5760; -4480]; [-4224; -4992; -4736; -7552]]%Z) ∧
  (∀ s, Sized 4 true s → stops true s = false →
        ∃ s' evs,
          Processor.step (H := DirectCodec) (exampleConfig ModeAECOnly 4 true)
            (toyAEC 4) None s = Some (Continue s' evs) ∧
          farEndFrames evs = [prevSpeakerPcmFrame s] ∧
          prevSpeakerPcmFrame s'
          = AlawToPCM16 (Codec := DirectCodec) <$> frameAt 4 (speakerFile s) 0).
Proof.
  apply (C5_delay_compensation (H := DirectCodec) (H0 := ToyDSP)
           (exampleConfig ModeAECOnly 4 true)
           [213; 85; 0; 1; 2; 3; 4; 5; 6]%Z [1; 2; 3; 4; 5; 6; 7; 8; 9]%Z
           (toyAEC 4) None 0 4);
    vm_compute; (reflexivity || lia).
Defined.

(** C2: what the two loops do in bypass mode, on a microphone file of
    bytes.  [Processor.processAudio] (with the codec of its [audio]
    package) hands every frame to [AlawBufferToPCM16] and the result to
    [PCM16BufferToAlaw] and writes what comes back, which is the padded
    input frame again; [processAEC] hands every frame to
    [AlawBufferToPCM16] too but never calls [PCM16BufferToAlaw] and writes
    a copy of the padded input frame. *)
Theorem C2_bypass_in_both_loops `{SpeexDSP} (C : Codec)
    (config : Config) (f : Main.Flags) (mic spk : list Z)
    (aec : option AEC) (ns : option Preprocessor) (w : CState) (n : nat) :
  0 < n → Forall is_uint8 mic →
  FrameSize config = Z.of_nat n → Mode config = ModeBypass →
  Main.frameSize f = Z.of_nat n → Main.bypass f = true →
  (∃ tr, Processor.processAudio (H := DirectCodec) config mic spk aec ns w
         = (Finished, tr) ∧
         writes tr = frames n mic ∧
         decodes tr = frames n mic ∧
         encodes tr = (fmap (M := list) G711.AlawToPCM16 <$> frames n mic)) ∧
  (∃ tr, Main.processAEC (H := C) f mic spk aec ns w = (Finished, tr) ∧
         writes tr = frames n mic ∧
         decodes tr = frames n mic ∧
         encodes tr = []).
Proof.
  intros Hn Hbytes Hf Hmode Hf' Hby. split.
  - assert (Hneeds : needsSpeakerFile config = false).
    { unfold needsSpeakerFile. by rewrite Hmode. }
    destruct (processAudio_run (H := DirectCodec) config aec ns n
                (λ s tr, Forall is_uint8 (micFile s) →
                   writes tr = frames n (micFile s) ∧
                   decodes tr = frames n (micFile s) ∧
                   encodes tr = (fmap (M := list) G711.AlawToPCM16 <$> frames n (micFile s))))
      with (mic := mic) (spk := spk) (w := w) as (s0 & tr & Hinit & Hrun & HP);
      [done|done| | | |].
    + unfold componentsReady. by rewrite Hmode.
    + intros s Hstop _. unfold stops in Hstop. rewrite Hneeds in Hstop.
      destruct (micFile s); [|done]. by rewrite frames_nil.
    + intros s s' evs tr Hstop Hfacts Hplain IH Hb.
      destruct Hfacts as (Hm & _).
      rewrite Hplain by (done || by rewrite Hmode).
      destruct IH as (Hw & Hd & He); [rewrite Hm; by apply Forall_drop|].
      rewrite writes_app, decodes_app, encodes_app, Hw, Hd, He, Hm.
      rewrite (frames_cons n (micFile s)) by eauto using stops_false_mic.
      simpl. rewrite G711_roundtrip_frame by (by apply frameAt_uint8). done.
    + destruct (initState_ok n (UsePrevSpeaker config) mic spk w)
        as (s1 & Hinit1 & _ & Hmic & _).
      assert (s1 = s0) as -> by congruence. rewrite Hmic in HP.
      exists tr. split; [done|]. by apply HP.
  - destruct (processAEC_run (H := C) f aec ns n
                (λ s tr, writes tr = frames n (micFile s) ∧
                         decodes tr = frames n (micFile s) ∧
                         encodes tr = []))
      with (mic := mic) (spk := spk) (w := w) as (s0 & tr & Hinit & Hrun & HP);
      [done|done| | | |].
    + unfold mainReady. by rewrite Hby.
    + intros s Hstop. unfold stops, Main.speakerNeeded in Hstop.
      rewrite Hby, andb_false_r in Hstop.
      destruct (micFile s); [|done]. by rewrite frames_nil.
    + intros s s' evs tr Hstop Hfacts Hcopy (Hw & Hd & He).
      destruct Hfacts as (Hm & _).
      rewrite (Hcopy Hby).
      rewrite writes_app, decodes_app, encodes_app, Hw, Hd, He, Hm.
      rewrite (frames_cons n (micFile s)) by eauto using stops_false_mic.
      done.
    + destruct (initState_ok n (Main.usePrevSpeaker f) mic spk w)
        as (s1 & Hinit1 & _ & Hmic & _).
      assert (s1 = s0) as -> by congruence. rewrite Hmic in HP.
      exists tr. by split.
Qed.

(** Five bytes in frames of four: [Processor] in bypass mode decodes and
    encodes both frames; [processAEC] with the table-driven codec of
    [alaw.go] decodes them and encodes nothing. *)
Lemma C2_five_bytes_bypass :
  (∃ tr, Processor.processAudio (H := DirectCodec) (H0 := ToyDSP)
           (exampleConfig ModeBypass 4 false) [213; 85; 0; 1; 2]%Z [] None None 0
         = (Finished, tr) ∧
         writes tr = [[213; 85; 0; 1]; [2; 213; 213; 213]]%Z ∧
         decodes tr = [[213; 85; 0; 1]; [2; 213; 213; 213]]%Z ∧
         encodes tr = [[8; -8; -5504; -5248]; [-6016; 8; 8; 8]]%Z) ∧
  (∃ tr, Main.processAEC (H := TableCodec) (H0 := ToyDSP)
           (exampleFlags true false false false 4) [213; 85; 0; 1; 2]%Z [] None None 0
         = (Finished, tr) ∧
         writes tr = [[213; 85; 0; 1]; [2; 213; 213; 213]]%Z ∧
         decodes tr = [[213; 85; 0; 1]; [2; 213; 213; 213]]%Z ∧
         encodes tr = []).
Proof.
  apply (C2_bypass_in_both_loops (H := ToyDSP) TableCodec
           (exampleConfig ModeBypass 4 false) (exampleFlags true false false false 4)
           [213; 85; 0; 1; 2]%Z [] None None 0 4);
    try (vm_compute; (reflexivity || lia)).
  repeat constructor; unfold is_uint8; lia.
Defined.

(** * Further properties of the code *)

(** ** Codec *)

Lemma range_from_elem p : ∀ start x,
  (start <= x < start + Z.pos p)%Z → x ∈ range_from p start.
Proof.
  induction p as [q IH|q IH|]; intros start x Hx; simpl.
  - destruct (decide (x = start)) as [->|Hne]; [by left|]. right.
    apply elem_of_app.
    destruct (decide (x < start + 1 + Z.pos q)%Z); [left|right]; apply IH; lia.
  - apply elem_of_app.
    destruct (decide (x < start + Z.pos q)%Z); [left|right]; apply IH; lia.
  - assert (x = start) as -> by lia. by left.
Qed.

Lemma int16_cases (P : Z → bool) :
  forallb P all_int16 = true → ∀ x, is_int16 x → P x = true.
Proof.
  intros Hall x Hx. rewrite forallb_forall in Hall. apply Hall.
  apply list_elem_of_In, range_from_elem. unfold is_int16 in Hx. lia.
Qed.

Lemma search_from_spec size : ∀ table i val,
  size ≤ length table →
  (i <= G711.search_from i val table size <= i + Z.of_nat size)%Z ∧
  (∀ j t, (Z.of_nat j < G711.search_from i val table size - i)%Z →
          table !! j = Some t → (t < val)%Z) ∧
  ((G711.search_from i val table size < i + Z.of_nat size)%Z →
   ∃ t, table !! Z.to_nat (G711.search_from i val table size - i) = Some t ∧
        (val <= t)%Z).
Proof.
  induction size as [|size IH]; intros table i val Hlen.
  - destruct table; simpl; (split; [lia|split; intros; lia]).
  - destruct table as [|t0 table]; [simpl in Hlen; lia|]. simpl.
    destruct (Z.leb_spec val t0) as [Hle|Hgt].
    + split; [lia|split].
      * intros; lia.
      * intros _. exists t0. by rewrite Z.sub_diag.
    + destruct (IH table (i + 1)%Z val) as (Hr & Hbelow & Hat); [simpl in Hlen; lia|].
      split; [lia|split].
      * intros [|j] t Hj; simpl; [intros [= <-]; lia|].
        intros Ht. apply (Hbelow j t); [lia|done].
      * intros Hlt. destruct Hat as (t & Ht & Hvt); [lia|].
        exists t. split; [|done].
        replace (Z.to_nat (G711.search_from (i + 1) val table size - i))
          with (S (Z.to_nat (G711.search_from (i + 1) val table size - (i + 1))))
          by lia.
        done.
Qed.

(** X1: [search] returns the first index, among the first [size] entries
    of the table, whose entry is not below the value, and [size] when
    there is none: the result lies in [0..size], every entry before it is
    below the value, and the entry at it (when it is below [size]) is not. *)
Theorem X1_search_first_fit (val : Z) (table : list Z) (size : nat) :
  size ≤ length table →
  (0 <= G711.search val table size <= Z.of_nat size)%Z ∧
  (∀ j t, (Z.of_nat j < G711.search val table size)%Z →
          table !! j = Some t → (t < val)%Z) ∧
  ((G711.search val table size < Z.of_nat size)%Z →
   ∃ t, table !! Z.to_nat (G711.search val table size) = Some t ∧ (val <= t)%Z).
Proof.
  intros Hlen. unfold G711.search.
  destruct (search_from_spec size table 0%Z val Hlen) as (Hr & Hbelow & Hat).
  split; [lia|split].
  - intros j t Hj. apply Hbelow. lia.
  - intros Hlt. destruct Hat as (t & Ht & Hvt); [lia|].
    exists t. by rewrite Z.sub_0_r in Ht.
Qed.

(** The segment table and the value 100: segment 3. *)
Lemma X1_search_segAend :
  (0 <= G711.search 100 G711.segAend 8 <= Z.of_nat 8)%Z ∧
  (∀ j t, (Z.of_nat j < G711.search 100 G711.segAend 8)%Z →
          G711.segAend !! j = Some t → (t < 100)%Z) ∧
  ((G711.search 100 G711.segAend 8 < Z.of_nat 8)%Z →
   ∃ t, G711.segAend !! Z.to_nat (G711.search 100 G711.segAend 8) = Some t ∧
        (100 <= t)%Z).
Proof. apply (X1_search_first_fit 100 G711.segAend 8). simpl. lia. Defined.

(** X2: [Linear2Alaw] returns a byte for every 16-bit sample, and
    re-encoding the decoded byte gives the same byte again: one pass
    through the codec already yields a fixed point. *)
Theorem X2_encode_is_byte_and_stable (x : Z) :
  is_int16 x →
  is_uint8 (G711.Linear2Alaw x) ∧
  G711.Linear2Alaw (G711.Alaw2Linear (G711.Linear2Alaw x)) = G711.Linear2Alaw x.
Proof.
  intros Hx.
  assert (Hb : is_uint8 (G711.Linear2Alaw x)).
  { pose proof (int16_cases
      (λ x, (0 <=? G711.Linear2Alaw x)%Z && (G711.Linear2Alaw x <? 256)%Z)
      ltac:(vm_compute; reflexivity) x Hx) as Hall.
    apply andb_prop in Hall as [Hlo%Z.leb_le Hhi%Z.ltb_lt]. by split. }
  split; [done|]. by apply G711_roundtrip.
Qed.

Lemma X2_at_1000 :
  is_uint8 (G711.Linear2Alaw 1000) ∧
  G711.Linear2Alaw (G711.Alaw2Linear (G711.Linear2Alaw 1000)) = G711.Linear2Alaw 1000.
Proof. apply (X2_encode_is_byte_and_stable 1000). unfold is_int16. lia. Defined.

(** X3: the quantization error of the direct codec: decoding the code of
    a 16-bit sample [x] gives a sample that differs from [x] by at most 8
    for small samples and by at most 1/32 of the magnitude otherwise. *)
Theorem X3_quantization_error (x : Z) :
  is_int16 x →
  (Z.abs (G711.Alaw2Linear (G711.Linear2Alaw x) - x) <= Z.max 8 (Z.abs x / 32))%Z.
Proof.
  intros Hx. apply Z.leb_le.
  apply (int16_cases
    (λ x, (Z.abs (G711.Alaw2Linear (G711.Linear2Alaw x) - x)
           <=? Z.max 8 (Z.abs x / 32))%Z)); [|done].
  vm_compute. reflexivity.
Qed.

Lemma X3_at_minus_20000 :
  (Z.abs (G711.Alaw2Linear (G711.Linear2Alaw (-20000)) - (-20000))
   <= Z.max 8 (Z.abs (-20000) / 32))%Z.
Proof. apply (X3_quantization_error (-20000)). unfold is_int16. lia. Defined.

Lemma quantize_step (x : Z) :
  (-32768 <= x < 32767)%Z →
  (G711.Alaw2Linear (G711.Linear2Alaw x)
   <= G711.Alaw2Linear (G711.Linear2Alaw (x + 1)))%Z.
Proof.
  intros Hx.
  apply Z.leb_le.
  pose proof (int16_cases
    (λ x, (x =? 32767)%Z
          || (G711.Alaw2Linear (G711.Linear2Alaw x)
              <=? G711.Alaw2Linear (G711.Linear2Alaw (x + 1)))%Z)
    ltac:(vm_compute; reflexivity) x ltac:(unfold is_int16; lia)) as Hstep.
  simpl in Hstep. destruct (Z.eqb_spec x 32767); [lia|done].
Qed.

(** X4: quantization by the direct codec is monotone: a larger sample
    never comes back from encode and decode smaller than a smaller one. *)
Theorem X4_quantization_monotone (x y : Z) :
  is_int16 x → is_int16 y → (x <= y)%Z →
  (G711.Alaw2Linear (G711.Linear2Alaw x) <= G711.Alaw2Linear (G711.Linear2Alaw y))%Z.
Proof.
  intros Hx Hy Hxy.
  assert (Hk : ∀ k : nat, (x + Z.of_nat k < 32768)%Z →
    (G711.Alaw2Linear (G711.Linear2Alaw x)
     <= G711.Alaw2Linear (G711.Linear2Alaw (x + Z.of_nat k)))%Z).
  { induction k as [|k IH]; intros Hk.
    - rewrite Z.add_0_r. lia.
    - etrans; [apply IH; lia|].
      replace (x + Z.of_nat (S k))%Z with (x + Z.of_nat k + 1)%Z by lia.
      apply quantize_step. unfold is_int16 in Hx. lia. }
  replace y with (x + Z.of_nat (Z.to_nat (y - x)))%Z by lia.
  apply Hk. unfold is_int16 in Hy. lia.
Qed.

Lemma X4_between_100_and_101 :
  (G711.Alaw2Linear (G711.Linear2Alaw 100) <= G711.Alaw2Linear (G711.Linear2Alaw 101))%Z.
Proof.
  apply (X4_quantization_monotone 100 101); unfold is_int16; lia.
Defined.

(** X5: the direct encoder treats the two signs alike: the code of
    [-x - 1] is the code of [x] with the sign bit flipped, for every
    non-negative 16-bit sample [x]. *)
Theorem X5_encode_sign_symmetry (x : Z) :
  (0 <= x < 32768)%Z →
  G711.Linear2Alaw (- x - 1) = Z.lxor (G711.Linear2Alaw x) 128.
Proof.
  intros Hx. apply Z.eqb_eq.
  pose proof (int16_cases
    (λ x, (x <? 0)%Z
          || (G711.Linear2Alaw (- x - 1) =? Z.lxor (G711.Linear2Alaw x) 128)%Z)
    ltac:(vm_compute; reflexivity) x ltac:(unfold is_int16; lia)) as Hall.
  simpl in Hall. destruct (Z.ltb_spec x 0); [lia|done].
Qed.

Lemma X5_at_1000 :
  G711.Linear2Alaw (- 1000 - 1) = Z.lxor (G711.Linear2Alaw 1000) 128.
Proof. apply (X5_encode_sign_symmetry 1000). lia. Defined.

(** X6: both decoders, on every byte: flipping the sign bit of the code
    negates the sample, the sample is positive exactly when the sign bit
    is set, and its magnitude lies between 8 and 32256, so it never is 0
    and always fits 16 bits. *)
Theorem X6_decode_sign_and_range (b : Z) :
  is_uint8 b →
  (G711.Alaw2Linear (Z.lxor b 128) = - G711.Alaw2Linear b ∧
   Alaw.AlawToPCM16 (Z.lxor b 128) = - Alaw.AlawToPCM16 b ∧
   (0 < G711.Alaw2Linear b ↔ 128 <= b) ∧
   (0 < Alaw.AlawToPCM16 b ↔ 128 <= b) ∧
   8 <= Z.abs (G711.Alaw2Linear b) <= 32256 ∧
   8 <= Z.abs (Alaw.AlawToPCM16 b) <= 32256)%Z.
Proof.
  intros Hb.
  pose proof (uint8_cases
    (λ b, (G711.Alaw2Linear (Z.lxor b 128) =? - G711.Alaw2Linear b)%Z
          && (Alaw.AlawToPCM16 (Z.lxor b 128) =? - Alaw.AlawToPCM16 b)%Z
          && Bool.eqb (0 <? G711.Alaw2Linear b)%Z (128 <=? b)%Z
          && Bool.eqb (0 <? Alaw.AlawToPCM16 b)%Z (128 <=? b)%Z
          && (8 <=? Z.abs (G711.Alaw2Linear b))%Z
          && (Z.abs (G711.Alaw2Linear b) <=? 32256)%Z
          && (8 <=? Z.abs (Alaw.AlawToPCM16 b))%Z
          && (Z.abs (Alaw.AlawToPCM16 b) <=? 32256)%Z)
    ltac:(vm_compute; reflexivity) b Hb) as Hall.
  simpl in Hall.
  apply andb_prop in Hall as [Hall Ht2]. apply andb_prop in Hall as [Hall Ht1].
  apply andb_prop in Hall as [Hall Hg2]. apply andb_prop in Hall as [Hall Hg1].
  apply andb_prop in Hall as [Hall Hst]. apply andb_prop in Hall as [Hall Hsg].
  apply andb_prop in Hall as [Hfg Hft].
  apply Z.eqb_eq in Hfg, Hft. apply Z.leb_le in Ht1, Ht2, Hg1, Hg2.
  apply Bool.eqb_prop in Hsg, Hst.
  split; [done|]. split; [done|]. split; [|split; [|done]].
  - split.
    + intros Hpos. apply Z.leb_le. rewrite <- Hsg. by apply Z.ltb_lt.
    + intros Hhi. apply Z.ltb_lt. rewrite Hsg. by apply Z.leb_le.
  - split.
    + intros Hpos. apply Z.leb_le. rewrite <- Hst. by apply Z.ltb_lt.
    + intros Hhi. apply Z.ltb_lt. rewrite Hst. by apply Z.leb_le.
Qed.

Lemma X6_at_silence :
  (G711.Alaw2Linear (Z.lxor 213 128) = - G711.Alaw2Linear 213 ∧
   Alaw.AlawToPCM16 (Z.lxor 213 128) = - Alaw.AlawToPCM16 213 ∧
   (0 < G711.Alaw2Linear 213 ↔ 128 <= 213) ∧
   (0 < Alaw.AlawToPCM16 213 ↔ 128 <= 213) ∧
   8 <= Z.abs (G711.Alaw2Linear 213) <= 32256 ∧
   8 <= Z.abs (Alaw.AlawToPCM16 213) <= 32256)%Z.
Proof. apply (X6_decode_sign_and_range 213). unfold is_uint8. lia. Defined.

(** [init] fills the table with what [pcm16ToAlawDirect] computes. *)
Lemma alawEncodeTable_init :
  Alaw.alawEncodeTable
  = (λ i, Alaw.pcm16ToAlawDirect (to_int16 (Z.of_nat i))) <$> seq 0 4096.
Proof. vm_compute. reflexivity. Qed.

Lemma to_int16_id (x : Z) : (-32768 <= x < 32768)%Z → to_int16 x = x.
Proof. intros Hx. unfold to_int16. rewrite Z.mod_small; lia. Qed.

Lemma to_int16_neg_pred (x : Z) :
  (-32768 <= x < 0)%Z → to_int16 (to_int16 (- x) - 1) = (- x - 1)%Z.
Proof.
  intros Hx. unfold to_int16.
  destruct (decide (x = -32768)%Z) as [->|Hne]; [by vm_compute|].
  rewrite (Z.mod_small (- x + 32768)) by lia.
  rewrite Z.mod_small; lia.
Qed.

Lemma index_alawEncodeTable (i : Z) :
  (0 <= i < 4096)%Z → Alaw.index Alaw.alawEncodeTable i = Alaw.pcm16ToAlawDirect i.
Proof.
  intros Hi. unfold Alaw.index. rewrite alawEncodeTable_init.
  rewrite list_lookup_fmap, lookup_seq_lt by lia. simpl.
  rewrite Z2Nat.id by lia. by rewrite to_int16_id by lia.
Qed.

(** The negative branch of [pcm16ToAlawDirect] is the positive one with
    the top bit flipped. *)
Lemma pcm16ToAlawDirect_neg (x : Z) :
  (-32768 <= x < 0)%Z →
  Alaw.pcm16ToAlawDirect x = Z.lxor (Alaw.pcm16ToAlawDirect (- x - 1)) 128.
Proof.
  intros Hx. unfold Alaw.pcm16ToAlawDirect.
  destruct (Z.leb_spec 0 x); [lia|].
  destruct (Z.leb_spec 0 (- x - 1)); [|lia].
  rewrite to_int16_neg_pred by lia.
  assert (Hsh : (0 <= Z.shiftr (- x - 1) 4)%Z) by (apply Z.shiftr_nonneg; lia).
  destruct (Z.ltb_spec (Z.shiftr (- x - 1) 4) 0); [lia|].
  destruct (8 <=? _)%Z.
  - by rewrite Z.lxor_0_r.
  - by rewrite Z.lxor_0_r.
Qed.

(** X7: the encoder of [alaw.go] on 16-bit samples: inside
    [-4096, 4095] the table gives exactly what [pcm16ToAlawDirect]
    computes, and outside that range it saturates at the codes of 4095
    and of -4096. *)
Theorem X7_table_encoder_is_clamped_direct (x : Z) :
  is_int16 x →
  ((-4096 <= x < 4096 → Alaw.PCM16ToAlaw x = Alaw.pcm16ToAlawDirect x) ∧
   (4096 <= x → Alaw.PCM16ToAlaw x = Alaw.pcm16ToAlawDirect 4095) ∧
   (x < -4096 → Alaw.PCM16ToAlaw x = Alaw.pcm16ToAlawDirect (-4096)))%Z.
Proof.
  intros Hx. unfold is_int16 in Hx. unfold Alaw.PCM16ToAlaw.
  split; [|split]; intros Hr.
  - destruct (Z.leb_spec 0 x).
    + destruct (Z.leb_spec 4096 x); [lia|]. by apply index_alawEncodeTable.
    + rewrite to_int16_neg_pred by lia.
      destruct (Z.leb_spec 4096 (- x - 1)); [lia|].
      rewrite index_alawEncodeTable by lia.
      symmetry. apply pcm16ToAlawDirect_neg. lia.
  - destruct (Z.leb_spec 0 x); [|lia].
    destruct (Z.leb_spec 4096 x); [|lia]. by apply index_alawEncodeTable.
  - destruct (Z.leb_spec 0 x); [lia|].
    rewrite to_int16_neg_pred by lia.
    destruct (Z.leb_spec 4096 (- x - 1)); [|lia].
    rewrite index_alawEncodeTable by lia.
    by rewrite (pcm16ToAlawDirect_neg (-4096)) by lia.
Qed.

Lemma X7_at_5000 :
  ((-4096 <= 5000 < 4096 → Alaw.PCM16ToAlaw 5000 = Alaw.pcm16ToAlawDirect 5000) ∧
   (4096 <= 5000 → Alaw.PCM16ToAlaw 5000 = Alaw.pcm16ToAlawDirect 4095) ∧
   (5000 < -4096 → Alaw.PCM16ToAlaw 5000 = Alaw.pcm16ToAlawDirect (-4096)))%Z.
Proof. apply (X7_table_encoder_is_clamped_direct 5000). unfold is_int16. lia. Defined.

Lemma alawEncodeTable_bytes (i : Z) :
  (0 <= i < 4096)%Z → is_uint8 (Alaw.index Alaw.alawEncodeTable i).
Proof.
  intros Hi.
  assert (Hall : Forall is_uint8 Alaw.alawEncodeTable).
  { apply Forall_forall. intros t Ht.
    assert (Hb : forallb (λ t, (0 <=? t)%Z && (t <? 256)%Z) Alaw.alawEncodeTable = true)
      by (vm_compute; reflexivity).
    rewrite forallb_forall in Hb. apply list_elem_of_In, Hb in Ht.
    apply andb_prop in Ht as [Hlo%Z.leb_le Hhi%Z.ltb_lt]. by split. }
  unfold Alaw.index.
  destruct (lookup_lt_is_Some_2 Alaw.alawEncodeTable (Z.to_nat i)) as [t Ht].
  { replace (length Alaw.alawEncodeTable) with 4096 by (vm_compute; reflexivity). lia. }
  rewrite Ht. simpl. by eapply Forall_lookup_1.
Qed.

Lemma lxor_128_byte (t : Z) : is_uint8 t → is_uint8 (Z.lxor t 128).
Proof.
  intros Ht.
  pose proof (uint8_cases (λ t, (0 <=? Z.lxor t 128)%Z && (Z.lxor t 128 <? 256)%Z)
                ltac:(vm_compute; reflexivity) t Ht) as Hall.
  simpl in Hall. apply andb_prop in Hall as [Hlo%Z.leb_le Hhi%Z.ltb_lt]. by split.
Qed.

(** X8: the encoder of [alaw.go] returns a byte for every 16-bit sample,
    and the code of [-x - 1] is the code of [x] with the top bit flipped,
    for every non-negative sample [x]. *)
Theorem X8_table_encoder_byte_and_sign (x : Z) :
  is_int16 x →
  is_uint8 (Alaw.PCM16ToAlaw x) ∧
  ((0 <= x)%Z → Alaw.PCM16ToAlaw (- x - 1) = Z.lxor (Alaw.PCM16ToAlaw x) 128).
Proof.
  intros Hx. unfold is_int16 in Hx. split.
  - unfold Alaw.PCM16ToAlaw.
    destruct (Z.leb_spec 0 x).
    + destruct (Z.leb_spec 4096 x); apply alawEncodeTable_bytes; lia.
    + rewrite to_int16_neg_pred by lia. apply lxor_128_byte.
      destruct (Z.leb_spec 4096 (- x - 1)); apply alawEncodeTable_bytes; lia.
  - intros Hpos. unfold Alaw.PCM16ToAlaw.
    destruct (Z.leb_spec 0 (- x - 1)); [lia|].
    destruct (Z.leb_spec 0 x); [|lia].
    rewrite to_int16_neg_pred by lia.
    by replace (- (- x - 1) - 1)%Z with x by lia.
Qed.

Lemma X8_at_1000 :
  is_uint8 (Alaw.PCM16ToAlaw 1000) ∧
  ((0 <= 1000)%Z → Alaw.PCM16ToAlaw (- 1000 - 1) = Z.lxor (Alaw.PCM16ToAlaw 1000) 128).
Proof. apply (X8_table_encoder_byte_and_sign 1000). unfold is_int16. lia. Defined.

(** X9: with the direct codec, decoding a buffer of bytes into a buffer
    of the same length and encoding that into a third buffer of the same
    length gives the bytes back. *)
Theorem X9_buffer_round_trip (alawData pcmData out : list Z) :
  Forall is_uint8 alawData →
  length pcmData = length alawData → length out = length alawData →
  ∃ pcm, AlawBufferToPCM16 (H := DirectCodec) alawData pcmData = Some pcm ∧
         PCM16BufferToAlaw (H := DirectCodec) pcm out = Some alawData.
Proof.
  intros Hbytes Hp Ho. unfold AlawBufferToPCM16, PCM16BufferToAlaw.
  rewrite convert_same_length by done.
  eexists. split; [done|].
  rewrite convert_same_length by (by rewrite length_fmap).
  f_equal. by apply G711_roundtrip_frame.
Qed.

Lemma X9_three_bytes :
  ∃ pcm, AlawBufferToPCM16 (H := DirectCodec) [213; 85; 0]%Z [0; 0; 0]%Z = Some pcm ∧
         PCM16BufferToAlaw (H := DirectCodec) pcm [7; 7; 7]%Z = Some [213; 85; 0]%Z.
Proof.
  apply (X9_buffer_round_trip [213; 85; 0]%Z [0; 0; 0]%Z [7; 7; 7]%Z);
    [repeat constructor; unfold is_uint8; lia | reflexivity | reflexivity].
Defined.

(** ** Mode names and command-line configuration *)

(** X10: [ParseFlags] reports the mutual-exclusion error exactly when two
    or more of the five mode flags are set; a configuration it returns
    has the mode of the one flag that is set, and the default AEC-first
    mode when none is. *)
Theorem X10_mode_flags (fv : ConfigPkg.FlagValues) :
  (ConfigPkg.ParseFlags fv = inl ConfigPkg.ErrMutuallyExclusive
   ↔ 2 ≤ ConfigPkg.modeFlagsSet fv) ∧
  ∀ config, ConfigPkg.ParseFlags fv = inr config →
    Mode config =
      (if ConfigPkg.nsFirst fv then ModeNSFirst
       else if ConfigPkg.nsOnly fv then ModeNSOnly
       else if ConfigPkg.aecOnly fv then ModeAECOnly
       else if ConfigPkg.bypass fv then ModeBypass
       else if ConfigPkg.testAlaw fv then ModeTestAlaw
       else ModeAECFirst).
Proof.
  unfold ConfigPkg.ParseFlags, ConfigPkg.modeFlagsSet.
  destruct (ConfigPkg.nsFirst fv), (ConfigPkg.nsOnly fv), (ConfigPkg.aecOnly fv),
    (ConfigPkg.bypass fv), (ConfigPkg.testAlaw fv); simpl;
    (split;
     [ split; [ intros Hp; first [lia | by destruct (validateConfig _ _)]
              | intros Hc; first [done | lia] ]
     | intros config Hp; first [done | destruct (validateConfig _ _); by simplify_eq] ]).
Qed.



(** ** The constructors [NewAEC] and [NewPreprocessorWithConfig] *)

Section SetupFacts.
Context `{Codec} `{SpeexAlloc}.

Lemma NewAEC_inr size flen sampleRate w a w' lc :
  NewAEC size flen sampleRate w = (inr a, w', lc) →
  (0 < size ∧ 0 < flen ∧ 0 < sampleRate)%Z ∧
  aec_frameSize a = size ∧
  lc = [EchoCreated (echoState a); PreprocCreated (aec_preprocState a)].
Proof.
  unfold NewAEC. intros Hnew.
  destruct (Z.leb_spec size 0), (Z.leb_spec flen 0), (Z.leb_spec sampleRate 0);
    simpl in Hnew; try done.
  destruct (speex_echo_state_init _ _ _) as [[e|] w1]; [|done].
  destruct (speex_preprocess_state_init _ _ _) as [[p|] w2]; [|done].
  by simplify_eq.
Qed.

Lemma NewAEC_inl size flen sampleRate w e w' lc :
  NewAEC size flen sampleRate w = (inl e, w', lc) →
  acquired lc = released lc ∧
  (e = InvalidParameters → lc = [] ∧ w' = w) ∧
  ((size <= 0 ∨ flen <= 0 ∨ sampleRate <= 0)%Z ↔ e = InvalidParameters).
Proof.
  unfold NewAEC. intros Hnew.
  destruct (Z.leb_spec size 0), (Z.leb_spec flen 0), (Z.leb_spec sampleRate 0);
    simpl in Hnew; simplify_eq; try (split; [done|split; [done|split; [done|lia]]]).
  destruct (speex_echo_state_init _ _ _) as [[h|] w1].
  - destruct (speex_preprocess_state_init _ _ _) as [[p|] w2]; [done|].
    simplify_eq. split; [done|]. split; [done|]. split; [lia|done].
  - simplify_eq. split; [done|]. split; [done|]. split; [lia|done].
Qed.

Lemma NewPreprocessor_inr size sampleRate nsc w p w' lc :
  NewPreprocessorWithConfig size sampleRate nsc w = (inr p, w', lc) →
  (0 < size ∧ 0 < sampleRate)%Z ∧
  frameSize p = size ∧
  lc = [PreprocCreated (preprocState p)].
Proof.
  unfold NewPreprocessorWithConfig. intros Hnew.
  destruct (Z.leb_spec size 0), (Z.leb_spec sampleRate 0);
    simpl in Hnew; try done.
  destruct (speex_preprocess_state_init _ _ _) as [[h|] w1]; [|done].
  by simplify_eq.
Qed.

Lemma NewPreprocessor_inl size sampleRate nsc w e w' lc :
  NewPreprocessorWithConfig size sampleRate nsc w = (inl e, w', lc) →
  lc = [] ∧
  (e = InvalidParameters → w' = w) ∧
  ((size <= 0 ∨ sampleRate <= 0)%Z ↔ e = InvalidParameters).
Proof.
  unfold NewPreprocessorWithConfig. intros Hnew.
  destruct (Z.leb_spec size 0), (Z.leb_spec sampleRate 0);
    simpl in Hnew; simplify_eq; try (split; [done|split; [done|split; [done|lia]]]).
  destruct (speex_preprocess_state_init _ _ _) as [[h|] w1]; [done|].
  simplify_eq. split; [done|]. split; [done|]. split; [lia|done].
Qed.

End SetupFacts.

(** ** Setting up and tearing down the engine: [initializeComponents], [Process] *)

Section ProcessFacts.
Context `{Codec} `{SpeexAlloc}.

Lemma acquired_app lc1 lc2 : acquired (lc1 ++ lc2) = acquired lc1 ++ acquired lc2.
Proof. apply omap_app. Qed.

Lemma released_app lc1 lc2 : released (lc1 ++ lc2) = released lc1 ++ released lc2.
Proof. apply omap_app. Qed.

(** What a successful [initializeComponents] has created, and that the
    deferred [Destroy] calls destroy exactly that. *)
Lemma initializeComponents_inr config nsc w aec ns w' lc :
  ProcessorSetup.initializeComponents config nsc w = (inr (aec, ns), w', lc) →
  componentsReady config aec ns = true ∧
  (usesEngine (Mode config) = true → (0 < FrameSize config ∧ 0 < SampleRate config)%Z) ∧
  (usesAEC (Mode config) = true → (0 < FilterLen config)%Z) ∧
  (usesEngine (Mode config) = false → aec = None ∧ ns = None ∧ w' = w ∧ lc = []) ∧
  released lc = [] ∧
  acquired (ProcessorSetup.deferredDestroys aec ns) = [] ∧
  acquired lc ≡ₚ released (ProcessorSetup.deferredDestroys aec ns).
Proof.
  unfold ProcessorSetup.initializeComponents, componentsReady, aecReady, nsReady.
  intros Hinit.
  destruct (Mode config); simpl.
  - by simplify_eq.
  - by simplify_eq.
  - destruct (NewPreprocessorWithConfig _ _ _ _) as [[[e|p] w1] lc1] eqn:Hp; [done|].
    apply NewPreprocessor_inr in Hp as ((? & ?) & Hsize & ->). simplify_eq. simpl.
    rewrite Hsize, Z.eqb_refl. by repeat split.
  - destruct (NewAEC _ _ _ _) as [[[e|a] w1] lc1] eqn:Ha; [done|].
    apply NewAEC_inr in Ha as ((? & ? & ?) & Hsize & ->). simplify_eq. simpl.
    rewrite Hsize, Z.eqb_refl. repeat split; try done. apply Permutation_swap.
  - destruct (NewAEC _ _ _ _) as [[[e|a] w1] lc1] eqn:Ha; [done|].
    destruct (NewPreprocessorWithConfig _ _ _ _) as [[[e|p] w2] lc2] eqn:Hp; [done|].
    apply NewAEC_inr in Ha as ((? & ? & ?) & Hsize & ->).
    apply NewPreprocessor_inr in Hp as ((? & ?) & Hsize' & ->). simplify_eq. simpl.
    rewrite Hsize, Hsize', !Z.eqb_refl. repeat split; try done.
    symmetry.
    exact (reverse_Permutation
             [inl (echoState a); inr (aec_preprocState a); inr (preprocState p)]).
  - destruct (NewAEC _ _ _ _) as [[[e|a] w1] lc1] eqn:Ha; [done|].
    apply NewAEC_inr in Ha as ((? & ? & ?) & Hsize & ->). simplify_eq. simpl.
    rewrite Hsize, Z.eqb_refl. repeat split; try done. apply Permutation_swap.
Qed.

Lemma NewPreprocessor_inl_error size sampleRate nsc w e w' lc :
  NewPreprocessorWithConfig size sampleRate nsc w = (inl e, w', lc) →
  e ≠ EchoStateFailed.
Proof.
  unfold NewPreprocessorWithConfig. intros Hnew.
  destruct (_ || _); [by simplify_eq|].
  destruct (speex_preprocess_state_init _ _ _) as [[h|] w1]; by simplify_eq.
Qed.

(** What a failed [initializeComponents] leaves behind. *)
Lemma initializeComponents_inl config nsc w e w' lc :
  ProcessorSetup.initializeComponents config nsc w = (inl e, w', lc) →
  usesEngine (Mode config) = true ∧
  ((∀ e', e ≠ InitSeparateNSFailed e') → acquired lc = released lc) ∧
  (∀ e', e = InitSeparateNSFailed e' →
     Mode config = ModeNSFirst ∧ e' = PreprocStateFailed ∧
     ∃ a, lc = [EchoCreated (echoState a); PreprocCreated (aec_preprocState a)]) ∧
  ((FrameSize config <= 0 ∨ SampleRate config <= 0)%Z →
   lc = [] ∧
   e = (if decide (Mode config = ModeNSOnly) then InitNSFailed InvalidParameters
        else InitAECFailed InvalidParameters)).
Proof.
  unfold ProcessorSetup.initializeComponents. intros Hinit.
  destruct (Mode config) eqn:Hmode; simpl; try done.
  - destruct (NewPreprocessorWithConfig _ _ _ _) as [[[e1|p] w1] lc1] eqn:Hp; [|done].
    apply NewPreprocessor_inl in Hp as (-> & _ & Hiff). simplify_eq.
    split; [done|]. split; [done|]. split; [done|]. intros Hbad. split; [done|].
    f_equal. by apply Hiff.
  - destruct (NewAEC _ _ _ _) as [[[e1|a] w1] lc1] eqn:Ha; [|done].
    apply NewAEC_inl in Ha as (Hbal & Hinv & Hiff). simplify_eq.
    split; [done|]. split; [done|]. split; [done|]. intros Hbad.
    assert (e1 = InvalidParameters) as -> by (apply Hiff; lia).
    by destruct (Hinv eq_refl) as [-> _].
  - destruct (NewAEC _ _ _ _) as [[[e1|a] w1] lc1] eqn:Ha.
    + apply NewAEC_inl in Ha as (Hbal & Hinv & Hiff). simplify_eq.
      split; [done|]. split; [done|]. split; [done|]. intros Hbad.
      assert (e1 = InvalidParameters) as -> by (apply Hiff; lia).
      by destruct (Hinv eq_refl) as [-> _].
    + destruct (NewPreprocessorWithConfig _ _ _ _) as [[[e1|p] w2] lc2] eqn:Hp; [|done].
      apply NewAEC_inr in Ha as ((? & ? & ?) & Hsize & ->).
      pose proof (NewPreprocessor_inl_error _ _ _ _ _ _ _ Hp) as Hne.
      apply NewPreprocessor_inl in Hp as (-> & _ & Hiff). simplify_eq.
      split; [done|].
      split; [by intros He'; destruct (He' e1)|]. split.
      * intros e' [= <-]. split; [done|]. split; [|by eauto].
        destruct e1; try done. destruct Hiff as [_ Hiff]. specialize (Hiff eq_refl). lia.
      * intros Hbad. lia.
  - destruct (NewAEC _ _ _ _) as [[[e1|a] w1] lc1] eqn:Ha; [|done].
    apply NewAEC_inl in Ha as (Hbal & Hinv & Hiff). simplify_eq.
    split; [done|]. split; [done|]. split; [done|]. intros Hbad.
    assert (e1 = InvalidParameters) as -> by (apply Hiff; lia).
    by destruct (Hinv eq_refl) as [-> _].
Qed.

(** With positive parameters the constructors fail only if the C library
    returns NULL. *)
Lemma NewAEC_total size flen sampleRate w :
  (0 < size)%Z → (0 < flen)%Z → (0 < sampleRate)%Z →
  (∀ w a b, (speex_echo_state_init w a b).1 ≠ None) →
  (∀ w a b, (speex_preprocess_state_init w a b).1 ≠ None) →
  ∃ a w' lc, NewAEC size flen sampleRate w = (inr a, w', lc).
Proof.
  intros ? ? ? Hecho Hpre. unfold NewAEC.
  destruct (Z.leb_spec size 0); [lia|].
  destruct (Z.leb_spec flen 0); [lia|].
  destruct (Z.leb_spec sampleRate 0); [lia|]. simpl.
  pose proof (Hecho w (to_int32 size) (to_int32 flen)) as He.
  destruct (speex_echo_state_init _ _ _) as [[h|] w1]; [|done].
  pose proof (Hpre (speex_echo_set_sampling_rate w1 h (to_int32 sampleRate))
                (to_int32 size) (to_int32 sampleRate)) as Hp.
  destruct (speex_preprocess_state_init _ _ _) as [[h'|] w2]; [|done].
  eauto.
Qed.

Lemma NewPreprocessor_total size sampleRate nsc w :
  (0 < size)%Z → (0 < sampleRate)%Z →
  (∀ w a b, (speex_preprocess_state_init w a b).1 ≠ None) →
  ∃ p w' lc, NewPreprocessorWithConfig size sampleRate nsc w = (inr p, w', lc).
Proof.
  intros ? ? Hpre. unfold NewPreprocessorWithConfig.
  destruct (Z.leb_spec size 0); [lia|].
  destruct (Z.leb_spec sampleRate 0); [lia|]. simpl.
  pose proof (Hpre w (to_int32 size) (to_int32 sampleRate)) as Hp.
  destruct (speex_preprocess_state_init _ _ _) as [[h'|] w2]; [|done].
  eauto.
Qed.

Lemma initializeComponents_total config nsc w :
  (usesEngine (Mode config) = true → (0 < FrameSize config ∧ 0 < SampleRate config)%Z) →
  (usesAEC (Mode config) = true → (0 < FilterLen config)%Z) →
  (∀ w a b, (speex_echo_state_init w a b).1 ≠ None) →
  (∀ w a b, (speex_preprocess_state_init w a b).1 ≠ None) →
  ∃ aec ns w' lc,
    ProcessorSetup.initializeComponents config nsc w = (inr (aec, ns), w', lc).
Proof.
  intros Heng Haec Hecho Hpre. unfold ProcessorSetup.initializeComponents.
  destruct (Mode config); simpl in *; [by eauto|by eauto|..].
  - destruct Heng as [? ?]; [done|].
    destruct (NewPreprocessor_total (FrameSize config) (SampleRate config) nsc w)
      as (p & w1 & lc1 & ->); [done..|]. eauto.
  - destruct Heng as [? ?]; [done|].
    destruct (NewAEC_total (FrameSize config) (FilterLen config) (SampleRate config) w)
      as (a & w1 & lc1 & ->); [by auto..|]. eauto.
  - destruct Heng as [? ?]; [done|].
    destruct (NewAEC_total (FrameSize config) (FilterLen config) (SampleRate config) w)
      as (a & w1 & lc1 & ->); [by auto..|].
    destruct (NewPreprocessor_total (FrameSize config) (SampleRate config) nsc w1)
      as (p & w2 & lc2 & ->); [done..|]. eauto.
  - destruct Heng as [? ?]; [done|].
    destruct (NewAEC_total (FrameSize config) (FilterLen config) (SampleRate config) w)
      as (a & w1 & lc1 & ->); [by auto..|]. eauto.
Qed.

End ProcessFacts.

(** X12: when [initializeComponents] returns without error, the
    instances the mode uses exist and carry the configured frame size (so
    no engine call of the loop can fail on a frame length), frame size
    and sample rate are positive in every engine mode and the filter
    length is positive in every mode with an echo canceller; in the bypass
    and test-alaw modes nothing is created and the C library is not
    touched. *)
Theorem X12_initializeComponents_ready `{C : Codec} `{D : SpeexDSP} `{A : !SpeexAlloc}
    (config : Config) (nsConfig : NSConfig) (w w' : CState)
    (aec : option AEC) (ns : option Preprocessor) (lc : list Lifecycle) :
  ProcessorSetup.initializeComponents config nsConfig w = (inr (aec, ns), w', lc) →
  componentsReady config aec ns = true ∧
  (usesEngine (Mode config) = true → (0 < FrameSize config ∧ 0 < SampleRate config)%Z) ∧
  (usesAEC (Mode config) = true → (0 < FilterLen config)%Z) ∧
  (usesEngine (Mode config) = false → aec = None ∧ ns = None ∧ w' = w ∧ lc = []).
Proof.
  intros Hinit.
  destruct (initializeComponents_inr _ _ _ _ _ _ _ Hinit) as (? & ? & ? & ? & _).
  done.
Qed.

Lemma X12_toy_ns_first :
  componentsReady (exampleConfig ModeNSFirst 320 false) (toyAEC 320) (toyNS 320) = true ∧
  (usesEngine (Mode (exampleConfig ModeNSFirst 320 false)) = true →
   (0 < FrameSize (exampleConfig ModeNSFirst 320 false)
    ∧ 0 < SampleRate (exampleConfig ModeNSFirst 320 false))%Z) ∧
  (usesAEC (Mode (exampleConfig ModeNSFirst 320 false)) = true →
   (0 < FilterLen (exampleConfig ModeNSFirst 320 false))%Z) ∧
  (usesEngine (Mode (exampleConfig ModeNSFirst 320 false)) = false →
   toyAEC 320 = None ∧ toyNS 320 = None ∧ 30 = 0 ∧
   [@EchoCreated ToyDSP tt; @PreprocCreated ToyDSP tt; @PreprocCreated ToyDSP tt] = []).
Proof.
  apply (X12_initializeComponents_ready (C := DirectCodec) (D := ToyDSP) (A := ToyAlloc None)
           (exampleConfig ModeNSFirst 320 false) tt 0 30 (toyAEC 320) (toyNS 320)
           [@EchoCreated ToyDSP tt; @PreprocCreated ToyDSP tt; @PreprocCreated ToyDSP tt]).
  reflexivity.
Defined.

(** X13: in an engine mode with a frame size or a sample rate that is not
    positive, [Process] returns the error of the first constructor
    ("failed to initialize NS" in the NS-only mode, "failed to initialize
    AEC" in the others, each wrapping "invalid parameters") after the
    output file has been created: the output file exists and is empty, no
    input byte has been decoded and no C state has been created. *)
Theorem X13_invalid_size_leaves_empty_output `{C : Codec} `{D : SpeexDSP} `{A : !SpeexAlloc}
    (config : Config) (nsConfig : NSConfig) (files : Files) (w : CState) :
  is_Some (micBytes files) →
  (needsSpeakerFile config = true → is_Some (speakerBytes files)) →
  outputCreatable files = true →
  usesEngine (Mode config) = true →
  (FrameSize config <= 0 ∨ SampleRate config <= 0)%Z →
  ProcessorSetup.Process config nsConfig files w
  = {| result :=
         Returns (Some (InitFailed
           (if decide (Mode config = ModeNSOnly) then InitNSFailed InvalidParameters
            else InitAECFailed InvalidParameters)));
       outputFile := Some [];
       trace := [];
       lifecycle := [] |}.
Proof.
  intros [mic Hmic] Hspk Hout Heng Hbad. unfold ProcessorSetup.Process.
  rewrite Hmic, Hout. simpl.
  assert (∃ spk, (if needsSpeakerFile config then speakerBytes files else Some [])
                 = Some spk) as [spk ->].
  { destruct (needsSpeakerFile config); [|by eauto].
    destruct Hspk as [spk ->]; by eauto. }
  destruct (ProcessorSetup.initializeComponents config nsConfig w)
    as [[[e|[aec ns]] w1] lc] eqn:Hinit.
  - apply initializeComponents_inl in Hinit as (_ & _ & _ & Hinv).
    destruct (Hinv Hbad) as [-> ->]. done.
  - apply initializeComponents_inr in Hinit as (_ & Hpos & _).
    specialize (Hpos Heng). lia.
Qed.

Lemma X13_frame_size_zero_ns_only :
  ProcessorSetup.Process (H := DirectCodec) (H0 := ToyDSP) (H1 := ToyAlloc None)
    (exampleConfig ModeNSOnly 0 false) tt (exampleFiles [1; 2; 3]%Z None) 0
  = {| result := Returns (Some (InitFailed (InitNSFailed InvalidParameters)));
       outputFile := Some [];
       trace := [];
       lifecycle := [] |}.
Proof.
  apply (X13_invalid_size_leaves_empty_output (C := DirectCodec) (D := ToyDSP)
           (A := ToyAlloc None)
           (exampleConfig ModeNSOnly 0 false) tt (exampleFiles [1; 2; 3]%Z None) 0).
  - by eexists.
  - discriminate.
  - reflexivity.
  - reflexivity.
  - left. simpl. lia.
Defined.

(** [Process] with everything in place: the run of the loop that it
    makes, on the inputs as they are after the output has been created. *)
Lemma Process_runs `{C : Codec} `{D : SpeexDSP} `{A : !SpeexAlloc}
    (config : Config) (nsConfig : NSConfig) (files : Files) (w : CState)
    (mic spk : list Z) (n : nat) :
  micBytes files = Some mic →
  (needsSpeakerFile config = true → speakerBytes files = Some spk) →
  outputCreatable files = true →
  0 < n → FrameSize config = Z.of_nat n →
  (usesEngine (Mode config) = true → (0 < SampleRate config)%Z) →
  (usesAEC (Mode config) = true → (0 < FilterLen config)%Z) →
  (∀ w a b, (speex_echo_state_init w a b).1 ≠ None) →
  (∀ w a b, (speex_preprocess_state_init w a b).1 ≠ None) →
  ∃ aec ns w1 lc spk' tr,
    componentsReady config aec ns = true ∧
    (needsSpeakerFile config = true → spk' = spk) ∧
    Processor.processAudio config
      (if outputIsMic files then [] else mic)
      (if outputIsSpeaker files then [] else spk') aec ns w1 = (Finished, tr) ∧
    released lc = [] ∧
    acquired (ProcessorSetup.deferredDestroys aec ns) = [] ∧
    acquired lc ≡ₚ released (ProcessorSetup.deferredDestroys aec ns) ∧
    ProcessorSetup.Process config nsConfig files w
    = {| result := Returns None; outputFile := Some (output tr); trace := tr;
         lifecycle := lc ++ ProcessorSetup.deferredDestroys aec ns |}.
Proof.
  intros Hmic Hspk Hout Hn Hsize Hrate Hflen Hecho Hpre.
  unfold ProcessorSetup.Process. rewrite Hmic, Hout. simpl.
  destruct (initializeComponents_total config nsConfig w)
    as (aec & ns & w1 & lc & Hinit); [by (intros; split; [lia|auto])|done..|].
  apply initializeComponents_inr in Hinit as Hfacts.
  destruct Hfacts as (Hready & _ & _ & _ & Hrel & Hacq & Hperm).
  assert (∃ spk', (if needsSpeakerFile config then speakerBytes files else Some [])
                  = Some spk' ∧ (needsSpeakerFile config = true → spk' = spk))
    as (spk' & -> & Hspk').
  { destruct (needsSpeakerFile config); [rewrite Hspk by done|];
      (eexists; split; [done|]); [done|discriminate]. }
  rewrite Hinit.
  destruct (processAudio_writes config aec ns n
              (if outputIsMic files then [] else mic)
              (if outputIsSpeaker files then [] else spk') w1 Hn Hsize Hready)
    as (tr & Hrun & _).
  exists aec, ns, w1, lc, spk', tr. rewrite Hrun. done.
Qed.

(** A loop that finds its first read at the end of the file does
    nothing. *)
Lemma processAudio_nothing_to_read `{C : Codec} `{D : SpeexDSP}
    (config : Config) (mic spk : list Z)
    (aec : option AEC) (ns : option Preprocessor) (w : CState) (n : nat) :
  0 < n → FrameSize config = Z.of_nat n →
  mic = [] ∨ (needsSpeakerFile config = true ∧ spk = []) →
  Processor.processAudio config mic spk aec ns w = (Finished, []).
Proof.
  intros Hn Hf Hempty. unfold Processor.processAudio. rewrite Hf.
  destruct (initState_ok n (UsePrevSpeaker config) mic spk w)
    as (s0 & -> & Hsized & Hmic & Hspk & _).
  simpl. rewrite (step_stops config aec ns s0 n); [done..|].
  unfold stops. rewrite Hmic, Hspk.
  destruct Hempty as [->|[-> ->]]; [done|]. by destruct mic.
Qed.



(** X23: an output path that names an input file.  [Process] opens the
    inputs before [os.Create] truncates the output, so when the output is
    the microphone file, or a speaker file that the mode reads, the first
    read of that file finds its end: the loop leaves before it decodes or
    writes anything, [Process] returns nil, and the file is left empty,
    its content lost.  Nothing in [Process] compares the paths. *)
Theorem X23_output_naming_an_input `{C : Codec} `{D : SpeexDSP} `{A : !SpeexAlloc}
    (config : Config) (nsConfig : NSConfig) (files : Files) (w : CState)
    (mic spk : list Z) (n : nat) :
  micBytes files = Some mic →
  (needsSpeakerFile config = true → speakerBytes files = Some spk) →
  outputCreatable files = true →
  outputIsMic files = true
  ∨ (needsSpeakerFile config = true ∧ outputIsSpeaker files = true) →
  0 < n → FrameSize config = Z.of_nat n →
  (usesEngine (Mode config) = true → (0 < SampleRate config)%Z) →
  (usesAEC (Mode config) = true → (0 < FilterLen config)%Z) →
  (∀ w a b, (speex_echo_state_init w a b).1 ≠ None) →
  (∀ w a b, (speex_preprocess_state_init w a b).1 ≠ None) →
  result (ProcessorSetup.Process config nsConfig files w) = Returns None ∧
  outputFile (ProcessorSetup.Process config nsConfig files w) = Some [] ∧
  trace (ProcessorSetup.Process config nsConfig files w) = [].
Proof.
  intros Hmic Hspk Hout Halias Hn Hsize Hrate Hflen Hecho Hpre.
  destruct (Process_runs config nsConfig files w mic spk n)
    as (aec & ns & w1 & lc & spk' & tr & Hready & Hspk' & Hrun & _ & _ & _ & ->);
    [done..|].
  rewrite processAudio_nothing_to_read with (n := n) in Hrun; [|done..|].
  - simplify_eq. done.
  - destruct Halias as [->|[Hneeds ->]]; [by left|by right].
Qed.

Lemma X23_output_is_the_microphone_file :
  result (ProcessorSetup.Process (H := DirectCodec) (H0 := ToyDSP) (H1 := ToyAlloc None)
            (exampleConfig ModeNSOnly 4 false) tt
            (overwritingFiles [213; 85; 213; 85; 213]%Z None) 0)
  = Returns None ∧
  outputFile (ProcessorSetup.Process (H := DirectCodec) (H0 := ToyDSP) (H1 := ToyAlloc None)
                (exampleConfig ModeNSOnly 4 false) tt
                (overwritingFiles [213; 85; 213; 85; 213]%Z None) 0)
  = Some [] ∧
  trace (ProcessorSetup.Process (H := DirectCodec) (H0 := ToyDSP) (H1 := ToyAlloc None)
           (exampleConfig ModeNSOnly 4 false) tt
           (overwritingFiles [213; 85; 213; 85; 213]%Z None) 0)
  = [].
Proof.
  apply (X23_output_naming_an_input (C := DirectCodec) (D := ToyDSP) (A := ToyAlloc None)
           (exampleConfig ModeNSOnly 4 false) tt
           (overwritingFiles [213; 85; 213; 85; 213]%Z None) 0
           [213; 85; 213; 85; 213]%Z [] 4).
  - reflexivity.
  - discriminate.
  - reflexivity.
  - left. reflexivity.
  - lia.
  - reflexivity.
  - simpl. lia.
  - discriminate.
  - intros w a b. simpl. discriminate.
  - intros w a b. simpl. discriminate.
Defined.

(** X15: whenever [Process] returns or panics, with the one exception of
    a failure to create the separate noise suppressor of the NS-first
    mode, the C states destroyed are the C states created: neither an
    error of a constructor, nor an error of a frame, nor a panic of the
    loop leaves a state behind, and nothing is destroyed twice. *)
Theorem X15_states_are_released `{C : Codec} `{D : SpeexDSP} `{A : !SpeexAlloc}
    (config : Config) (nsConfig : NSConfig) (files : Files) (w : CState) :
  result (ProcessorSetup.Process config nsConfig files w) ≠ Diverges →
  (∀ e, result (ProcessorSetup.Process config nsConfig files w)
        ≠ Returns (Some (InitFailed (InitSeparateNSFailed e)))) →
  acquired (lifecycle (ProcessorSetup.Process config nsConfig files w))
  ≡ₚ released (lifecycle (ProcessorSetup.Process config nsConfig files w)).
Proof.
  unfold ProcessorSetup.Process. intros Hdiv Hsep.
  destruct (micBytes files) as [mic|]; [|done].
  destruct (if needsSpeakerFile config then _ else _) as [spk|]; [|done].
  destruct (negb (outputCreatable files)); [done|].
  destruct (ProcessorSetup.initializeComponents config nsConfig w)
    as [[[e|[aec ns]] w1] lc] eqn:Hinit.
  - simpl in *. apply initializeComponents_inl in Hinit as (_ & Hbal & _).
    rewrite Hbal; [done|]. intros e' ->. by apply (Hsep e').
  - apply initializeComponents_inr in Hinit as (_ & _ & _ & _ & Hrel & Hacq & Hperm).
    destruct (Processor.processAudio _ _ _ _ _ _) as [o tr].
    simpl in *. rewrite acquired_app, released_app, Hrel.
    destruct o; try done; by rewrite Hacq, app_nil_r.
Qed.

Lemma X15_aec_preprocessor_refused :
  acquired (lifecycle (ProcessorSetup.Process (H := DirectCodec) (H0 := ToyDSP)
                         (H1 := ToyAlloc (Some 5))
                         (exampleConfig ModeAECFirst 4 false) tt
                         (exampleFiles [213; 85; 213]%Z (Some [85; 85]%Z)) 0))
  ≡ₚ released (lifecycle (ProcessorSetup.Process (H := DirectCodec) (H0 := ToyDSP)
                            (H1 := ToyAlloc (Some 5))
                            (exampleConfig ModeAECFirst 4 false) tt
                            (exampleFiles [213; 85; 213]%Z (Some [85; 85]%Z)) 0)).
Proof.
  apply (X15_states_are_released (C := DirectCodec) (D := ToyDSP) (A := ToyAlloc (Some 5))
           (exampleConfig ModeAECFirst 4 false) tt
           (exampleFiles [213; 85; 213]%Z (Some [85; 85]%Z)) 0).
  - vm_compute. discriminate.
  - intros e. vm_compute. discriminate.
Defined.

(** X16: the exception of X15.  When the separate noise suppressor of the
    NS-first mode cannot be created, [Process] returns before the
    [Destroy] calls are deferred: the echo canceller created just before
    (its echo state and its preprocessor state) is never destroyed.  This
    happens only in the NS-first mode and only when the C library returns
    NULL (the parameters were accepted by [NewAEC] before). *)
Theorem X16_ns_first_init_failure_keeps_the_aec `{C : Codec} `{D : SpeexDSP}
    `{A : !SpeexAlloc}
    (config : Config) (nsConfig : NSConfig) (files : Files) (w : CState)
    (e : NewError) :
  result (ProcessorSetup.Process config nsConfig files w)
  = Returns (Some (InitFailed (InitSeparateNSFailed e))) →
  Mode config = ModeNSFirst ∧ e = PreprocStateFailed ∧
  outputFile (ProcessorSetup.Process config nsConfig files w) = Some [] ∧
  (∃ a : AEC,
     lifecycle (ProcessorSetup.Process config nsConfig files w)
     = [EchoCreated (echoState a); PreprocCreated (aec_preprocState a)]) ∧
  released (lifecycle (ProcessorSetup.Process config nsConfig files w)) = [].
Proof.
  unfold ProcessorSetup.Process. intros Hres.
  destruct (micBytes files) as [mic|]; [|done].
  destruct (if needsSpeakerFile config then _ else _) as [spk|]; [|done].
  destruct (negb (outputCreatable files)); [done|].
  destruct (ProcessorSetup.initializeComponents config nsConfig w)
    as [[[e0|[aec ns]] w1] lc] eqn:Hinit.
  - simpl in *. simplify_eq.
    apply initializeComponents_inl in Hinit as (_ & _ & Hsep & _).
    destruct (Hsep e eq_refl) as (Hmode & -> & a & ->).
    split; [done|]. split; [done|]. split; [done|]. split; [by eauto|done].
  - destruct (Processor.processAudio _ _ _ _ _ _) as [o tr].
    simpl in Hres. by destruct o.
Qed.

Lemma X16_second_preprocessor_refused :
  Mode (exampleConfig ModeNSFirst 4 false) = ModeNSFirst ∧
  PreprocStateFailed = PreprocStateFailed ∧
  outputFile (ProcessorSetup.Process (H := DirectCodec) (H0 := ToyDSP) (H1 := ToyAlloc (Some 20))
                (exampleConfig ModeNSFirst 4 false) tt
                (exampleFiles [213; 85; 213]%Z (Some [85; 85]%Z)) 0) = Some [] ∧
  (∃ a : @AEC ToyDSP,
     lifecycle (ProcessorSetup.Process (H := DirectCodec) (H0 := ToyDSP) (H1 := ToyAlloc (Some 20))
                  (exampleConfig ModeNSFirst 4 false) tt
                  (exampleFiles [213; 85; 213]%Z (Some [85; 85]%Z)) 0)
     = [EchoCreated (echoState a); PreprocCreated (aec_preprocState a)]) ∧
  released (lifecycle (ProcessorSetup.Process (H := DirectCodec) (H0 := ToyDSP)
                         (H1 := ToyAlloc (Some 20))
                         (exampleConfig ModeNSFirst 4 false) tt
                         (exampleFiles [213; 85; 213]%Z (Some [85; 85]%Z)) 0)) = [].
Proof.
  apply (X16_ns_first_init_failure_keeps_the_aec (C := DirectCodec) (D := ToyDSP)
           (A := ToyAlloc (Some 20))
           (exampleConfig ModeNSFirst 4 false) tt
           (exampleFiles [213; 85; 213]%Z (Some [85; 85]%Z)) 0 PreprocStateFailed).
  reflexivity.
Defined.

(** ** Calls on the instances the constructors return *)

Lemma len_ne_spec (frame : list Z) (size : Z) :
  (0 < size)%Z → len_ne frame size = negb (bool_decide (length frame = Z.to_nat size)).
Proof.
  intros Hsize. unfold len_ne. f_equal.
  destruct (Z.eqb_spec (Z.of_nat (length frame)) size) as [Heq|Hne];
    symmetry; [apply bool_decide_eq_true|apply bool_decide_eq_false]; lia.
Qed.

(** X17: an echo canceller returned by [NewAEC] cannot make [ProcessFrame]
    or [ProcessFrameEchoOnly] panic.  When both frames have the frame
    size the canceller was created with, each of the two returns a frame
    of that size; when one of them has another length, each returns nil
    and the C library has not been called (the C state is unchanged). *)
Theorem X17_calls_on_a_constructed_AEC `{D : SpeexDSP} `{A : !SpeexAlloc}
    (size flen sampleRate : Z) (w w' : CState) (a : AEC) (lc : list Lifecycle)
    (w1 : CState) (micFrame speakerFrame : list Z) :
  NewAEC size flen sampleRate w = (inr a, w', lc) →
  if decide (length micFrame = Z.to_nat size ∧ length speakerFrame = Z.to_nat size)
  then
    (∃ out w2, AEC_ProcessFrame a w1 micFrame speakerFrame = Some (Some out, w2) ∧
               length out = Z.to_nat size) ∧
    (∃ out w2, AEC_ProcessFrameEchoOnly a w1 micFrame speakerFrame = Some (Some out, w2) ∧
               length out = Z.to_nat size)
  else
    AEC_ProcessFrame a w1 micFrame speakerFrame = Some (None, w1) ∧
    AEC_ProcessFrameEchoOnly a w1 micFrame speakerFrame = Some (None, w1).
Proof.
  intros Hnew. apply NewAEC_inr in Hnew as ((Hsize & _ & _) & Ha & _).
  destruct (decide _) as [[Hm Hs]|Hne].
  - split.
    + apply echoNS_ok; [lia|rewrite Ha; lia|done..].
    + apply echoOnly_ok; [lia|rewrite Ha; lia|done..].
  - unfold AEC_ProcessFrame, AEC_ProcessFrameEchoOnly.
    rewrite Ha, !len_ne_spec by done.
    apply not_and_l in Hne as [Hne|Hne];
      rewrite (bool_decide_eq_false_2 _ Hne); simpl; rewrite ?orb_true_r; done.
Qed.

Lemma X17_toy_frames_of_four :
  if decide (length [1; 2; 3; 4]%Z = Z.to_nat 4 ∧ length [5; 6; 7; 8]%Z = Z.to_nat 4)
  then
    (∃ out w2, AEC_ProcessFrame (H := ToyDSP) (@Build_AEC ToyDSP tt tt 4 3200) 7
                 [1; 2; 3; 4]%Z [5; 6; 7; 8]%Z = Some (Some out, w2) ∧
               length out = Z.to_nat 4) ∧
    (∃ out w2, AEC_ProcessFrameEchoOnly (H := ToyDSP) (@Build_AEC ToyDSP tt tt 4 3200) 7
                 [1; 2; 3; 4]%Z [5; 6; 7; 8]%Z = Some (Some out, w2) ∧
               length out = Z.to_nat 4)
  else
    AEC_ProcessFrame (H := ToyDSP) (@Build_AEC ToyDSP tt tt 4 3200) 7
      [1; 2; 3; 4]%Z [5; 6; 7; 8]%Z = Some (None, 7) ∧
    AEC_ProcessFrameEchoOnly (H := ToyDSP) (@Build_AEC ToyDSP tt tt 4 3200) 7
      [1; 2; 3; 4]%Z [5; 6; 7; 8]%Z = Some (None, 7).
Proof.
  apply (X17_calls_on_a_constructed_AEC (D := ToyDSP) (A := ToyAlloc None)
           4 3200 16000 0 20 (@Build_AEC ToyDSP tt tt 4 3200)
           [@EchoCreated ToyDSP tt; @PreprocCreated ToyDSP tt] 7
           [1; 2; 3; 4]%Z [5; 6; 7; 8]%Z).
  reflexivity.
Defined.

(** X18: the same for a noise suppressor returned by
    [NewPreprocessorWithConfig]: [ProcessFrame] cannot panic, returns a
    frame of the frame size for an input of the frame size, and returns
    nil without calling the C library for an input of another length. *)
Theorem X18_calls_on_a_constructed_Preprocessor `{D : SpeexDSP} `{A : !SpeexAlloc}
    (size sampleRate : Z) (nsConfig : NSConfig) (w w' : CState) (p : Preprocessor)
    (lc : list Lifecycle) (w1 : CState) (inputFrame : list Z) :
  NewPreprocessorWithConfig size sampleRate nsConfig w = (inr p, w', lc) →
  if decide (length inputFrame = Z.to_nat size)
  then ∃ out w2, Preprocessor_ProcessFrame p w1 inputFrame = Some (Some out, w2) ∧
                 length out = Z.to_nat size
  else Preprocessor_ProcessFrame p w1 inputFrame = Some (None, w1).
Proof.
  intros Hnew. apply NewPreprocessor_inr in Hnew as ((Hsize & _) & Hp & _).
  destruct (decide _) as [Hm|Hne].
  - apply ns_ok; [lia|rewrite Hp; lia|done].
  - unfold Preprocessor_ProcessFrame.
    rewrite Hp, len_ne_spec by done.
    by rewrite (bool_decide_eq_false_2 _ Hne).
Qed.

Lemma X18_toy_frame_of_three_against_four :
  if decide (length [1; 2; 3]%Z = Z.to_nat 4)
  then ∃ out w2, Preprocessor_ProcessFrame (H := ToyDSP) (@Build_Preprocessor ToyDSP tt 4) 7
                   [1; 2; 3]%Z = Some (Some out, w2) ∧
                 length out = Z.to_nat 4
  else Preprocessor_ProcessFrame (H := ToyDSP) (@Build_Preprocessor ToyDSP tt 4) 7
         [1; 2; 3]%Z = Some (None, 7).
Proof.
  apply (X18_calls_on_a_constructed_Preprocessor (D := ToyDSP) (A := ToyAlloc None)
           4 16000 tt 0 10 (@Build_Preprocessor ToyDSP tt 4)
           [@PreprocCreated ToyDSP tt] 7 [1; 2; 3]%Z).
  reflexivity.
Defined.

(** ** The two loops side by side *)

Section LoopsAgree.
Context `{Codec} `{SpeexDSP}.

(** Two loop bodies that agree on the states of an invariant give the
    same run. *)
Lemma forLoop_ext (body1 body2 : LoopState → option StepResult) (Inv : LoopState → Prop) :
  (∀ s, Inv s → body1 s = body2 s) →
  (∀ s s' evs, Inv s → body2 s = Some (Continue s' evs) → Inv s') →
  ∀ fuel s, Inv s → forLoop body1 fuel s = forLoop body2 fuel s.
Proof.
  intros Heq Hinv fuel. induction fuel as [|fuel IH]; intros s Hs; [done|].
  simpl. rewrite (Heq s Hs).
  destruct (body2 s) as [[s' evs| |fr e evs]|] eqn:Hb; try done.
  rewrite (IH s'); [done|]. by eapply Hinv.
Qed.

Lemma steps_agree config f aec ns s :
  flagsSelect f (Mode config) = true → Mode config ≠ ModeBypass →
  Main.frameSize f = FrameSize config →
  Main.usePrevSpeaker f = UsePrevSpeaker config →
  (Mode config = ModeNSOnly → UsePrevSpeaker config = true →
   prevSpeakerPcmFrame s = speakerPcmFrame s) →
  Main.step f aec ns s = Processor.step config aec ns s.
Proof.
  intros Hsel Hnb Hsize Hprev Hinv.
  unfold Main.step, Processor.step, Processor.zeroPadFrames, Processor.processFrame,
    Main.processPcm, Processor.encodeFrame, Processor.getAECSpeakerFrame,
    needsSpeakerFile, Main.speakerNeeded.
  rewrite Hsize, Hprev.
  destruct (Mode config) eqn:Hmode; try done; simpl in Hsel;
    repeat match type of Hsel with
           | _ && _ = true => apply andb_prop in Hsel as [Hsel ?]
           end;
    repeat match goal with
           | H : negb _ = true |- _ => apply negb_true_iff in H
           end;
    repeat match goal with
           | H : _ = true |- _ => rewrite H
           | H : _ = false |- _ => rewrite H
           end; simpl.
  all: destruct (UsePrevSpeaker config); simpl.
  all: try rewrite (Hinv eq_refl eq_refl), (copy_same_length (speakerPcmFrame s)) by done.
  all: unfold mbind, option_bind, option_ret, mret.
  all: repeat (case_match; simplify_eq/=); done.
Qed.

(** A pass of [Processor] in a mode without speaker file leaves the
    speaker frames alone. *)
Lemma step_keeps_speaker_frames config aec ns s s' evs :
  needsSpeakerFile config = false →
  Processor.step config aec ns s = Some (Continue s' evs) →
  speakerPcmFrame s' = speakerPcmFrame s ∧
  prevSpeakerPcmFrame s' = prevSpeakerPcmFrame s.
Proof.
  intros Hneeds. unfold Processor.step. rewrite Hneeds, !andb_false_r. simpl.
  unfold mbind, option_bind. intros Hstep.
  repeat (case_match; simplify_eq/=); done.
Qed.

Lemma initState_prev size mic spk w s :
  initState size true mic spk w = Some s →
  prevSpeakerPcmFrame s = speakerPcmFrame s.
Proof.
  unfold initState. destruct (Slice.make size 0%Z) as [fr|]; simpl; [|done].
  by intros [= <-].
Qed.

End LoopsAgree.

(** With one codec for both, the loop of [processAEC] and the loop of
    [Processor.processAudio] are the same function in the four engine
    modes. *)
Lemma loops_agree_same_codec `{C : Codec} `{D : SpeexDSP}
    (config : Config) (f : Main.Flags) (mic spk : list Z)
    (aec : option AEC) (ns : option Preprocessor) (w : CState) :
  flagsSelect f (Mode config) = true → Mode config ≠ ModeBypass →
  Main.frameSize f = FrameSize config →
  Main.usePrevSpeaker f = UsePrevSpeaker config →
  Main.processAEC f mic spk aec ns w = Processor.processAudio config mic spk aec ns w.
Proof.
  intros Hsel Hnb Hsize Hprev.
  unfold Main.processAEC, Processor.processAudio. rewrite Hsize, Hprev.
  destruct (initState _ _ _ _ _) as [s0|] eqn:Hinit; [|done].
  apply (forLoop_ext _ _
           (λ s, Mode config = ModeNSOnly → UsePrevSpeaker config = true →
                 prevSpeakerPcmFrame s = speakerPcmFrame s)).
  - intros s Hinv. by apply steps_agree.
  - intros s s' evs Hinv Hstep Hmode Hup.
    destruct (step_keeps_speaker_frames config aec ns s s' evs) as [-> ->];
      [by unfold needsSpeakerFile; rewrite Hmode|done|by apply Hinv].
  - intros _ Hup. rewrite Hup in Hinit. by eapply initState_prev.
Qed.

(** ** The same loop with another codec *)

Lemma decoders_agree (b : Z) :
  is_uint8 b →
  AlawToPCM16 (Codec := TableCodec) b = AlawToPCM16 (Codec := DirectCodec) b.
Proof.
  intros Hb. apply Z.eqb_eq.
  apply (uint8_cases (λ b, (Alaw.AlawToPCM16 b =? G711.AlawToPCM16 b)%Z)); [|done].
  vm_compute. reflexivity.
Qed.

Lemma convert_ext (f g : Z → Z) fuel : ∀ i (src dst : list Z),
  (∀ x, x ∈ src → f x = g x) →
  convert f fuel i src dst = convert g fuel i src dst.
Proof.
  induction fuel as [|fuel IH]; intros i src dst Hfg; simpl; [done|].
  destruct (_ && _); [|done].
  destruct (src !! i) as [v|] eqn:Hv; simpl; [|done].
  rewrite (Hfg v) by (by eapply list_elem_of_lookup_2).
  destruct (Slice.store dst i (g v)); simpl; [|done]. by apply IH.
Qed.

Lemma fill_bytes cnt : ∀ i buf out,
  Forall is_uint8 buf → Slice.fill cnt i 213%Z buf = Some out → Forall is_uint8 out.
Proof.
  induction cnt as [|cnt IH]; intros i buf out Hbuf; simpl.
  - by intros [= <-].
  - unfold Slice.store. destruct (decide (i < length buf)); simpl; [|done].
    apply IH. apply Forall_insert; [done|]. unfold is_uint8. lia.
Qed.

Lemma padFrame_bytes frame k size out :
  Forall is_uint8 frame → padFrame frame k size = Some out → Forall is_uint8 out.
Proof.
  intros Hfr. unfold padFrame. destruct (_ <? _)%Z.
  - by apply fill_bytes.
  - by intros [= <-].
Qed.

Lemma readFull_bytes r buf :
  Forall is_uint8 r → Forall is_uint8 buf →
  Forall is_uint8 (rr_buf (ReadFull r buf)) ∧ Forall is_uint8 (rr_rest (ReadFull r buf)).
Proof.
  intros Hr Hbuf. unfold ReadFull, Slice.copy. simpl. split.
  - apply Forall_app. split; [by apply Forall_take, Forall_take|by apply Forall_drop].
  - by apply Forall_drop.
Qed.

Section OtherCodec.
Context `{D : SpeexDSP} (C1 C2 : Codec).
Hypothesis decode_same :
  ∀ b, is_uint8 b → AlawToPCM16 (Codec := C1) b = AlawToPCM16 (Codec := C2) b.

Lemma decode_buffer_same (alawData pcmData : list Z) :
  Forall is_uint8 alawData →
  AlawBufferToPCM16 (H := C1) alawData pcmData
  = AlawBufferToPCM16 (H := C2) alawData pcmData.
Proof.
  intros Hb. unfold AlawBufferToPCM16. apply convert_ext.
  intros x Hx. apply decode_same. by eapply Forall_forall in Hb.
Qed.

Lemma encodeFrame_other config pcm :
  match Processor.encodeFrame (H := C1) config pcm,
        Processor.encodeFrame (H := C2) config pcm with
  | Some o1, Some o2 => length o1 = length o2
  | None, None => True
  | _, _ => False
  end.
Proof.
  destruct (Processor.encodeFrame (H := C1) config pcm) as [o1|] eqn:H1,
           (Processor.encodeFrame (H := C2) config pcm) as [o2|] eqn:H2; try done.
  - apply encodeFrame_length in H1, H2. congruence.
  - unfold Processor.encodeFrame, PCM16BufferToAlaw in *.
    destruct (Slice.make _ _); simpl in *; [|done]. by rewrite convert_from_0 in H2.
  - unfold Processor.encodeFrame, PCM16BufferToAlaw in *.
    destruct (Slice.make _ _); simpl in *; [|done]. by rewrite convert_from_0 in H1.
Qed.

Local Ltac encode_pair :=
  match goal with
  | |- context [Processor.encodeFrame (H := C1) ?cfg ?x] =>
      let He := fresh "He" in
      pose proof (encodeFrame_other cfg x) as He;
      destruct (Processor.encodeFrame (H := C1) cfg x),
               (Processor.encodeFrame (H := C2) cfg x); simpl in *; try done
  end.

Local Ltac engine_call :=
  match goal with
  | |- context [Preprocessor_ProcessFrame ?p ?w ?m] =>
      destruct (Preprocessor_ProcessFrame p w m) as [[[?|] ?]|]; simpl; try done
  | |- context [AEC_ProcessFrameEchoOnly ?a ?w ?m ?k] =>
      destruct (AEC_ProcessFrameEchoOnly a w m k) as [[[?|] ?]|]; simpl; try done
  | |- context [AEC_ProcessFrame ?a ?w ?m ?k] =>
      destruct (AEC_ProcessFrame a w m k) as [[[?|] ?]|]; simpl; try done
  end.

(** [processFrame] with the other codec makes the same engine calls,
    fails the same way and returns a frame of the same length. *)
Lemma processFrame_other config w mic spk prev aec ns :
  match Processor.processFrame (H := C1) config w mic spk prev aec ns,
        Processor.processFrame (H := C2) config w mic spk prev aec ns with
  | Some (inl e1, w1, evs1), Some (inl e2, w2, evs2) => e1 = e2 ∧ w1 = w2 ∧ evs1 = evs2
  | Some (inr o1, w1, evs1), Some (inr o2, w2, evs2) =>
      length o1 = length o2 ∧ w1 = w2 ∧ evs1 = evs2
  | None, None => True
  | _, _ => False
  end.
Proof.
  unfold Processor.processFrame, Processor.getAECSpeakerFrame.
  destruct (Mode config), aec as [a|], ns as [p|]; simpl; try done;
    repeat engine_call; try encode_pair.
Qed.

(** One pass with the other codec. *)
Lemma step_other config aec ns s :
  byteState s →
  samePass (Processor.step (H := C1) config aec ns s)
           (Processor.step (H := C2) config aec ns s) ∧
  ∀ s' evs, Processor.step (H := C2) config aec ns s = Some (Continue s' evs) →
            byteState s'.
Proof.
  intros (Hmf & Hsf & Hma & Hsa).
  destruct (readFull_bytes (micFile s) (micAlawFrame s)) as [Hmb Hmr]; [done..|].
  destruct (readFull_bytes (speakerFile s) (speakerAlawFrame s)) as [Hsb Hsr]; [done..|].
  unfold Processor.step, Processor.zeroPadFrames.
  destruct (ReadFull (micFile s) (micAlawFrame s)) as [nm em restm bufm].
  destruct (ReadFull (speakerFile s) (speakerAlawFrame s)) as [nsp es rests bufs].
  cbn [rr_n rr_err rr_rest rr_buf] in *.
  destruct (is_EOF em); [done|].
  destruct (needsSpeakerFile config) eqn:Hneeds; cbn [andb rr_n rr_err rr_rest rr_buf NoRead].
  - destruct (is_EOF es); [done|].
    destruct (padFrame bufm nm (FrameSize config)) as [micAlaw|] eqn:Hpm;
      cbn [mbind option_bind]; [|done].
    destruct (padFrame bufs nsp (FrameSize config)) as [speakerAlaw|] eqn:Hps;
      cbn [mbind option_bind]; [|done].
    apply padFrame_bytes in Hpm; [|done]. apply padFrame_bytes in Hps; [|done].
    rewrite (decode_buffer_same micAlaw) by done.
    destruct (AlawBufferToPCM16 micAlaw _) as [micPcm|]; cbn [mbind option_bind]; [|done].
    rewrite (decode_buffer_same speakerAlaw) by done.
    destruct (AlawBufferToPCM16 speakerAlaw _) as [speakerPcm|];
      cbn [mbind option_bind]; [|done].
    pose proof (processFrame_other config (cstate s) micPcm speakerPcm
                  (prevSpeakerPcmFrame s) aec ns) as Hpf.
    destruct (Processor.processFrame (H := C1) _ _ _ _ _ _ _) as [[[[e1|o1] w1] evs1]|],
             (Processor.processFrame (H := C2) _ _ _ _ _ _ _) as [[[[e2|o2] w2] evs2]|];
      cbn [mbind option_bind]; try done.
    + destruct Hpf as (-> & -> & ->). done.
    + destruct Hpf as (Hlen & -> & ->). split.
      * split; [done|]. rewrite !fmap_app. simpl. by rewrite Hlen.
      * intros s' evs [= <- _]. by repeat split.
  - destruct (padFrame bufm nm (FrameSize config)) as [micAlaw|] eqn:Hpm;
      cbn [mbind option_bind]; [|done].
    apply padFrame_bytes in Hpm; [|done].
    rewrite (decode_buffer_same micAlaw) by done.
    destruct (AlawBufferToPCM16 micAlaw _) as [micPcm|]; cbn [mbind option_bind]; [|done].
    pose proof (processFrame_other config (cstate s) micPcm (speakerPcmFrame s)
                  (prevSpeakerPcmFrame s) aec ns) as Hpf.
    destruct (Processor.processFrame (H := C1) _ _ _ _ _ _ _) as [[[[e1|o1] w1] evs1]|],
             (Processor.processFrame (H := C2) _ _ _ _ _ _ _) as [[[[e2|o2] w2] evs2]|];
      cbn [mbind option_bind]; try done.
    + destruct Hpf as (-> & -> & ->). done.
    + destruct Hpf as (Hlen & -> & ->). split.
      * split; [done|]. rewrite !fmap_app. simpl. by rewrite Hlen.
      * intros s' evs [= <- _]. by repeat split.
Qed.

(** Loop bodies that make the same passes give the same outcome and,
    up to the content of what was written, the same trace. *)
Lemma forLoop_samePass (body1 body2 : LoopState → option StepResult) :
  (∀ s, byteState s →
        samePass (body1 s) (body2 s) ∧
        ∀ s' evs, body2 s = Some (Continue s' evs) → byteState s') →
  ∀ fuel s, byteState s →
    (forLoop body1 fuel s).1 = (forLoop body2 fuel s).1 ∧
    forgetWritten <$> (forLoop body1 fuel s).2
    = forgetWritten <$> (forLoop body2 fuel s).2.
Proof.
  intros Hstep fuel. induction fuel as [|fuel IH]; intros s Hs; [done|].
  destruct (Hstep s Hs) as [Hsame Hkeep]. simpl.
  destruct (body1 s) as [[s1 evs1| |fr1 e1 evs1]|],
           (body2 s) as [[s2 evs2| |fr2 e2 evs2]|]; simpl in Hsame; try done.
  - destruct Hsame as [-> Hevs].
    destruct (IH s2) as [Ho Htr]; [by eapply Hkeep|].
    destruct (forLoop body1 fuel s2) as [o1 tr1], (forLoop body2 fuel s2) as [o2 tr2].
    simpl in *. rewrite !fmap_app, Hevs, Htr. by subst.
  - by destruct Hsame as (-> & -> & ->).
Qed.

Lemma processAudio_other config mic spk aec ns w :
  Forall is_uint8 mic → Forall is_uint8 spk →
  (Processor.processAudio (H := C1) config mic spk aec ns w).1
  = (Processor.processAudio (H := C2) config mic spk aec ns w).1 ∧
  forgetWritten <$> (Processor.processAudio (H := C1) config mic spk aec ns w).2
  = forgetWritten <$> (Processor.processAudio (H := C2) config mic spk aec ns w).2.
Proof.
  intros Hmic Hspk. unfold Processor.processAudio.
  destruct (initState _ _ _ _ _) as [s0|] eqn:Hinit; [|done].
  apply forLoop_samePass.
  - intros s Hs. by apply step_other.
  - unfold initState in Hinit.
    destruct (Slice.make (FrameSize config) 0%Z) as [fr|] eqn:Hmake; simpl in Hinit; [|done].
    assert (Hfr : Forall is_uint8 fr).
    { unfold Slice.make in Hmake. destruct (_ <? _)%Z; [done|].
      injection Hmake as <-. apply Forall_replicate. unfold is_uint8. lia. }
    destruct (if UsePrevSpeaker config then _ else _); simpl in Hinit; [|done].
    injection Hinit as <-. by repeat split.
Qed.

End OtherCodec.

(** X19: in the four engine modes the loop of [processAEC], with the
    table codec of [alaw.go] that package main calls, and the loop of
    [Processor.processAudio], with the codec of package [audio], do the
    same thing on files of bytes, up to the bytes that the two encoders
    produce: with the flags that select the mode of the configuration,
    the same frame size and the same delay-compensation flag, the two
    runs end the same way (both finish, both fail at the same frame with
    the same error, both panic), and unless they panic their traces are
    the same pass by pass (the same decodes, the same engine calls with
    the same frames, the same frames handed to the encoder, and a write
    of the same length where the other has one); only the content of the
    frames written may differ.  For a run that panics the trace holds the
    passes completed before, and nothing is claimed about it.  The bypass
    mode is excluded; [processAEC] has no test-alaw mode. *)
Theorem X19_loops_agree `{D : SpeexDSP}
    (config : Config) (f : Main.Flags) (mic spk : list Z)
    (aec : option AEC) (ns : option Preprocessor) (w : CState) :
  flagsSelect f (Mode config) = true → Mode config ≠ ModeBypass →
  Main.frameSize f = FrameSize config →
  Main.usePrevSpeaker f = UsePrevSpeaker config →
  Forall is_uint8 mic → Forall is_uint8 spk →
  (Main.processAEC (H := TableCodec) f mic spk aec ns w).1
  = (Processor.processAudio (H := DirectCodec) config mic spk aec ns w).1 ∧
  ((Processor.processAudio (H := DirectCodec) config mic spk aec ns w).1 ≠ Panicked →
   forgetWritten <$> (Main.processAEC (H := TableCodec) f mic spk aec ns w).2
   = forgetWritten <$> (Processor.processAudio (H := DirectCodec) config mic spk aec ns w).2).
Proof.
  intros Hsel Hnb Hsize Hprev Hmic Hspk.
  rewrite (loops_agree_same_codec (C := TableCodec) config f) by done.
  destruct (processAudio_other TableCodec DirectCodec decoders_agree
              config mic spk aec ns w Hmic Hspk) as [Ho Htr].
  split; [done|]. intros _. done.
Qed.

Lemma X19_ns_only_with_delay_flag :
  (Main.processAEC (H := TableCodec) (H0 := ToyDSP)
     (exampleFlags false true false true 4) [213; 85; 0; 255; 7]%Z [1; 2; 3]%Z
     None (toyNS 4) 0).1
  = (Processor.processAudio (H := DirectCodec) (H0 := ToyDSP)
       (exampleConfig ModeNSOnly 4 true) [213; 85; 0; 255; 7]%Z [1; 2; 3]%Z
       None (toyNS 4) 0).1 ∧
  ((Processor.processAudio (H := DirectCodec) (H0 := ToyDSP)
      (exampleConfig ModeNSOnly 4 true) [213; 85; 0; 255; 7]%Z [1; 2; 3]%Z
      None (toyNS 4) 0).1 ≠ Panicked →
   forgetWritten <$> (Main.processAEC (H := TableCodec) (H0 := ToyDSP)
                        (exampleFlags false true false true 4)
                        [213; 85; 0; 255; 7]%Z [1; 2; 3]%Z None (toyNS 4) 0).2
   = forgetWritten <$> (Processor.processAudio (H := DirectCodec) (H0 := ToyDSP)
                          (exampleConfig ModeNSOnly 4 true)
                          [213; 85; 0; 255; 7]%Z [1; 2; 3]%Z None (toyNS 4) 0).2).
Proof.
  apply (X19_loops_agree (D := ToyDSP)
           (exampleConfig ModeNSOnly 4 true) (exampleFlags false true false true 4)
           [213; 85; 0; 255; 7]%Z [1; 2; 3]%Z None (toyNS 4) 0).
  - reflexivity.
  - discriminate.
  - reflexivity.
  - reflexivity.
  - repeat constructor; unfold is_uint8; lia.
  - repeat constructor; unfold is_uint8; lia.
Defined.

(** ** Frame sizes that are not positive *)

Section ZeroFrames.
Context `{Codec} `{SpeexDSP}.




Lemma plain_step_zero config aec ns s :
  usesEngine (Mode config) = false → FrameSize config = 0%Z →
  micAlawFrame s = [] → micPcmFrame s = [] →
  ∃ s', Processor.step config aec ns s = Some (Continue s' emptyPass) ∧
        micAlawFrame s' = [] ∧ micPcmFrame s' = [].
Proof.
  intros Heng Hsize Hbuf Hpcm.
  unfold Processor.step, Processor.zeroPadFrames, Processor.processFrame,
    Processor.encodeFrame, needsSpeakerFile.
  rewrite Hsize, Hbuf, Hpcm.
  destruct (Mode config); try done; simpl; rewrite Nat.min_0_r; simpl;
    rewrite andb_false_r; eauto.
Qed.

Lemma forLoop_zero config aec ns fuel : ∀ s,
  usesEngine (Mode config) = false → FrameSize config = 0%Z →
  micAlawFrame s = [] → micPcmFrame s = [] →
  forLoop (Processor.step config aec ns) fuel s
  = (OutOfFuel, concat (replicate fuel emptyPass)).
Proof.
  induction fuel as [|fuel IH]; intros s Heng Hsize Hbuf Hpcm; [done|].
  destruct (plain_step_zero config aec ns s) as (s' & Hstep & Hbuf' & Hpcm'); [done..|].
  simpl. rewrite Hstep. by rewrite (IH s').
Qed.

Lemma output_emptyPass fuel : output (concat (replicate fuel emptyPass)) = [].
Proof. induction fuel as [|fuel IH]; [done|]. done. Qed.

End ZeroFrames.

(** X20: the bypass and test-alaw modes with a frame size that is not
    positive.  No constructor checks the frame size in these modes, so
    [Process] reaches the loop with the output file created: a negative
    frame size panics in the first [make], before anything is read; with
    frame size zero every read of zero bytes succeeds, [io.EOF] never
    comes, and the loop runs for ever, writing frames of no bytes:
    whatever the number of passes it is given, it has not left the loop.
    In both cases the output file stays empty. *)
Theorem X20_plain_modes_need_a_positive_frame_size `{C : Codec} `{D : SpeexDSP}
    `{A : !SpeexAlloc}
    (config : Config) (nsConfig : NSConfig) (files : Files) (w : CState) :
  is_Some (micBytes files) → outputCreatable files = true →
  usesEngine (Mode config) = false → (FrameSize config <= 0)%Z →
  outputFile (ProcessorSetup.Process config nsConfig files w) = Some [] ∧
  lifecycle (ProcessorSetup.Process config nsConfig files w) = [] ∧
  ((FrameSize config < 0)%Z →
   result (ProcessorSetup.Process config nsConfig files w) = Panics ∧
   trace (ProcessorSetup.Process config nsConfig files w) = []) ∧
  (FrameSize config = 0%Z →
   result (ProcessorSetup.Process config nsConfig files w) = Diverges ∧
   ∀ mic spk aec ns w0,
     ∃ s0, initState (FrameSize config) (UsePrevSpeaker config) mic spk w0 = Some s0 ∧
           ∀ fuel, forLoop (Processor.step config aec ns) fuel s0
                   = (OutOfFuel, concat (replicate fuel emptyPass))).
Proof.
  intros [mic Hmic] Hout Heng Hsize.
  assert (Hneeds : needsSpeakerFile config = false).
  { unfold needsSpeakerFile. by destruct (Mode config). }
  assert (Hinit : ProcessorSetup.initializeComponents config nsConfig w
                  = (inr (None, None), w, [])).
  { unfold ProcessorSetup.initializeComponents. by destruct (Mode config). }
  unfold ProcessorSetup.Process. rewrite Hmic, Hneeds, Hout, Hinit. simpl.
  destruct (Z.eq_dec (FrameSize config) 0%Z) as [Hzero|Hneg].
  - assert (Hloop : ∀ mic spk aec ns w0,
              ∃ s0, initState (FrameSize config) (UsePrevSpeaker config) mic spk w0
                    = Some s0 ∧
                    ∀ fuel, forLoop (Processor.step config aec ns) fuel s0
                            = (OutOfFuel, concat (replicate fuel emptyPass))).
    { intros mic' spk aec ns w0. rewrite Hzero. unfold initState. simpl.
      destruct (UsePrevSpeaker config); simpl;
        (eexists; split; [done|]); intros fuel; by apply forLoop_zero. }
    unfold Processor.processAudio.
    destruct (Hloop (if outputIsMic files then [] else mic)
                (if outputIsSpeaker files then [] else []) None None w)
      as (s0 & -> & Hrun). rewrite Hrun.
    cbn [outputFile lifecycle result trace].
    split; [by rewrite output_emptyPass|].
    split; [done|]. split; [lia|]. intros _. by split.
  - unfold Processor.processAudio, initState, Slice.make.
    destruct (Z.ltb_spec (FrameSize config) 0); [|lia]. simpl.
    split; [done|]. split; [done|]. split; [done|]. lia.
Qed.

Lemma X20_bypass_with_frame_size_zero :
  outputFile (ProcessorSetup.Process (H := DirectCodec) (H0 := ToyDSP) (H1 := ToyAlloc None)
                (exampleConfig ModeBypass 0 false) tt
                (exampleFiles [213; 85; 213]%Z None) 0) = Some [] ∧
  lifecycle (ProcessorSetup.Process (H := DirectCodec) (H0 := ToyDSP) (H1 := ToyAlloc None)
               (exampleConfig ModeBypass 0 false) tt
               (exampleFiles [213; 85; 213]%Z None) 0) = [] ∧
  ((FrameSize (exampleConfig ModeBypass 0 false) < 0)%Z →
   result (ProcessorSetup.Process (H := DirectCodec) (H0 := ToyDSP) (H1 := ToyAlloc None)
             (exampleConfig ModeBypass 0 false) tt
             (exampleFiles [213; 85; 213]%Z None) 0) = Panics ∧
   trace (ProcessorSetup.Process (H := DirectCodec) (H0 := ToyDSP) (H1 := ToyAlloc None)
            (exampleConfig ModeBypass 0 false) tt
            (exampleFiles [213; 85; 213]%Z None) 0) = []) ∧
  (FrameSize (exampleConfig ModeBypass 0 false) = 0%Z →
   result (ProcessorSetup.Process (H := DirectCodec) (H0 := ToyDSP) (H1 := ToyAlloc None)
             (exampleConfig ModeBypass 0 false) tt
             (exampleFiles [213; 85; 213]%Z None) 0) = Diverges ∧
   ∀ mic spk aec ns w0,
     ∃ s0, initState (H := ToyDSP) (FrameSize (exampleConfig ModeBypass 0 false))
             (UsePrevSpeaker (exampleConfig ModeBypass 0 false)) mic spk w0 = Some s0 ∧
           ∀ fuel, forLoop (Processor.step (H := DirectCodec)
                              (exampleConfig ModeBypass 0 false) aec ns) fuel s0
                   = (OutOfFuel, concat (replicate fuel emptyPass))).
Proof.
  apply (X20_plain_modes_need_a_positive_frame_size (C := DirectCodec) (D := ToyDSP)
           (A := ToyAlloc None)
           (exampleConfig ModeBypass 0 false) tt (exampleFiles [213; 85; 213]%Z None) 0).
  - by eexists.
  - reflexivity.
  - reflexivity.
  - simpl. lia.
Defined.

(** ** What the loop hands on *)

(** The frames of a stream, one after the other, are the stream followed
    by the silence bytes that fill its last frame. *)
Lemma concat_frames n : 0 < n → ∀ k (stream : list Z), length stream ≤ k →
  concat (frames n stream)
  = stream ++ replicate ((n - length stream mod n) mod n) 213%Z.
Proof.
  intros Hn k. induction k as [|k IH]; intros stream Hk.
  - destruct stream; [|simpl in Hk; lia].
    rewrite frames_nil by done. simpl.
    rewrite Nat.Div0.mod_0_l, Nat.sub_0_r, Nat.Div0.mod_same. done.
  - destruct (decide (stream = [])) as [->|Hne].
    { rewrite frames_nil by done. simpl.
      rewrite Nat.Div0.mod_0_l, Nat.sub_0_r, Nat.Div0.mod_same. done. }
    assert (0 < length stream) by (destruct stream; [done|simpl; lia]).
    rewrite frames_cons by done. simpl.
    rewrite IH by (rewrite length_drop; lia).
    unfold frameAt. simpl. rewrite drop_0, length_take, length_drop.
    destruct (Nat.le_gt_cases n (length stream)) as [Hle|Hlt].
    + replace (n - n `min` length stream) with 0 by lia. simpl.
      rewrite app_nil_r, app_assoc, take_drop.
      replace (length stream) with ((length stream - n) + 1 * n) at 2 by lia.
      by rewrite Nat.Div0.mod_add.
    + replace (length stream - n) with 0 by lia.
      rewrite take_ge, drop_ge by lia. simpl.
      rewrite Nat.Div0.mod_0_l, Nat.sub_0_r, Nat.Div0.mod_same, !app_nil_r. simpl.
      rewrite Nat.min_r by lia.
      rewrite (Nat.mod_small (length stream)) by lia.
      by rewrite (Nat.mod_small (n - length stream)) by lia.
Qed.

(** X21: the bypass and test-alaw modes of [Processor] (with the codec of
    its [audio] package) reproduce the microphone file: the output file
    is the input followed by as many silence bytes 0xD5 as fill the last
    frame, none when the length is a multiple of the frame size.  Every
    byte went through [AlawToPCM16] and [PCM16ToAlaw] on the way. *)
Theorem X21_plain_modes_reproduce_the_input `{D : SpeexDSP}
    (config : Config) (mic spk : list Z)
    (aec : option AEC) (ns : option Preprocessor) (w : CState) (n : nat) :
  0 < n → Forall is_uint8 mic →
  FrameSize config = Z.of_nat n → usesEngine (Mode config) = false →
  ∃ tr, Processor.processAudio (H := DirectCodec) config mic spk aec ns w
        = (Finished, tr) ∧
        output tr = mic ++ replicate ((n - length mic mod n) mod n) 213%Z ∧
        encodes tr = (fmap (M := list) G711.AlawToPCM16 <$> frames n mic).
Proof.
  intros Hn Hbytes Hf Heng.
  assert (Hneeds : needsSpeakerFile config = false).
  { unfold needsSpeakerFile. by destruct (Mode config). }
  assert (Hmode : Mode config ≠ ModeNSOnly) by (by destruct (Mode config)).
  destruct (processAudio_run (H := DirectCodec) config aec ns n
              (λ s tr, Forall is_uint8 (micFile s) →
                 writes tr = frames n (micFile s) ∧
                 encodes tr = (fmap (M := list) G711.AlawToPCM16 <$> frames n (micFile s))))
    with (mic := mic) (spk := spk) (w := w) as (s0 & tr & Hinit & Hrun & HP);
    [done|done| | | |].
  - unfold componentsReady. by destruct (Mode config).
  - intros s Hstop _. unfold stops in Hstop. rewrite Hneeds in Hstop.
    destruct (micFile s); [|done]. by rewrite frames_nil.
  - intros s s' evs tr Hstop Hfacts Hplain IH Hb.
    destruct Hfacts as (Hm & _).
    rewrite Hplain by done.
    destruct IH as (Hw & He); [rewrite Hm; by apply Forall_drop|].
    rewrite writes_app, encodes_app, Hw, He, Hm.
    rewrite (frames_cons n (micFile s)) by eauto using stops_false_mic.
    simpl. rewrite G711_roundtrip_frame by (by apply frameAt_uint8). done.
  - destruct (initState_ok n (UsePrevSpeaker config) mic spk w)
      as (s1 & Hinit1 & _ & Hmic & _).
    assert (s1 = s0) as -> by congruence. rewrite Hmic in HP.
    destruct (HP Hbytes) as [Hw He].
    exists tr. split; [done|]. split; [|done].
    unfold output. rewrite Hw. by apply (concat_frames n Hn (length mic)).
Qed.

Lemma X21_five_bytes_test_alaw :
  ∃ tr, Processor.processAudio (H := DirectCodec) (H0 := ToyDSP)
          (exampleConfig ModeTestAlaw 4 false) [213; 85; 0; 255; 7]%Z [] None None 0
        = (Finished, tr) ∧
        output tr = [213; 85; 0; 255; 7]%Z
                    ++ replicate ((4 - length [213; 85; 0; 255; 7]%Z mod 4) mod 4) 213%Z ∧
        encodes tr
        = (fmap (M := list) G711.AlawToPCM16 <$> frames 4 [213; 85; 0; 255; 7]%Z).
Proof.
  apply (X21_plain_modes_reproduce_the_input (D := ToyDSP)
           (exampleConfig ModeTestAlaw 4 false) [213; 85; 0; 255; 7]%Z [] None None 0 4).
  - lia.
  - repeat constructor; unfold is_uint8; lia.
  - reflexivity.
  - reflexivity.
Defined.

(** X22: without delay compensation, in a mode that needs the speaker
    file, the far-end frames handed to the echo canceller are the decoded
    frames of the speaker file, pass by pass, the last one filled up with
    decoded silence: the frame of a pass is the speaker frame read in
    that pass. *)
Theorem X22_far_end_without_delay `{C : Codec} `{D : SpeexDSP}
    (config : Config) (mic spk : list Z)
    (aec : option AEC) (ns : option Preprocessor) (w : CState) (n : nat) :
  0 < n → FrameSize config = Z.of_nat n →
  needsSpeakerFile config = true → UsePrevSpeaker config = false →
  componentsReady config aec ns = true →
  ∃ tr, Processor.processAudio config mic spk aec ns w = (Finished, tr) ∧
        farEndFrames tr =
          take (Nat.min (frameTotal n mic) (frameTotal n spk))
               (fmap (M := list) AlawToPCM16 <$> frames n spk).
Proof.
  intros Hn Hf Hneeds Hprev Hready.
  destruct (processAudio_run config aec ns n
              (λ s tr, farEndFrames tr =
                 take (passes n true s)
                      (fmap (M := list) AlawToPCM16 <$> frames n (speakerFile s))))
    with (mic := mic) (spk := spk) (w := w) as (s0 & tr & Hinit & Hrun & Hfar);
    [done..| | |].
  - intros s Hstop. rewrite Hneeds in Hstop. by rewrite passes_stop.
  - intros s s' evs tr Hstop Hfacts _ IH.
    rewrite Hneeds, Hprev in *.
    destruct Hfacts as (Hm & Hs & Hsp & Hp & _ & _ & _ & Hfe).
    rewrite (passes_pass n true s s') by done.
    rewrite farEndFrames_app, Hfe, IH, Hsp, Hs. simpl.
    rewrite (frames_cons n (speakerFile s)) by eauto using stops_false_spk.
    done.
  - destruct (initState_ok n (UsePrevSpeaker config) mic spk w)
      as (s1 & Hinit1 & _ & Hmic & Hspk & _).
    assert (s1 = s0) as -> by congruence.
    exists tr. split; [done|].
    rewrite Hfar. unfold passes. by rewrite Hmic, Hspk.
Qed.

Lemma X22_two_frames_aec_only :
  ∃ tr, Processor.processAudio (H := DirectCodec) (H0 := ToyDSP)
          (exampleConfig ModeAECOnly 4 false)
          [213; 85; 0; 255; 7]%Z [85; 213; 1; 2; 3; 4]%Z (toyAEC 4) None 0
        = (Finished, tr) ∧
        farEndFrames tr =
          take (Nat.min (frameTotal 4 [213; 85; 0; 255; 7]%Z)
                        (frameTotal 4 [85; 213; 1; 2; 3; 4]%Z))
               (fmap (M := list) (AlawToPCM16 (Codec := DirectCodec))
                  <$> frames 4 [85; 213; 1; 2; 3; 4]%Z).
Proof.
  apply (X22_far_end_without_delay (C := DirectCodec) (D := ToyDSP)
           (exampleConfig ModeAECOnly 4 false)
           [213; 85; 0; 255; 7]%Z [85; 213; 1; 2; 3; 4]%Z (toyAEC 4) None 0 4).
  - lia.
  - reflexivity.
  - reflexivity.
  - reflexivity.
  - reflexivity.
Defined.
